(** * OpenCut export engine: a shallow embedding of [VideoExportService]

    Source: [apps/web/src/lib/ffmpeg-utils.ts] (second document of the file,
    the [VideoExportService] class).

    JavaScript numbers are modelled by exact rationals ([Q]); every
    comparison of the source is a boolean test on [Q], and equalities between
    computed numbers are stated with [==].  Division is only used where the
    source's denominator is known to be non-zero, or the theorem assumes it.
    Timeline data is taken well typed: no track, element or media item is
    [null].  Browser facilities (network loads, the DOM, Web Audio) are
    oracles passed to the functions that use them, and time is an idealised
    clock in milliseconds on which callbacks take no time.

    The last modules of Part I embed what surrounds the service: the export
    button of the editor header, [generateId] of [lib/utils.ts], the audio
    panel's [formatDuration], the naming of extracted audio files, the
    settings store with the adjustment panel, and the progress bar of
    [drawTimelineOverlay]. *)

From stdpp Require Import base gmap strings.
From Stdlib Require Import QArith Qround Qminmax ZArith List Ascii String
  Lia Lqa Permutation Sorted.
From Stdlib Require DecimalString HexadecimalString.
Import ListNotations.

Local Open Scope Q_scope.

(* ================================================================== *)
(** * Part I: the embedding                                            *)
(* ================================================================== *)

(** ** JavaScript idioms *)

(** [a < b] on numbers, as a boolean. *)
Definition Qltb (a b : Q) : bool := negb (Qle_bool b a).

(** [v || d] where [v] is a possibly-missing number: [undefined] and [0]
    are both falsy, so both yield the default. *)
Definition num_or (v : option Q) (d : Q) : Q :=
  match v with
  | Some q => if Qeq_bool q 0 then d else q
  | None => d
  end.

(** [v !== undefined ? v : d]. *)
Definition num_defined_or (v : option Q) (d : Q) : Q :=
  match v with
  | Some q => q
  | None => d
  end.

(** [s || d] on possibly-missing strings: [undefined] and [''] are falsy. *)
Definition str_or (v : option string) (d : string) : string :=
  match v with
  | Some s => if String.eqb s "" then d else s
  | None => d
  end.

(** ** Data model *)

(** Modelled from the spec: the declarations of [@/types/timeline]
    ([TimelineTrack], [TimelineElement]) and [@/types/project] ([MediaItem])
    are not among the sources.  The types below carry the fields section 3
    of the specification lists, which are the fields the service reads. *)
Inductive TrackType := TrackVideo | TrackAudio | TrackMedia | TrackText.

(** Modelled from the spec: [MediaItem.type], one of video, audio, image
    ([@/types/project] is not among the sources). *)
Inductive MediaType := MediaVideo | MediaAudio | MediaImage.

(** [ProjectSettings["quality"]] of [project-settings-store.ts]. *)
Inductive Quality := Q480p | Q720p | Q1080p | Q1440p | Q2160p.

Definition TrackType_eqb (a b : TrackType) : bool :=
  match a, b with
  | TrackVideo, TrackVideo | TrackAudio, TrackAudio
  | TrackMedia, TrackMedia | TrackText, TrackText => true
  | _, _ => false
  end.

(** Modelled from the spec: the fields only a text element carries
    ([@/types/timeline] is not among the sources). *)
Record TextFields := {
  content : option string;
  fontSize : option Q;
  fontFamily : option string;
  fontWeight : option string;
  fontStyle : option string;
  color : option string;
  backgroundColor : option string;
  textAlign : option string
}.

(** Modelled from the spec: the element union of [@/types/timeline], which
    is not among the sources; [element.type] is ["media"] (with a
    [mediaId]) or ["text"]. *)
Inductive ElementBody :=
| MediaBody (mediaId : string)
| TextBody (text : TextFields).

(** Modelled from the spec: [TimelineElement] of [@/types/timeline]. *)
Record TimelineElement := {
  el_name : string;
  startTime : Q;
  duration : Q;
  trimStart : Q;
  trimEnd : Q;
  el_x : option Q;
  el_y : option Q;
  rotation : option Q;
  opacity : option Q;
  body : ElementBody
}.

Definition is_media (e : TimelineElement) : bool :=
  match body e with MediaBody _ => true | TextBody _ => false end.

Definition is_text (e : TimelineElement) : bool :=
  match body e with MediaBody _ => false | TextBody _ => true end.

(** Modelled from the spec: [TimelineTrack] of [@/types/timeline]. *)
Record TimelineTrack := {
  track_type : TrackType;
  order : option Q;
  elements : list TimelineElement
}.

(** Modelled from the spec: [MediaItem] of [@/types/project]. *)
Record MediaItem := {
  item_id : string;
  item_type : MediaType;
  item_url : option string;
  item_name : string;
  item_duration : option Q
}.

(** [ProjectSettings] of [project-settings-store.ts]. *)
Record ProjectSettings := {
  fps : Q;
  quality : Quality;
  customBitrate : Q;
  resolution : string
}.

(** The part of an [HTMLCanvasElement] the service uses. *)
Record Canvas := {
  width : Q;
  height : Q
}.

(** [mediaItems.find(item => item.id === id)]. *)
Definition find_item (mediaItems : list MediaItem) (id : string)
  : option MediaItem :=
  List.find (fun item => String.eqb (item_id item) id) mediaItems.

(** ** Timeline snapshot reader *)

Module Timeline.

(** One entry of the array [getActiveElementsAtTime] returns. *)
Record Active := {
  element : TimelineElement;
  track : TimelineTrack;
  mediaItem : option MediaItem
}.

Definition elementStart (e : TimelineElement) : Q := startTime e.

Definition elementEnd (e : TimelineElement) : Q :=
  startTime e + (duration e - trimStart e - trimEnd e).

(** [currentTime >= elementStart && currentTime < elementEnd]. *)
Definition in_window (currentTime : Q) (e : TimelineElement) : bool :=
  Qle_bool (elementStart e) currentTime && Qltb currentTime (elementEnd e).

(** The media item attached to an active element: only media elements
    get one, and the ["test"] id never does. *)
Definition resolve (mediaItems : list MediaItem) (e : TimelineElement)
  : option MediaItem :=
  match body e with
  | MediaBody mediaId =>
      if String.eqb mediaId "test" then None
      else find_item mediaItems mediaId
  | TextBody _ => None
  end.

(** The object pushed for an active element. *)
Definition entry (mediaItems : list MediaItem) (tr : TimelineTrack)
    (e : TimelineElement) : Active :=
  {| element := e; track := tr; mediaItem := resolve mediaItems e |}.

(** Body of the inner [forEach]: push the element when it is active. *)
Definition visit_element (currentTime : Q) (mediaItems : list MediaItem)
    (tr : TimelineTrack) (activeElements : list Active)
    (e : TimelineElement) : list Active :=
  if in_window currentTime e
  then activeElements ++ [entry mediaItems tr e]
  else activeElements.

(** Body of the outer [forEach]. *)
Definition visit_track (currentTime : Q) (mediaItems : list MediaItem)
    (activeElements : list Active) (tr : TimelineTrack) : list Active :=
  fold_left (visit_element currentTime mediaItems tr) (elements tr)
            activeElements.

Definition getActiveElementsAtTime (currentTime : Q)
    (tracks : list TimelineTrack) (mediaItems : list MediaItem)
  : list Active :=
  fold_left (visit_track currentTime mediaItems) tracks [].

(** The window the specification describes, with a floor [epsilon] on the
    trimmed duration; it is compared with [in_window] below. *)
Definition spec_window (epsilon currentTime : Q) (e : TimelineElement)
  : Prop :=
  startTime e <= currentTime /\
  currentTime <
    startTime e + Qmax epsilon (duration e - trimStart e - trimEnd e).

End Timeline.

(** ** Preloaded media handles *)

(** The DOM element kept for a media item, reduced to what the renderer
    reads from it: intrinsic size and, for videos, readiness and length. *)
Inductive MediaHandle :=
| HTMLImageElement (naturalWidth naturalHeight : Q)
| HTMLVideoElement (videoWidth videoHeight : Q) (readyState : Z)
                   (videoDuration : option Q).

Definition is_video (h : MediaHandle) : bool :=
  match h with HTMLVideoElement _ _ _ _ => true | _ => false end.

(** ** Aspect-fit layout *)

Module RenderInfo.
Record t := { x : Q; y : Q; width : Q; height : Q }.
End RenderInfo.

Module Layout.

Definition mediaWidth (mediaElement : MediaHandle) : Q :=
  match mediaElement with
  | HTMLVideoElement videoWidth _ _ _ => videoWidth
  | HTMLImageElement naturalWidth _ => naturalWidth
  end.

Definition mediaHeight (mediaElement : MediaHandle) : Q :=
  match mediaElement with
  | HTMLVideoElement _ videoHeight _ _ => videoHeight
  | HTMLImageElement _ naturalHeight => naturalHeight
  end.

Definition calculateRenderInfo (element : TimelineElement)
    (mediaElement : MediaHandle) (canvas : Canvas) : RenderInfo.t :=
  let mediaWidth := mediaWidth mediaElement in
  let mediaHeight := mediaHeight mediaElement in
  if Qeq_bool mediaWidth 0 || Qeq_bool mediaHeight 0 then
    {| RenderInfo.x := 0; RenderInfo.y := 0;
       RenderInfo.width := width canvas; RenderInfo.height := height canvas |}
  else
    let mediaAspect := mediaWidth / mediaHeight in
    let canvasAspect := width canvas / height canvas in
    let renderWidth :=
      if Qltb canvasAspect mediaAspect
      then width canvas
      else height canvas * mediaAspect in
    let renderHeight :=
      if Qltb canvasAspect mediaAspect
      then width canvas / mediaAspect
      else height canvas in
    let x := (width canvas - renderWidth) / 2 in
    let y := (height canvas - renderHeight) / 2 in
    {| RenderInfo.x := x; RenderInfo.y := y;
       RenderInfo.width := renderWidth; RenderInfo.height := renderHeight |}.

(** The canvas sizes [createRealVideoFile] and [createFallbackExport] use. *)
Definition qualityPresets (q : Quality) : Canvas :=
  match q with
  | Q480p => {| width := 854; height := 480 |}
  | Q720p => {| width := 1280; height := 720 |}
  | Q1080p => {| width := 1920; height := 1080 |}
  | Q1440p => {| width := 2560; height := 1440 |}
  | Q2160p => {| width := 3840; height := 2160 |}
  end.

(** Text sizing in [renderTextElementSafe]. *)
Definition baseFontSize (text : TextFields) : Q := num_or (fontSize text) 48.

Definition fontScale (canvas : Canvas) : Q :=
  Qmin (width canvas / 1920) (height canvas / 1080) * 2.

Definition effectiveFontSize (text : TextFields) (canvas : Canvas) : Q :=
  Qmax 32 (baseFontSize text * fontScale canvas).

(** The size the specification gives: the element's [fontSize], 48 only
    when the field is absent. *)
Definition spec_baseFontSize (text : TextFields) : Q :=
  num_defined_or (fontSize text) 48.

Definition spec_fontSize (text : TextFields) (canvas : Canvas) : Q :=
  Qmax 32 (spec_baseFontSize text
           * Qmin (width canvas / 1920) (height canvas / 1080) * 2).

End Layout.

(** ** Stable sorting, as [Array.prototype.sort] with a numeric key

    ECMAScript requires [sort] to be stable; with the comparator
    [(a, b) => key a - key b] the result is the one stable ascending
    arrangement of the array, which insertion from the right computes. *)

Module StableSort.
Section Sort.
Context {A : Type} (key : A -> Q).

Fixpoint insert (a : A) (l : list A) : list A :=
  match l with
  | [] => [a]
  | b :: l' =>
      if Qle_bool (key a) (key b) then a :: b :: l' else b :: insert a l'
  end.

Definition sort (l : list A) : list A := fold_right insert [] l.

(** The order the result is sorted by, and the test that picks the
    elements of one key. *)
Definition key_le (a b : A) : Prop := key a <= key b.

Definition has_key (k : Q) (a : A) : bool := Qeq_bool (key a) k.

End Sort.
End StableSort.

(** ** Frame renderer

    The 2D context is modelled by the log of what was drawn on it; every
    rendering function takes the log and returns it extended. *)

Module Renderer.
Import Timeline.

Record TextDraw := {
  td_content : string;
  td_x : Q;
  td_y : Q;
  td_rotation : Q;
  td_fontSize : Q;
  td_fontFamily : string;
  td_fontWeight : string;
  td_fontStyle : string;
  td_textAlign : string;
  td_globalAlpha : Q;
  td_background : option string;
  td_lineWidth : Q;
  td_fillStyle : string
}.

Inductive DrawOp :=
| FillBackground (fillStyle : string) (w h : Q)
| DrawPlaceholder (e : TimelineElement) (w h : Q)
| SeekVideo (e : TimelineElement) (targetTime : Q)
| DrawImage (e : TimelineElement) (h : MediaHandle) (info : RenderInfo.t)
            (globalAlpha : Q)
| DrawText (e : TimelineElement) (d : TextDraw).

Definition Context2D := list DrawOp.

(** [element.backgroundColor && ... !== 'transparent' && ... !== '']. *)
Definition text_background (text : TextFields) : option string :=
  match backgroundColor text with
  | Some c =>
      if String.eqb c "" || String.eqb c "transparent" then None else Some c
  | None => None
  end.

Definition renderTextElementSafe (ctx : Context2D) (canvas : Canvas)
    (e : TimelineElement) (text : TextFields) : Context2D :=
  let textContent :=
    str_or (content text) (str_or (Some (el_name e)) "Text") in
  let x := width canvas * (1 # 2) + num_or (el_x e) 0 in
  let y := height canvas * (1 # 2) + num_or (el_y e) 0 in
  let fontSize := Layout.effectiveFontSize text canvas in
  ctx ++
  [DrawText e
     {| td_content := textContent;
        td_x := x;
        td_y := y;
        td_rotation := num_or (rotation e) 0;
        td_fontSize := fontSize;
        td_fontFamily := str_or (fontFamily text) "Arial, sans-serif";
        td_fontWeight := str_or (fontWeight text) "bold";
        td_fontStyle := str_or (fontStyle text) "normal";
        td_textAlign := str_or (textAlign text) "center";
        td_globalAlpha := num_defined_or (opacity e) 1;
        td_background := text_background text;
        td_lineWidth := Qmax 3 (fontSize / 12);
        td_fillStyle := str_or (color text) "#ffffff" |}].

(** The seek applied to a video handle before it is drawn. *)
Definition seek_target (e : TimelineElement) (currentTime : Q)
    (mediaElement : MediaHandle) : option Q :=
  match mediaElement with
  | HTMLVideoElement _ _ readyState videoDuration =>
      let elementTime := currentTime - startTime e in
      let adjustedTime := elementTime + num_or (Some (trimStart e)) 0 in
      let targetTime := Qmin (Qmax 0 adjustedTime) (num_or videoDuration 0) in
      if (2 <=? readyState)%Z && Qle_bool 0 targetTime
      then Some targetTime else None
  | HTMLImageElement _ _ => None
  end.

Section WithBrowser.
(** Whether [ctx.drawImage] accepts the handle (it throws on a broken one). *)
Variable drawImage_ok : MediaHandle -> bool.

Definition renderMediaElementSafe (ctx : Context2D) (canvas : Canvas)
    (e : TimelineElement) (mediaId : string) (mediaItem : option MediaItem)
    (currentTime : Q) (mediaElements : gmap string (option MediaHandle))
  : Context2D :=
  match mediaItem with
  | None => ctx ++ [DrawPlaceholder e (width canvas) (height canvas)]
  | Some item =>
      if String.eqb mediaId "test"
      then ctx ++ [DrawPlaceholder e (width canvas) (height canvas)]
      else
        match mediaElements !! item_id item with
        | Some (Some mediaElement) =>
            let ctx1 :=
              match seek_target e currentTime mediaElement with
              | Some targetTime => ctx ++ [SeekVideo e targetTime]
              | None => ctx
              end in
            let renderInfo :=
              Layout.calculateRenderInfo e mediaElement canvas in
            if drawImage_ok mediaElement
            then ctx1 ++ [DrawImage e mediaElement renderInfo
                            (num_defined_or (opacity e) 1)]
            else ctx1
        | _ => ctx
        end
  end.

(** [a.track.order || 0]. *)
Definition trackOrder (a : Active) : Q := num_or (order (track a)) 0.

Definition sortedElements (activeElements : list Active) : list Active :=
  StableSort.sort trackOrder activeElements.

(** Body of the [for ... of sortedElements] loop. *)
Definition renderElement (canvas : Canvas) (currentTime : Q)
    (mediaElements : gmap string (option MediaHandle))
    (ctx : Context2D) (a : Active) : Context2D :=
  match body (element a) with
  | MediaBody mediaId =>
      renderMediaElementSafe ctx canvas (element a) mediaId (mediaItem a)
                             currentTime mediaElements
  | TextBody text => renderTextElementSafe ctx canvas (element a) text
  end.

Definition renderActiveElementsSafe (ctx : Context2D) (canvas : Canvas)
    (activeElements : list Active) (currentTime : Q)
    (mediaElements : gmap string (option MediaHandle)) : Context2D :=
  fold_left (renderElement canvas currentTime mediaElements)
            (sortedElements activeElements) ctx.

(** What rendering one element adds to an empty log. *)
Definition opsOf (canvas : Canvas) (currentTime : Q)
    (mediaElements : gmap string (option MediaHandle)) (a : Active)
  : list DrawOp :=
  renderElement canvas currentTime mediaElements [] a.

(** One run of the [renderFrame] closure of [renderVideoContentSafe],
    without the bookkeeping of the frame counter. *)
Definition drawFrame (ctx : Context2D) (canvas : Canvas)
    (backgroundColor : option string) (currentTime : Q)
    (tracks : list TimelineTrack) (mediaItems : list MediaItem)
    (mediaElements : gmap string (option MediaHandle)) : Context2D :=
  let ctx1 :=
    ctx ++ [FillBackground (str_or backgroundColor "#000000")
                           (width canvas) (height canvas)] in
  let activeElements :=
    getActiveElementsAtTime currentTime tracks mediaItems in
  renderActiveElementsSafe ctx1 canvas activeElements currentTime
                           mediaElements.

End WithBrowser.

(** Classification of what was drawn. *)
Definition is_media_op (op : DrawOp) : bool :=
  match op with
  | DrawPlaceholder _ _ _ | DrawImage _ _ _ _ => true
  | _ => false
  end.

Definition is_text_op (op : DrawOp) : bool :=
  match op with DrawText _ _ => true | _ => false end.

(** "No text is drawn before any media": no media operation follows a
    text operation in the log. *)
Fixpoint media_before_text (ops : list DrawOp) : bool :=
  match ops with
  | [] => true
  | op :: rest =>
      (if is_text_op op then forallb (fun o => negb (is_media_op o)) rest
       else true) && media_before_text rest
  end.

End Renderer.

(** ** Promises on an idealised clock

    A promise is described by what it does when run from time 0: the
    side effects it causes, each with the millisecond at which it happens,
    and when and how it settles ([None]: it stays pending for ever).
    Effects of work that goes on after the promise has settled, or after it
    lost a race, stay in the list. *)

Inductive ToastLevel := Info | Success | Warning.

Inductive Payload :=
| WebM (hasAudio : bool)
| Png
| FailureReport (projectName : string) (duration : Q)
                (settings : ProjectSettings).

Inductive Effect :=
| Toast (level : ToastLevel) (message : string)
| Download (filename : string) (payload : Payload).

Module Async.

Inductive Settled (A : Type) :=
| Fulfilled (a : A)
| Rejected (reason : string).
Arguments Fulfilled {A} a.
Arguments Rejected {A} reason.

Record Promise (A : Type) := mkPromise {
  effects : list (N * Effect);
  outcome : option (N * Settled A)
}.
Arguments mkPromise {A} effects outcome.
Arguments effects {A} p.
Arguments outcome {A} p.

Definition resolve {A} (a : A) : Promise A :=
  mkPromise [] (Some (0%N, Fulfilled a)).

Definition reject {A} (reason : string) : Promise A :=
  mkPromise [] (Some (0%N, Rejected reason)).

Definition emit (eff : Effect) : Promise unit :=
  mkPromise [(0%N, eff)] (Some (0%N, Fulfilled tt)).

(** [new Promise(resolve => setTimeout(resolve, ms))]. *)
Definition sleep (ms : N) : Promise unit :=
  mkPromise [] (Some (ms, Fulfilled tt)).

(** [new Promise((_, reject) => setTimeout(() => reject(...), ms))]. *)
Definition timeout (ms : N) (reason : string) : Promise unit :=
  mkPromise [] (Some (ms, Rejected reason)).

(** The same promise started [t] milliseconds later. *)
Definition delay {A} (t : N) (p : Promise A) : Promise A :=
  mkPromise (map (fun te => ((t + fst te)%N, snd te)) (effects p))
            (match outcome p with
             | Some (u, r) => Some ((t + u)%N, r)
             | None => None
             end).

(** [const a = await p; ... f a]. *)
Definition await {A B} (p : Promise A) (f : A -> Promise B) : Promise B :=
  match outcome p with
  | Some (t, Fulfilled a) =>
      let q := delay t (f a) in
      mkPromise (effects p ++ effects q) (outcome q)
  | Some (t, Rejected reason) => mkPromise (effects p) (Some (t, Rejected reason))
  | None => mkPromise (effects p) None
  end.

(** [try { await p } catch (error) { handler error }]. *)
Definition try_catch {A} (p : Promise A) (handler : string -> Promise A)
  : Promise A :=
  match outcome p with
  | Some (t, Rejected reason) =>
      let q := delay t (handler reason) in
      mkPromise (effects p ++ effects q) (outcome q)
  | _ => p
  end.

(** [Promise.race([p; q])] where [q] is a timer set before anything [p]
    waits for: the first to settle wins, and on a tie the timer, whose
    callback is ahead of whatever settles [p]. *)
Definition race {A} (p q : Promise A) : Promise A :=
  mkPromise (effects p ++ effects q)
            (match outcome p, outcome q with
             | Some (tp, rp), Some (tq, rq) =>
                 if (tp <? tq)%N then Some (tp, rp) else Some (tq, rq)
             | Some r, None => Some r
             | None, Some r => Some r
             | None, None => None
             end).

Definition void {A} (p : Promise A) : Promise unit :=
  await p (fun _ => resolve tt).

(** When a promise settles, counted from its start: what a clock read
    right after the [await] shows (0 for a promise that never settles). *)
Definition settledAt {A} (p : Promise A) : N :=
  match outcome p with
  | Some (t, _) => t
  | None => 0%N
  end.

Definition fulfilled {A} (p : Promise A) : Prop :=
  exists t a, outcome p = Some (t, Fulfilled a).

Definition rejected {A} (p : Promise A) : Prop :=
  exists t reason, outcome p = Some (t, Rejected reason).

Definition caused {A} (p : Promise A) (eff : Effect) : Prop :=
  exists t, In (t, eff) (effects p).

End Async.

Notation "x <- p ;; q" := (Async.await p (fun x => q))
  (at level 100, p at next level, right associativity).
Notation "p ;;; q" := (Async.await p (fun _ => q))
  (at level 100, right associativity).

(** ** Media preloader *)

Module Preloader.
Import Async.

(** What the browser does once the element for an item has its [src] set:
    the load (or metadata) event after [ms] milliseconds with the intrinsic
    data it reveals, the error event after [ms], no event at all, or an
    exception while the element is being created.  [readyState] is what the
    loaded element reports at each time, counted from the start of the
    preload. *)
Inductive LoadOutcome :=
| Loads (ms : N) (w h : Q) (readyState : N -> Z) (videoDuration : option Q)
| Fails (ms : N)
| Stalls
| Throws (reason : string).

(** Elements as they are before anything has loaded. *)
Definition blankImage : MediaHandle := HTMLImageElement 0 0.
Definition blankVideo : MediaHandle := HTMLVideoElement 0 0 0 None.

Definition imageTimeout : N := 3000.
Definition videoTimeout : N := 5000.

(** [new Image()] or [document.createElement('video')]. *)
Inductive Tag := ImageTag | VideoTag.

(** An element the loop has created.  The map holds the element itself,
    not a copy of its state: it goes on loading after the loop has stopped
    waiting for it.  [created] is when its [src] was set, counted from the
    start of the preload, and [loading] what the browser does with it from
    then on. *)
Record Element := {
  tag : Tag;
  created : N;
  loading : LoadOutcome
}.

(** What the element shows to whoever reads it [now] milliseconds after
    the start of the preload. *)
Definition stateAt (now : N) (mediaElement : Element) : MediaHandle :=
  match tag mediaElement, loading mediaElement with
  | ImageTag, Loads ms w h _ _ =>
      if (created mediaElement + ms <=? now)%N
      then HTMLImageElement w h else blankImage
  | ImageTag, _ => blankImage
  | VideoTag, Loads ms w h readyState videoDuration =>
      if (created mediaElement + ms <=? now)%N
      then HTMLVideoElement w h (readyState now) videoDuration
      else blankVideo
  | VideoTag, _ => blankVideo
  end.

(** The map of elements as the renderer finds it at a given time. *)
Definition handlesAt (now : N)
    (mediaElements : gmap string (option Element))
  : gmap string (option MediaHandle) :=
  (fun mediaElement => option_map (stateAt now) mediaElement)
    <$> mediaElements.

(** The awaited [new Promise<void>] of the image branch together with the
    element it leaves in [mediaElement]: load, error and time-out all call
    [resolve], and the element is the same in the three cases.  [now] is the
    time at which the branch is entered. *)
Definition loadImage (now : N) (o : LoadOutcome) : Promise (option Element) :=
  let mediaElement := {| tag := ImageTag; created := now; loading := o |} in
  match o with
  | Loads ms _ _ _ _ =>
      if (ms <=? imageTimeout)%N
      then sleep ms ;;; resolve (Some mediaElement)
      else sleep imageTimeout ;;; resolve (Some mediaElement)
  | Fails ms => sleep (N.min ms imageTimeout) ;;; resolve (Some mediaElement)
  | Stalls => sleep imageTimeout ;;; resolve (Some mediaElement)
  | Throws reason => reject reason
  end.

Definition loadVideo (now : N) (o : LoadOutcome) : Promise (option Element) :=
  let mediaElement := {| tag := VideoTag; created := now; loading := o |} in
  match o with
  | Loads ms _ _ _ _ =>
      if (ms <=? videoTimeout)%N
      then sleep ms ;;; resolve (Some mediaElement)
      else sleep videoTimeout ;;; resolve (Some mediaElement)
  | Fails ms => sleep (N.min ms videoTimeout) ;;; resolve (Some mediaElement)
  | Stalls => sleep videoTimeout ;;; resolve (Some mediaElement)
  | Throws reason => reject reason
  end.

Section WithBrowser.
Variable browser : MediaItem -> LoadOutcome.

(** The [try] block of the loop body up to [mediaElements.set]. *)
Definition loadElement (now : N) (mediaItem : MediaItem)
  : Promise (option Element) :=
  match item_type mediaItem with
  | MediaImage => loadImage now (browser mediaItem)
  | MediaVideo => loadVideo now (browser mediaItem)
  | MediaAudio => resolve None
  end.

(** One iteration of [for (const mediaItem of mediaItems)], entered at
    [now]. *)
Definition preloadOne (now : N)
    (mediaElements : gmap string (option Element))
    (mediaItem : MediaItem) : Promise (gmap string (option Element)) :=
  try_catch
    (mediaElement <- loadElement now mediaItem ;;
     resolve (<[item_id mediaItem := mediaElement]> mediaElements))
    (fun error => resolve (<[item_id mediaItem := None]> mediaElements)).

(** The loop from [now] on: the next iteration is entered when this one
    has settled. *)
Fixpoint preloadLoop (mediaItems : list MediaItem) (now : N)
    (mediaElements : gmap string (option Element))
  : Promise (gmap string (option Element)) :=
  match mediaItems with
  | [] => resolve mediaElements
  | mediaItem :: rest =>
      let iteration := preloadOne now mediaElements mediaItem in
      m <- iteration ;; preloadLoop rest (now + settledAt iteration)%N m
  end.

Definition preloadAllMediaElementsSafe (tracks : list TimelineTrack)
    (mediaItems : list MediaItem)
  : Promise (gmap string (option Element)) :=
  preloadLoop mediaItems 0%N ∅.


(** How long the loop waits for one item. *)
Definition waitOf (mediaItem : MediaItem) : N :=
  match item_type mediaItem, browser mediaItem with
  | MediaAudio, _ => 0%N
  | _, Throws _ => 0%N
  | MediaImage, Loads ms _ _ _ _ => N.min ms imageTimeout
  | MediaImage, Fails ms => N.min ms imageTimeout
  | MediaImage, Stalls => imageTimeout
  | MediaVideo, Loads ms _ _ _ _ => N.min ms videoTimeout
  | MediaVideo, Fails ms => N.min ms videoTimeout
  | MediaVideo, Stalls => videoTimeout
  end.

(** How long it waits for a list of items, one after the other. *)
Definition waited (mediaItems : list MediaItem) : N :=
  fold_right (fun item acc => (waitOf item + acc)%N) 0%N mediaItems.

(** The slot the loop stores for an item whose turn comes at [now]: the
    element created for it, whatever becomes of the load; null for an item
    that is neither image nor video, or whose element could not be
    created. *)
Definition slot (now : N) (mediaItem : MediaItem) : option Element :=
  match item_type mediaItem, browser mediaItem with
  | MediaAudio, _ => None
  | _, Throws _ => None
  | MediaImage, o => Some {| tag := ImageTag; created := now; loading := o |}
  | MediaVideo, o => Some {| tag := VideoTag; created := now; loading := o |}
  end.

(** The table the loop builds from [now] on, without the waiting. *)
Fixpoint slots (mediaItems : list MediaItem) (now : N)
    (m : gmap string (option Element)) : gmap string (option Element) :=
  match mediaItems with
  | [] => m
  | item :: rest =>
      slots rest (now + waitOf item)%N (<[item_id item := slot now item]> m)
  end.

End WithBrowser.
End Preloader.

(** ** Audio mixer *)

Module AudioMixer.

Inductive SourceType := AudioSourceType | VideoSourceType.

Record AudioSource := {
  source_type : SourceType;
  source_element : TimelineElement;
  source_mediaItem : MediaItem
}.

(** [item.url] is truthy. *)
Definition has_url (item : MediaItem) : bool :=
  match item_url item with
  | Some u => negb (String.eqb u "")
  | None => false
  end.

Definition is_audio_item (item : MediaItem) : bool :=
  match item_type item with MediaAudio => true | _ => false end.

Definition is_video_item (item : MediaItem) : bool :=
  match item_type item with MediaVideo => true | _ => false end.

(** Body of the inner loop of [findAudioSources]. *)
Definition visit_element (mediaItems : list MediaItem) (tr : TimelineTrack)
    (audioSources : list AudioSource) (e : TimelineElement)
  : list AudioSource :=
  match body e with
  | MediaBody mediaId =>
      let audioSources1 :=
        if TrackType_eqb (track_type tr) TrackAudio then
          match find_item mediaItems mediaId with
          | Some audioItem =>
              if is_audio_item audioItem && has_url audioItem
              then audioSources ++
                   [{| source_type := AudioSourceType; source_element := e;
                       source_mediaItem := audioItem |}]
              else audioSources
          | None => audioSources
          end
        else audioSources in
      if TrackType_eqb (track_type tr) TrackMedia then
        match find_item mediaItems mediaId with
        | Some mediaItem =>
            if is_video_item mediaItem && has_url mediaItem
            then audioSources1 ++
                 [{| source_type := VideoSourceType; source_element := e;
                     source_mediaItem := mediaItem |}]
            else audioSources1
        | None => audioSources1
        end
      else audioSources1
  | TextBody _ => audioSources
  end.

Definition findAudioSources (tracks : list TimelineTrack)
    (mediaItems : list MediaItem) : list AudioSource :=
  fold_left
    (fun audioSources tr =>
       fold_left (visit_element mediaItems tr) (elements tr) audioSources)
    tracks [].

(** The playback [connectAudioSourceSafe] schedules for a connected
    source: start after [startTime] seconds, from [trimStart], for
    [actualDuration] seconds. *)
Record Playback := {
  pb_source : AudioSource;
  pb_startTime : Q;
  pb_trimStart : Q;
  pb_actualDuration : Q
}.

Definition schedule (source : AudioSource) : Playback :=
  let e := source_element source in
  let startTime := num_or (Some (startTime e)) 0 in
  let duration := num_or (Some (duration e)) 5 in
  let trimStart := num_or (Some (trimStart e)) 0 in
  let trimEnd := num_or (Some (trimEnd e)) 0 in
  {| pb_source := source;
     pb_startTime := startTime;
     pb_trimStart := trimStart;
     pb_actualDuration := Qmax (1 # 10) (duration - trimStart - trimEnd) |}.

(** The stream of the destination node: what reaches it through the gain
    node, at once or later. *)
Record MediaStream := {
  gain : Q;
  playbacks : list Playback
}.

(** The Web Audio facilities the mixer relies on.  [connect_ok]: the
    metadata of the source arrives within the 5 seconds the loop waits and
    the source is connected, so [connectAudioSourceSafe] resolves.
    [connect_late] (read where [connect_ok] is false): the metadata arrives
    after the time-out has rejected the promise, and the handler, which is
    still installed, connects and schedules the source then. *)
Record AudioBrowser := {
  audioContext_ok : bool;
  audioGraph_ok : bool;
  connect_ok : AudioSource -> bool;
  connect_late : AudioSource -> bool
}.

(** The [for (const source of audioSources)] loop: the number of sources
    whose promise resolved, and the playbacks that are, sooner or later,
    connected to the gain node, in the order of the sources.  A source that
    fails to connect is skipped; one that connects too late is not counted
    but plays all the same. *)
Definition connectAll (b : AudioBrowser) (audioSources : list AudioSource)
  : nat * list Playback :=
  fold_left
    (fun st source =>
       if connect_ok b source
       then (S (fst st), snd st ++ [schedule source])
       else if connect_late b source
       then (fst st, snd st ++ [schedule source])
       else st)
    audioSources (O, []).

Definition createSafeAudioStream (b : AudioBrowser)
    (tracks : list TimelineTrack) (mediaItems : list MediaItem)
    (duration : Q) : option MediaStream :=
  let audioSources := findAudioSources tracks mediaItems in
  if Nat.eqb (List.length audioSources) 0 then None
  else if negb (audioGraph_ok b) then None
  else
    let '(connectedSources, playbacks) := connectAll b audioSources in
    if Nat.eqb connectedSources 0 then None
    else Some {| gain := 8 # 10; playbacks := playbacks |}.

(** The audio block of [createRealVideoFile]: [hasAudio] and the stream. *)
Definition tryAudio (b : AudioBrowser) (tracks : list TimelineTrack)
    (mediaItems : list MediaItem) (duration : Q)
  : bool * option MediaStream :=
  if audioContext_ok b then
    match createSafeAudioStream b tracks mediaItems duration with
    | Some mixedAudioStream => (true, Some mixedAudioStream)
    | None => (false, None)
    end
  else (false, None).

Record RecorderOptions := {
  mimeType : string;
  videoBitsPerSecond : Q;
  audioBitsPerSecond : option Q
}.

Definition recorderOptions (hasAudio : bool) (settings : ProjectSettings)
  : RecorderOptions :=
  {| mimeType := if hasAudio then "video/webm;codecs=vp8,opus"
                 else "video/webm;codecs=vp8";
     videoBitsPerSecond := customBitrate settings * 1000;
     audioBitsPerSecond := if hasAudio then Some 128000 else None |}.

(** The absence of any audio-bearing clip, as the specification words it. *)
Definition no_audio_source (tracks : list TimelineTrack)
    (mediaItems : list MediaItem) : Prop :=
  forall tr e mediaId item,
    In tr tracks -> In e (elements tr) ->
    body e = MediaBody mediaId ->
    find_item mediaItems mediaId = Some item ->
    (track_type tr = TrackAudio -> item_type item <> MediaAudio) /\
    (track_type tr = TrackMedia -> item_type item <> MediaVideo).

End AudioMixer.

(** ** Render loop

    [renderVideoContentSafe] after the preload: a chain of [setTimeout]
    callbacks and a watchdog timer.  Timers fire at their due time, the
    earliest first and in registration order when two are due together;
    a callback takes no time. *)

Module RenderLoop.
Import Renderer.

Inductive Callback := RenderFrameCallback | RenderTimeoutCallback.

Record Timer := {
  timer_id : nat;
  fire_at : N;
  callback : Callback
}.

Record State := {
  clock : N;
  timers : list Timer;
  next_id : nat;
  currentFrame : nat;
  renderTimeout : option nat;
  settled : option (N * Async.Settled unit);
  rendered : list (nat * Q);
  ctx : Context2D
}.

Definition maxFrames : Z := 600.
Definition renderTimeoutDuration : N := 20000.
Definition frameDelay : N := 50.

Definition totalFrames (duration : Q) (settings : ProjectSettings) : Z :=
  Z.min (Qceiling (duration * fps settings)) maxFrames.

Definition frameTime (settings : ProjectSettings) : Q := 1 / fps settings.

(** [setTimeout(cb, ms)]; the new timer's id is the old [next_id]. *)
Definition setTimeout (cb : Callback) (ms : N) (s : State) : State :=
  {| clock := clock s;
     timers := timers s ++
               [{| timer_id := next_id s; fire_at := (clock s + ms)%N;
                   callback := cb |}];
     next_id := S (next_id s);
     currentFrame := currentFrame s;
     renderTimeout := renderTimeout s;
     settled := settled s;
     rendered := rendered s;
     ctx := ctx s |}.

Definition clearTimeout (id : nat) (s : State) : State :=
  {| clock := clock s;
     timers := List.filter (fun tm => negb (Nat.eqb (timer_id tm) id))
                           (timers s);
     next_id := next_id s;
     currentFrame := currentFrame s;
     renderTimeout := renderTimeout s;
     settled := settled s;
     rendered := rendered s;
     ctx := ctx s |}.

(** [resolve()] or [reject(...)]: only the first call settles the promise. *)
Definition settle (r : Async.Settled unit) (s : State) : State :=
  {| clock := clock s;
     timers := timers s;
     next_id := next_id s;
     currentFrame := currentFrame s;
     renderTimeout := renderTimeout s;
     settled := match settled s with
                | Some r0 => Some r0
                | None => Some (clock s, r)
                end;
     rendered := rendered s;
     ctx := ctx s |}.

Section Loop.
Variable totalFrames : Z.
Variable frameTime : Q.
(** The frame renderer: what drawing the frame for a time adds to the
    canvas, when it is run with the clock at a given millisecond (the
    elements it reads may have changed meanwhile). *)
Variable draw : N -> Q -> Context2D -> Context2D.

(** The [try] block of the [renderFrame] closure up to [currentFrame++]. *)
Definition drawCurrent (s : State) : State :=
  let currentTime := inject_Z (Z.of_nat (currentFrame s)) * frameTime in
  {| clock := clock s;
     timers := timers s;
     next_id := next_id s;
     currentFrame := S (currentFrame s);
     renderTimeout := renderTimeout s;
     settled := settled s;
     rendered := rendered s ++ [(currentFrame s, currentTime)];
     ctx := draw (clock s) currentTime (ctx s) |}.

Definition renderFrame (s : State) : State :=
  let s1 := drawCurrent s in
  if (totalFrames <=? Z.of_nat (currentFrame s1))%Z then
    let s2 :=
      match renderTimeout s1 with
      | Some id => clearTimeout id s1
      | None => s1
      end in
    settle (Async.Fulfilled tt) s2
  else setTimeout RenderFrameCallback frameDelay s1.

Definition onRenderTimeout (s : State) : State :=
  settle (Async.Rejected "Video rendering timed out") s.

(** The timer the event loop runs next. *)
Fixpoint earliest (l : list Timer) : option Timer :=
  match l with
  | [] => None
  | tm :: l' =>
      match earliest l' with
      | None => Some tm
      | Some u => if (fire_at tm <=? fire_at u)%N then Some tm else Some u
      end
  end.

Definition fire (tm : Timer) (s : State) : State :=
  let s1 :=
    {| clock := N.max (clock s) (fire_at tm);
       timers := List.filter
                   (fun u => negb (Nat.eqb (timer_id u) (timer_id tm)))
                   (timers s);
       next_id := next_id s;
       currentFrame := currentFrame s;
       renderTimeout := renderTimeout s;
       settled := settled s;
       rendered := rendered s;
       ctx := ctx s |} in
  match callback tm with
  | RenderFrameCallback => renderFrame s1
  | RenderTimeoutCallback => onRenderTimeout s1
  end.

Definition step (s : State) : option State :=
  match earliest (timers s) with
  | Some tm => Some (fire tm s)
  | None => None
  end.

Fixpoint run (fuel : nat) (s : State) : State :=
  match fuel with
  | O => s
  | S fuel' =>
      match step s with
      | Some s' => run fuel' s'
      | None => s
      end
  end.

(** The executor of the returned promise: arm the watchdog, then call
    [renderFrame] once synchronously. *)
Definition start (ctx0 : Context2D) : State :=
  let s0 :=
    {| clock := 0%N; timers := []; next_id := O; currentFrame := O;
       renderTimeout := None; settled := None; rendered := [];
       ctx := ctx0 |} in
  let s1 := setTimeout RenderTimeoutCallback renderTimeoutDuration s0 in
  let s2 :=
    {| clock := clock s1; timers := timers s1; next_id := next_id s1;
       currentFrame := currentFrame s1;
       renderTimeout := Some (next_id s0);
       settled := settled s1; rendered := rendered s1; ctx := ctx s1 |} in
  renderFrame s2.

(** Frames [0 .. n-1] with their timestamps. *)
Definition frames (n : nat) : list (nat * Q) :=
  map (fun i => (i, inject_Z (Z.of_nat i) * frameTime)) (seq 0 n).

(** *** States of the loop between two callbacks *)

(** The number of frames the loop renders: the first one is drawn before
    the counter is compared with [totalFrames]. *)
Definition frameGoal : nat := Z.to_nat (Z.max 1 totalFrames).

Definition is_frame_timer (tm : Timer) : Prop :=
  callback tm = RenderFrameCallback /\ timer_id tm <> O.

Definition is_watchdog (tm : Timer) : Prop :=
  callback tm = RenderTimeoutCallback /\ timer_id tm = O.

(** The timers left while a frame callback runs. *)
Inductive idle : bool -> list Timer -> Prop :=
| idle_watchdog W : is_watchdog W -> idle true [W]
| idle_none : idle false [].

(** The timers pending between two frames. *)
Inductive pending : bool -> list Timer -> Prop :=
| pending_both W F :
    is_watchdog W -> is_frame_timer F -> pending true [W; F]
| pending_frame F : is_frame_timer F -> pending false [F].

Record drawn (k : nat) (s : State) : Prop := {
  drawn_frame : currentFrame s = k;
  drawn_rendered : rendered s = frames k;
  drawn_timeout : renderTimeout s = Some O;
  drawn_next : (0 < next_id s)%nat
}.

Definition running (k : nat) (wd : bool) (s : State) : Prop :=
  (k < frameGoal)%nat /\ drawn k s /\ pending wd (timers s).

Definition finished (s : State) : Prop :=
  drawn frameGoal s /\ timers s = [].

End Loop.

(** The loop of [renderVideoContentSafe] run until no timer is pending
    (at most 600 frame callbacks and one watchdog callback can fire). *)
Definition renderLoop (duration : Q) (settings : ProjectSettings)
    (draw : N -> Q -> Context2D -> Context2D) (ctx0 : Context2D) : State :=
  run (totalFrames duration settings) (frameTime settings) draw 601
      (start (totalFrames duration settings) (frameTime settings) draw ctx0).

(** The frame renderer the loop is run with; [observe] gives the preloaded
    elements as they are when the clock of the loop shows a given time. *)
Definition frameRenderer (drawImage_ok : MediaHandle -> bool)
    (canvas : Canvas) (backgroundColor : option string)
    (tracks : list TimelineTrack) (mediaItems : list MediaItem)
    (observe : N -> gmap string (option MediaHandle))
  : N -> Q -> Context2D -> Context2D :=
  fun clock currentTime ctx =>
    drawFrame drawImage_ok ctx canvas backgroundColor currentTime tracks
              mediaItems (observe clock).

(** [renderVideoContentSafe]: preload, then the loop; the promise settles
    as the loop's [resolve] or [reject] says, that long after the preload.
    Each frame reads the preloaded elements as they are when it is drawn. *)
Definition renderVideoContentSafe
    (browser : MediaItem -> Preloader.LoadOutcome)
    (drawImage_ok : MediaHandle -> bool) (ctx0 : Context2D)
    (canvas : Canvas) (duration : Q) (settings : ProjectSettings)
    (tracks : list TimelineTrack) (mediaItems : list MediaItem)
    (backgroundColor : option string) : Async.Promise unit :=
  let preload :=
    Preloader.preloadAllMediaElementsSafe browser tracks mediaItems in
  mediaElements <- preload ;;
  Async.mkPromise []
    (settled
       (renderLoop duration settings
          (frameRenderer drawImage_ok canvas backgroundColor tracks
             mediaItems
             (fun clock =>
                Preloader.handlesAt (Async.settledAt preload + clock)%N
                                    mediaElements))
          ctx0)).

(** The number of frames the specification asks for. *)
Definition spec_frameCount (duration : Q) (settings : ProjectSettings) : Z :=
  Z.min (Qceiling (duration * fps settings)) 600.

End RenderLoop.

(** ** Export orchestrator *)

Module ExportOptions.
Record t := {
  projectName : string;
  duration : Q;
  settings : ProjectSettings;
  tracks : list TimelineTrack;
  mediaItems : list MediaItem
}.
End ExportOptions.

Module Orchestrator.
Import Async.

(** [/[^a-zA-Z0-9]/] on one character. *)
Definition is_alnum (c : Ascii.ascii) : bool :=
  let n := Ascii.nat_of_ascii c in
  (Nat.leb 48 n && Nat.leb n 57) ||
  (Nat.leb 65 n && Nat.leb n 90) ||
  (Nat.leb 97 n && Nat.leb n 122).

(** [projectName.replace(/[^a-zA-Z0-9]/g, '_')]. *)
Fixpoint sanitize (s : string) : string :=
  match s with
  | EmptyString => EmptyString
  | String c s' =>
      String (if is_alnum c then c else "_"%char) (sanitize s')
  end.

(** How the browser-facing stages of an export behave.  The primary
    attempt of [createRealVideoFile] (capture stream, audio, recorder, render
    loop, stop) and [renderSingleFrameSafe] are given by what they do as
    promises; the other fields say whether a DOM call succeeds. *)
Record Browser := {
  canvasContext_ok : bool;
  primaryExport : Promise unit;
  renderSingleFrameSafe : Promise unit;
  toBlob_ok : bool;
  anchorDownload_ok : bool
}.

Definition is_media_item_type (mediaItems : list MediaItem)
    (keep : MediaType -> bool) (e : TimelineElement) : bool :=
  match body e with
  | MediaBody mediaId =>
      match find_item mediaItems mediaId with
      | Some item => keep (item_type item)
      | None => false
      end
  | TextBody _ => false
  end.

Definition collectVideoElements (tracks : list TimelineTrack)
    (mediaItems : list MediaItem) : list TimelineElement :=
  List.filter
    (is_media_item_type mediaItems
       (fun ty => match ty with MediaVideo | MediaImage => true
                           | MediaAudio => false end))
    (List.filter is_media
       (flat_map elements
          (List.filter (fun tr => TrackType_eqb (track_type tr) TrackVideo)
                       tracks))).

Definition collectAudioElements (tracks : list TimelineTrack)
    (mediaItems : list MediaItem) : list TimelineElement :=
  List.filter
    (is_media_item_type mediaItems
       (fun ty => match ty with MediaAudio => true | _ => false end))
    (List.filter is_media
       (flat_map elements
          (List.filter (fun tr => TrackType_eqb (track_type tr) TrackAudio)
                       tracks))).

Definition collectTextElements (tracks : list TimelineTrack)
  : list TimelineElement :=
  List.filter is_text (flat_map elements tracks).

Definition progressSteps : list (string * N) :=
  [("Analyzing timeline content...", 500%N);
   ("Processing video tracks...", 1000%N);
   ("Rendering video frames...", 1200%N);
   ("Encoding video...", 800%N);
   ("Finalizing export...", 400%N)].

Fixpoint showProgress (steps : list (string * N)) : Promise unit :=
  match steps with
  | [] => resolve tt
  | (message, ms) :: rest =>
      emit (Toast Info message) ;;; sleep ms ;;; showProgress rest
  end.

Definition simulateProgressUpdates : Promise unit :=
  showProgress progressSteps.

(** The delays of [progressSteps] add up to 3.9 seconds. *)
Definition progressTime : N := 3900.

(** A callback handed to the browser: what it does happens, but an
    exception in it reaches nobody. *)
Definition detached {A} (p : Promise A) : Promise unit :=
  mkPromise (effects p) (Some (0%N, Fulfilled tt)).

Section WithBrowser.
Variable b : Browser.

(** The anchor-click sequence shared by every tier. *)
Definition triggerDownload (filename : string) (payload : Payload)
  : Promise unit :=
  if anchorDownload_ok b then emit (Download filename payload)
  else reject "download failed".

Definition downloadVideoFile (projectName : string) (payload : Payload)
    (extension : string) : Promise unit :=
  triggerDownload
    (String.append (sanitize projectName) (String.append "." extension))
    payload.

(** The secondary attempt of [createRealVideoFile]: one still frame,
    handed to [canvas.toBlob] for download as an image. *)
Definition secondaryExport (projectName : string) : Promise unit :=
  renderSingleFrameSafe b ;;;
  detached
    (if toBlob_ok b then downloadVideoFile projectName Png "png"
     else resolve tt).

Definition createRealVideoFile (projectName : string) (duration : Q)
    (settings : ProjectSettings)
    (videoElements audioElements textElements : list TimelineElement)
  : Promise unit :=
  try_catch
    (if negb (canvasContext_ok b) then reject "Canvas not available"
     else
       try_catch (primaryExport b)
         (fun primaryError =>
            try_catch (secondaryExport projectName)
                      (fun secondaryError => reject secondaryError)))
    (fun error => reject error).

Definition createEmergencyFallback (projectName : string) (duration : Q)
    (settings : ProjectSettings) : Promise unit :=
  triggerDownload
    (String.append (sanitize projectName) "_export_failed.txt")
    (FailureReport projectName duration settings).

Definition exportTimeout : N := 15000.

(** The body of the [try] block of [exportVideo]. *)
Definition tryExport (options : ExportOptions.t) : Promise unit :=
  let projectName := ExportOptions.projectName options in
  let duration := ExportOptions.duration options in
  let settings := ExportOptions.settings options in
  let tracks := ExportOptions.tracks options in
  let mediaItems := ExportOptions.mediaItems options in
  emit (Toast Info "Processing video export...") ;;;
  simulateProgressUpdates ;;;
  let videoElements := collectVideoElements tracks mediaItems in
  let audioElements := collectAudioElements tracks mediaItems in
  let textElements := collectTextElements tracks in
  let exportPromise :=
    createRealVideoFile projectName duration settings
                        videoElements audioElements textElements in
  let timeoutPromise :=
    timeout exportTimeout "Export timeout after 15 seconds" in
  race exportPromise timeoutPromise ;;;
  emit (Toast Success "Video exported successfully!").

(** The body of its [catch] block. *)
Definition catchExport (options : ExportOptions.t) (error : string)
  : Promise unit :=
  let projectName := ExportOptions.projectName options in
  let duration := ExportOptions.duration options in
  let settings := ExportOptions.settings options in
  emit (Toast Warning
          "Video export encountered issues, creating backup export...") ;;;
  createEmergencyFallback projectName duration settings ;;;
  emit (Toast Success "Backup export completed successfully!").

Definition exportVideo (options : ExportOptions.t) : Promise unit :=
  try_catch (tryExport options) (catchExport options).

(** The full-render tier as [exportVideo] starts it. *)
Definition fullRenderTier (options : ExportOptions.t) : Promise unit :=
  createRealVideoFile
    (ExportOptions.projectName options) (ExportOptions.duration options)
    (ExportOptions.settings options)
    (collectVideoElements (ExportOptions.tracks options)
                          (ExportOptions.mediaItems options))
    (collectAudioElements (ExportOptions.tracks options)
                          (ExportOptions.mediaItems options))
    (collectTextElements (ExportOptions.tracks options)).

Definition emergencyTier (options : ExportOptions.t) : Promise unit :=
  createEmergencyFallback
    (ExportOptions.projectName options) (ExportOptions.duration options)
    (ExportOptions.settings options).

(** The race of the full-render tier against the 15-second timer. *)
Definition exportRace (options : ExportOptions.t) : Promise unit :=
  race (fullRenderTier options)
       (timeout exportTimeout "Export timeout after 15 seconds").

(** The full-render tier throws. *)
Definition tier_throws (options : ExportOptions.t) : Prop :=
  rejected (fullRenderTier options).

(** The 15-second timer fires before the tier has settled: the tier
    settles no earlier than the timer is due, or never. *)
Definition timeout_fires (options : ExportOptions.t) : Prop :=
  match outcome (fullRenderTier options) with
  | Some (t, _) => (exportTimeout <= t)%N
  | None => True
  end.

(** The file the emergency tier delivers. *)
Definition emergencyReport (options : ExportOptions.t) : Effect :=
  Download (String.append (sanitize (ExportOptions.projectName options))
                          "_export_failed.txt")
           (FailureReport (ExportOptions.projectName options)
                          (ExportOptions.duration options)
                          (ExportOptions.settings options)).

End WithBrowser.
End Orchestrator.

(** ** Elements that can be drawn *)

Module Drawable.
Import Timeline.

(** The test [renderMediaElementSafe] makes before it draws anything: a
    media element with a real item needs a non-null preloaded element. *)
Definition has_handle (mediaElements : gmap string (option MediaHandle))
    (a : Active) : bool :=
  match body (element a), mediaItem a with
  | MediaBody mediaId, Some item =>
      String.eqb mediaId "test" ||
      match mediaElements !! item_id item with
      | Some (Some _) => true
      | _ => false
      end
  | _, _ => true
  end.

Definition is_text_active (a : Active) : bool := is_text (element a).
Definition is_media_active (a : Active) : bool := is_media (element a).

Definition is_background (op : Renderer.DrawOp) : bool :=
  match op with Renderer.FillBackground _ _ _ => true | _ => false end.

End Drawable.

(** ** Reading the log of a frame *)

Module DrawLog.
Import Timeline Renderer.

(** The element an operation paints: the placeholder panel, an image or a
    text; a background fill and a seek paint no element. *)
Definition op_element (op : DrawOp) : option TimelineElement :=
  match op with
  | DrawPlaceholder e _ _ => Some e
  | DrawImage e _ _ _ => Some e
  | DrawText e _ => Some e
  | FillBackground _ _ _ => None
  | SeekVideo _ _ => None
  end.

(** The elements painted, in the order of the log. *)
Fixpoint elementsPainted (ops : list DrawOp) : list TimelineElement :=
  match ops with
  | [] => []
  | op :: rest =>
      match op_element op with
      | Some e => e :: elementsPainted rest
      | None => elementsPainted rest
      end
  end.

(** Whether an active element gets painted at all: a text always; a media
    element without item, or with the id ["test"], as the placeholder;
    another media element when its preloaded element is there and
    [drawImage] accepts it. *)
Definition paints (drawImage_ok : MediaHandle -> bool)
    (mediaElements : gmap string (option MediaHandle)) (a : Active) : bool :=
  match body (element a), mediaItem a with
  | TextBody _, _ => true
  | MediaBody _, None => true
  | MediaBody mediaId, Some item =>
      String.eqb mediaId "test" ||
      match mediaElements !! item_id item with
      | Some (Some mediaElement) => drawImage_ok mediaElement
      | _ => false
      end
  end.

End DrawLog.

(** ** The longest a preload can take *)

Module PreloadBudget.

(** The wait the loop allows one item: the image or the video time-out,
    nothing for an item that is neither. *)
Definition waitLimit (mediaItem : MediaItem) : N :=
  match item_type mediaItem with
  | MediaImage => Preloader.imageTimeout
  | MediaVideo => Preloader.videoTimeout
  | MediaAudio => 0%N
  end.

Definition totalLimit (mediaItems : list MediaItem) : N :=
  fold_right (fun item acc => (waitLimit item + acc)%N) 0%N mediaItems.

Definition is_image_item (mediaItem : MediaItem) : bool :=
  match item_type mediaItem with MediaImage => true | _ => false end.

Definition is_video_item (mediaItem : MediaItem) : bool :=
  match item_type mediaItem with MediaVideo => true | _ => false end.

End PreloadBudget.

(** ** The render loop on the clock *)

Module LoopClock.
Import RenderLoop.

(** The time at which frame [i] is drawn: one [frameDelay] per frame
    before it. *)
Definition drawnAt (i : nat) : N := (frameDelay * N.of_nat i)%N.

Definition timedOut : Async.Settled unit :=
  Async.Rejected "Video rendering timed out".

(** How the promise of a loop of [n] frames ends: by [resolve()] when the
    last frame is drawn before the watchdog is due, by the watchdog
    otherwise. *)
Definition settlement (n : nat) : option (N * Async.Settled unit) :=
  if (drawnAt (n - 1) <? renderTimeoutDuration)%N
  then Some (drawnAt (n - 1), Async.Fulfilled tt)
  else Some (renderTimeoutDuration, timedOut).

(** The timers between two frames, with their due times. *)
Inductive due (k : nat) : bool -> list Timer -> Prop :=
| due_both W F :
    is_watchdog W -> fire_at W = renderTimeoutDuration ->
    is_frame_timer F -> fire_at F = drawnAt k ->
    due k true [W; F]
| due_frame F :
    is_frame_timer F -> fire_at F = drawnAt k ->
    due k false [F].

Section Clock.
Variable totalFrames : Z.

(** Between frame [k - 1] and frame [k]. *)
Record waiting (k : nat) (wd : bool) (s : State) : Prop := {
  waiting_more : (k < frameGoal totalFrames)%nat;
  waiting_frame : currentFrame s = k;
  waiting_timeout : renderTimeout s = Some O;
  waiting_next : (0 < next_id s)%nat;
  waiting_timers : due k wd (timers s);
  waiting_clock : (clock s <= drawnAt k)%N;
  waiting_armed :
    wd = true ->
    settled s = None /\ (clock s < renderTimeoutDuration)%N;
  waiting_fired :
    wd = false ->
    settled s = Some (renderTimeoutDuration, timedOut) /\
    (renderTimeoutDuration <= drawnAt k)%N
}.

(** After the last frame. *)
Definition settledAsDue (s : State) : Prop :=
  timers s = [] /\ settled s = settlement (frameGoal totalFrames).

Definition onSchedule (s : State) : Prop :=
  settledAsDue s \/ exists k wd, waiting k wd s.

End Clock.

(** The canvas is what drawing the frames rendered so far, in their order
    and each at its time, made of the initial one. *)
Definition painted
    (draw : N -> Q -> Renderer.Context2D -> Renderer.Context2D)
    (ctx0 : Renderer.Context2D) (s : State) : Prop :=
  ctx s = fold_left (fun c p => draw (drawnAt (fst p)) (snd p) c)
                    (rendered s) ctx0.

End LoopClock.

(** ** What an export delivers *)

Module Delivery.
Import Async.

(** The browser is never asked to save a file. *)
Definition no_download {A} (p : Promise A) : Prop :=
  forall t filename payload, ~ In (t, Download filename payload) (effects p).

(** The characters a download name is made of. *)
Definition filename_char (c : Ascii.ascii) : Prop :=
  Orchestrator.is_alnum c = true \/ c = "_"%char.

(** When the race of [exportVideo] settles, counted from its start. *)
Definition raceTime (tier : Promise unit) : N :=
  match outcome tier with
  | Some (t, _) => N.min t Orchestrator.exportTimeout
  | None => Orchestrator.exportTimeout
  end.

(** The messages every export starts with, and when they appear. *)
Definition progressSchedule : list (N * Effect) :=
  [(0%N, Toast Info "Processing video export...");
   (0%N, Toast Info "Analyzing timeline content...");
   (500%N, Toast Info "Processing video tracks...");
   (1500%N, Toast Info "Rendering video frames...");
   (2700%N, Toast Info "Encoding video...");
   (3500%N, Toast Info "Finalizing export...")].

End Delivery.

(** ** The export button of the editor header ([EditorHeader]) *)

Module EditorHeader.
Import Async.

(** The active project as the header reads it: [handleExport] uses its
    [name] and nothing else ([@/stores/project-store] is not among the
    sources). *)
Record Project := { project_name : string }.

(** What the user sees of [handleExport]: the toasts of the header, the
    state of the button, and what the export service does meanwhile. *)
Inductive Event :=
| HeaderInfo (message : string)
| HeaderSuccess (message : string)
| HeaderError (message : string)
| SetIsExporting (value : bool)
| Service (eff : Effect).

(** What the header does itself, as opposed to the service. *)
Definition is_own (ev : Event) : bool :=
  match ev with Service _ => false | _ => true end.

Definition qualityName (q : Quality) : string :=
  match q with
  | Q480p => "480p"
  | Q720p => "720p"
  | Q1080p => "1080p"
  | Q1440p => "1440p"
  | Q2160p => "2160p"
  end.

Section Header.
(** [exportVideo] of the service the header imports. *)
Variable exportVideo : ExportOptions.t -> Promise unit.
(** How a number is written in a template literal. *)
Variable show : Q -> string.

Definition settingsMessage (settings : ProjectSettings) : string :=
  String.append "Exporting with settings: "
    (String.append (show (fps settings))
       (String.append " FPS, "
          (String.append (qualityName (quality settings))
             (String.append " quality, "
                (String.append (show (customBitrate settings)) " kbps"))))).

Definition successMessage (project : Project) (settings : ProjectSettings)
  : string :=
  String.append "Video exported successfully! "
    (String.append (String (Ascii.ascii_of_nat 34) EmptyString)
       (String.append (project_name project)
          (String.append ".mp4"
             (String.append (String (Ascii.ascii_of_nat 34) EmptyString)
                (String.append " with "
                   (String.append (qualityName (quality settings))
                      (String.append " quality at "
                         (String.append (show (fps settings)) " FPS")))))))).

(** [handleExport]: the events it causes, with their times. *)
Definition handleExport (activeProject : option Project)
    (tracks : list TimelineTrack) (mediaItems : list MediaItem)
    (settings : ProjectSettings) (totalDuration : Q) : list (N * Event) :=
  match activeProject with
  | None => [(0%N, HeaderError "No active project to export")]
  | Some project =>
      if Nat.eqb (List.length tracks) 0 then
        [(0%N, HeaderError
                 "No content to export. Add media to your timeline first.")]
      else
        let p :=
          exportVideo
            {| ExportOptions.projectName := project_name project;
               ExportOptions.duration := totalDuration;
               ExportOptions.settings := settings;
               ExportOptions.tracks := tracks;
               ExportOptions.mediaItems := mediaItems |} in
        [(0%N, SetIsExporting true);
         (0%N, HeaderInfo "Starting video export...");
         (0%N, HeaderInfo (settingsMessage settings))]
        ++ map (fun te => (fst te, Service (snd te))) (effects p)
        ++ match outcome p with
           | Some (t, Fulfilled _) =>
               [(t, HeaderSuccess (successMessage project settings));
                (t, SetIsExporting false)]
           | Some (t, Rejected _) =>
               [(t, HeaderError "Export failed. Please try again.");
                (t, SetIsExporting false)]
           | None => []
           end
  end.

End Header.
End EditorHeader.

(** ** Numbers as text *)

Module NumberText.

(** [Math.trunc]: the integer part, towards zero. *)
Definition Qtrunc (q : Q) : Z :=
  if Qle_bool 0 q then Qfloor q else Qceiling q.

(** [q | 0]: the integer part, wrapped to 32 bits with a sign. *)
Definition toInt32 (q : Q) : Z :=
  ((Qtrunc q + 2 ^ 31) mod 2 ^ 32 - 2 ^ 31)%Z.

(** [a % b] on numbers: the remainder has the sign of [a]. *)
Definition Qrem (a b : Q) : Q := a - b * inject_Z (Qtrunc (a / b)).

(** The decimal digits of an integer, with its sign. *)
Definition decimal (z : Z) : string :=
  DecimalString.NilZero.string_of_int (Z.to_int z).

(** [String(z)] for an integer: its decimal digits below [10^21]; from
    there on JavaScript writes an exponent form, for which [exponent]
    stands. *)
Definition toString (exponent : Z -> string) (z : Z) : string :=
  if (Z.abs z <? 10 ^ 21)%Z then decimal z else exponent z.

(** [z.toString(16)] for an integer. *)
Definition toString16 (z : Z) : string :=
  if (z <? 0)%Z
  then String "-"%char
         (HexadecimalString.NilZero.string_of_uint
            (N.to_hex_uint (Z.to_N (- z))))
  else HexadecimalString.NilZero.string_of_uint (N.to_hex_uint (Z.to_N z)).

Fixpoint zeros (n : nat) : string :=
  match n with
  | O => EmptyString
  | S n' => String "0"%char (zeros n')
  end.

(** [s.padStart(n, "0")]. *)
Definition padStart0 (n : nat) (s : string) : string :=
  String.append (zeros (n - String.length s)) s.


(** A lower-case hexadecimal digit. *)
Definition is_hex (c : Ascii.ascii) : bool :=
  let n := Ascii.nat_of_ascii c in
  (Nat.leb 48 n && Nat.leb n 57) || (Nat.leb 97 n && Nat.leb n 102).


End NumberText.

(** ** [lib/utils.ts] *)

Module Utils.
Import NumberText.

Definition template : string := "xxxxxxxx-xxxx-4xxx-yxxx-xxxxxxxxxxxx".

(** The callback of [replace]: what one [x] or [y] becomes, [random] being
    what [Math.random()] returns for it. *)
Definition replacement (random : Q) (c : Ascii.ascii) : string :=
  let r := toInt32 (random * 16) in
  let v := if Ascii.eqb c "x" then r else Z.lor (Z.land r 3) 8 in
  toString16 v.

(** [s.replace(/[xy]/g, callback)]; the [i]-th call of the callback draws
    the [i]-th random number. *)
Fixpoint replace_xy (random : nat -> Q) (i : nat) (s : string) : string :=
  match s with
  | EmptyString => EmptyString
  | String c s' =>
      if Ascii.eqb c "x" || Ascii.eqb c "y"
      then String.append (replacement (random i) c)
                         (replace_xy random (S i) s')
      else String c (replace_xy random i s')
  end.

(** [generateId]: [randomUUID] is what [crypto.randomUUID()] returns where
    the browser has it. *)
Definition generateId (randomUUID : option string) (random : nat -> Q)
  : string :=
  match randomUUID with
  | Some id => id
  | None => replace_xy random 0 template
  end.

(** The character a version-4 UUID may have at position [i]. *)
Definition uuid_v4_char (i : nat) (c : Ascii.ascii) : bool :=
  if existsb (Nat.eqb i) [8; 13; 18; 23]%nat then Ascii.eqb c "-"
  else if Nat.eqb i 14 then Ascii.eqb c "4"
  else if Nat.eqb i 19
       then existsb (Ascii.eqb c) ["8"; "9"; "a"; "b"]%char
       else is_hex c.

Fixpoint uuid_v4_from (i : nat) (s : string) : bool :=
  match s with
  | EmptyString => true
  | String c s' => uuid_v4_char i c && uuid_v4_from (S i) s'
  end.

(** A version-4 UUID in its canonical lower-case form. *)
Definition is_uuid_v4 (s : string) : bool :=
  Nat.eqb (String.length s) 36 && uuid_v4_from 0 s.

End Utils.

(** ** The audio panel ([media-panel/views/audio.tsx]) *)

Module AudioView.
Import NumberText.

Section Format.
(** The exponent form of a number from [10^21] on. *)
Variable exponent : Z -> string.

Definition formatDuration (seconds : Q) : string :=
  let minutes := Qfloor (seconds / 60) in
  let remainingSeconds := Qfloor (Qrem seconds 60) in
  String.append (toString exponent minutes)
    (String.append ":" (padStart0 2 (toString exponent remainingSeconds))).

End Format.


End AudioView.

(** ** Audio extraction (the [AudioExtractor] button) *)

Module AudioExtractor.

(** [s.includes(sub)]. *)
Fixpoint includes (sub s : string) : bool :=
  String.prefix sub s ||
  match s with
  | EmptyString => false
  | String _ s' => includes sub s'
  end.

(** The text occurs somewhere in the string. *)
Definition mentions (s sub : string) : Prop :=
  exists before after,
    s = String.append before (String.append sub after).

(** [[^/.]] on one character. *)
Definition is_extension_char (c : Ascii.ascii) : bool :=
  negb (Ascii.eqb c "/") && negb (Ascii.eqb c ".").

(** [[^/.]+$]: the rest of the string, not empty, has such characters
    only. *)
Fixpoint is_extension (s : string) : bool :=
  match s with
  | EmptyString => false
  | String c EmptyString => is_extension_char c
  | String c s' => is_extension_char c && is_extension s'
  end.

(** [s.replace(/\.[^/.]+$/, "")]: the first place the pattern matches at
    is cut off. *)
Fixpoint stripExtension (s : string) : string :=
  match s with
  | EmptyString => EmptyString
  | String c s' =>
      if Ascii.eqb c "." && is_extension s' then EmptyString
      else String c (stripExtension s')
  end.

(** [audioMimeType] and [audioExtension] for the type of the video file. *)
Definition audioFormat (videoType : string) : string * string :=
  if includes "webm" videoType then ("audio/webm", "webm")
  else if includes "ogg" videoType then ("audio/ogg", "ogg")
  else ("audio/mp4", "m4a").

Definition audioFileName (videoName videoType : string) : string :=
  String.append (stripExtension videoName)
                (String.append "." (snd (audioFormat videoType))).

Definition fallbackAudioFileName (videoName : string) : string :=
  String.append (stripExtension videoName) "_audio.mp4".

End AudioExtractor.

(** ** The settings store and the adjustment panel *)

Module SettingsStore.

Definition defaultSettings : ProjectSettings :=
  {| fps := 30; quality := Q1080p; customBitrate := 5000;
     resolution := "1920x1080" |}.

Definition updateFps (v : Q) (s : ProjectSettings) : ProjectSettings :=
  {| fps := v; quality := quality s; customBitrate := customBitrate s;
     resolution := resolution s |}.

Definition updateQuality (v : Quality) (s : ProjectSettings)
  : ProjectSettings :=
  {| fps := fps s; quality := v; customBitrate := customBitrate s;
     resolution := resolution s |}.

Definition updateCustomBitrate (v : Q) (s : ProjectSettings)
  : ProjectSettings :=
  {| fps := fps s; quality := quality s; customBitrate := v;
     resolution := resolution s |}.

Definition updateResolution (v : string) (s : ProjectSettings)
  : ProjectSettings :=
  {| fps := fps s; quality := quality s; customBitrate := customBitrate s;
     resolution := v |}.

Definition resetSettings (s : ProjectSettings) : ProjectSettings :=
  defaultSettings.

End SettingsStore.

Module AdjustmentView.
Import SettingsStore.

Record QualityPreset := {
  preset_value : Quality;
  preset_label : string;
  preset_description : string;
  preset_bitrate : string;
  preset_resolution : string
}.

Definition QUALITY_PRESETS : list QualityPreset :=
  [ {| preset_value := Q480p; preset_label := "480p (SD)";
       preset_description := "Standard Definition";
       preset_bitrate := "1000 kbps"; preset_resolution := "854x480" |};
    {| preset_value := Q720p; preset_label := "720p (HD)";
       preset_description := "High Definition";
       preset_bitrate := "2500 kbps"; preset_resolution := "1280x720" |};
    {| preset_value := Q1080p; preset_label := "1080p (Full HD)";
       preset_description := "Full High Definition";
       preset_bitrate := "5000 kbps"; preset_resolution := "1920x1080" |};
    {| preset_value := Q1440p; preset_label := "1440p (2K)";
       preset_description := "Quad HD";
       preset_bitrate := "10000 kbps"; preset_resolution := "2560x1440" |};
    {| preset_value := Q2160p; preset_label := "2160p (4K)";
       preset_description := "Ultra HD";
       preset_bitrate := "20000 kbps"; preset_resolution := "3840x2160" |} ].

Definition Quality_eqb (a b : Quality) : bool :=
  match a, b with
  | Q480p, Q480p | Q720p, Q720p | Q1080p, Q1080p
  | Q1440p, Q1440p | Q2160p, Q2160p => true
  | _, _ => false
  end.

(** [QUALITY_PRESETS.find(q => q.value === settings.quality)]. *)
Definition selectedQualityInfo (settings : ProjectSettings)
  : option QualityPreset :=
  List.find (fun q => Quality_eqb (preset_value q) (quality settings))
            QUALITY_PRESETS.

(** What the panel can do to the store. *)
Inductive Action :=
| ClickFps (v : Q)
| ClickQuality (preset : QualityPreset)
| SlideBitrate (v : Q).

Definition act (s : ProjectSettings) (a : Action) : ProjectSettings :=
  match a with
  | ClickFps v => updateFps v s
  | ClickQuality preset => updateQuality (preset_value preset) s
  | SlideBitrate v => updateCustomBitrate v s
  end.

(** The settings file of [handleExportSettings]. *)
Record ExportedSettings := {
  exported_fps : Q;
  exported_quality : Quality;
  exported_bitrate : Q;
  exported_resolution : option string
}.

Definition handleExportSettings (settings : ProjectSettings)
  : ExportedSettings :=
  {| exported_fps := fps settings;
     exported_quality := quality settings;
     exported_bitrate := customBitrate settings;
     exported_resolution :=
       option_map preset_resolution (selectedQualityInfo settings) |}.

(** [getResolutionString] of the export service. *)
Definition getResolutionString (q : Quality) : string :=
  match q with
  | Q480p => "854x480"
  | Q720p => "1280x720"
  | Q1080p => "1920x1080"
  | Q1440p => "2560x1440"
  | Q2160p => "3840x2160"
  end.

(** The size of a canvas with integer sides, written as width, "x" and
    height in decimal digits. *)
Definition canvasResolution (canvas : Canvas) : string :=
  String.append (NumberText.decimal (Qfloor (width canvas)))
    (String.append "x" (NumberText.decimal (Qfloor (height canvas)))).

End AdjustmentView.

(** ** The progress bar of [drawTimelineOverlay] *)

Module Overlay.

Record Rect := { rect_x : Q; rect_y : Q; rect_width : Q; rect_height : Q }.

Record t := {
  backdrop : Rect;
  bar : Rect;
  fill : Rect;
  label_x : Q;
  label_y : Q
}.

Definition drawTimelineOverlay (canvas : Canvas) (currentTime maxDuration : Q)
  : t :=
  let barHeight := 6 in
  let barY := height canvas - barHeight - 10 in
  let barWidth := width canvas * (8 # 10) in
  let barX := (width canvas - barWidth) / 2 in
  {| backdrop := {| rect_x := barX - 10; rect_y := barY - 10;
                    rect_width := barWidth + 20;
                    rect_height := barHeight + 20 |};
     bar := {| rect_x := barX; rect_y := barY; rect_width := barWidth;
               rect_height := barHeight |};
     fill := {| rect_x := barX; rect_y := barY;
                rect_width := (barWidth * currentTime) / maxDuration;
                rect_height := barHeight |};
     label_x := width canvas / 2;
     label_y := barY - 20 |}.

End Overlay.

(* ================================================================== *)
(** * Part II: sample timelines and browsers                           *)
(* ================================================================== *)

(** ** Common pieces *)

Definition video1280x720 : MediaHandle :=
  HTMLVideoElement 1280 720 4 (Some 5).

Definition plainElement (body : ElementBody) : TimelineElement :=
  {| el_name := "clip"; startTime := 0; duration := 5; trimStart := 0;
     trimEnd := 0; el_x := None; el_y := None; rotation := None;
     opacity := None; body := body |}.

(** ** Clips for the active window *)

Definition trimmedOutClip : TimelineElement :=
  {| el_name := "clip"; startTime := 0; duration := 5; trimStart := 3;
     trimEnd := 2; el_x := None; el_y := None; rotation := None;
     opacity := None; body := MediaBody "m1" |}.

Definition trimmedOutTrack : TimelineTrack :=
  {| track_type := TrackMedia; order := Some 0; elements := [trimmedOutClip] |}.

Definition liveClip : TimelineElement :=
  {| el_name := "clip"; startTime := 1; duration := 5; trimStart := 1;
     trimEnd := 1; el_x := None; el_y := None; rotation := None;
     opacity := None; body := MediaBody "m1" |}.

Definition liveTrack : TimelineTrack :=
  {| track_type := TrackMedia; order := Some 0;
     elements := [liveClip] |}.

(** ** A text element of size zero *)

Definition zeroSizeTitle : TextFields :=
  {| content := Some "Title"; fontSize := Some 0; fontFamily := None;
     fontWeight := None; fontStyle := None; color := None;
     backgroundColor := None; textAlign := None |}.

(** ** A text track under a media track *)

Definition title48 : TextFields :=
  {| content := Some "Title"; fontSize := Some 48; fontFamily := None;
     fontWeight := None; fontStyle := None; color := None;
     backgroundColor := None; textAlign := None |}.

Definition titleElement : TimelineElement := plainElement (TextBody title48).
Definition videoElement : TimelineElement := plainElement (MediaBody "v1").

Definition textUnderMediaTracks : list TimelineTrack :=
  [ {| track_type := TrackMedia; order := Some 1; elements := [videoElement] |};
    {| track_type := TrackText; order := Some 0; elements := [titleElement] |} ].

Definition videoItems : list MediaItem :=
  [ {| item_id := "v1"; item_type := MediaVideo;
       item_url := Some "blob:v1"; item_name := "clip.mp4";
       item_duration := Some 5 |} ].

Definition videoHandles : gmap string (option MediaHandle) :=
  <["v1" := Some video1280x720]> ∅.

(** ** A batch with a missing image *)




(** ** A timeline without sound *)

Definition photoItem : MediaItem :=
  {| item_id := "i1"; item_type := MediaImage; item_url := Some "blob:i1";
     item_name := "photo.png"; item_duration := None |}.

Definition silentTracks : list TimelineTrack :=
  [ {| track_type := TrackMedia; order := Some 0;
       elements := [plainElement (MediaBody "i1")] |};
    {| track_type := TrackText; order := Some 1;
       elements := [plainElement (TextBody title48)] |} ].

Definition audioBrowser : AudioMixer.AudioBrowser :=
  {| AudioMixer.audioContext_ok := true;
     AudioMixer.audioGraph_ok := true;
     AudioMixer.connect_ok := fun _ => true;
     AudioMixer.connect_late := fun _ => false |}.

Definition settings30 : ProjectSettings :=
  {| fps := 30; quality := Q1080p; customBitrate := 5000;
     resolution := "1920x1080" |}.

Definition settings60 : ProjectSettings :=
  {| fps := 60; quality := Q1080p; customBitrate := 5000;
     resolution := "1920x1080" |}.

(** ** Browsers in which the full render fails *)

(** A browser whose canvas has no 2D context: the full-render tier throws
    at once. *)
Definition noCanvasBrowser : Orchestrator.Browser :=
  {| Orchestrator.canvasContext_ok := false;
     Orchestrator.primaryExport := Async.resolve tt;
     Orchestrator.renderSingleFrameSafe := Async.resolve tt;
     Orchestrator.toBlob_ok := true;
     Orchestrator.anchorDownload_ok := true |}.

(** A browser in which the primary attempt never settles. *)
Definition stuckBrowser : Orchestrator.Browser :=
  {| Orchestrator.canvasContext_ok := true;
     Orchestrator.primaryExport := Async.mkPromise [] None;
     Orchestrator.renderSingleFrameSafe := Async.resolve tt;
     Orchestrator.toBlob_ok := true;
     Orchestrator.anchorDownload_ok := true |}.

Definition filmOptions : ExportOptions.t :=
  {| ExportOptions.projectName := "My Film";
     ExportOptions.duration := 5;
     ExportOptions.settings := settings30;
     ExportOptions.tracks := [];
     ExportOptions.mediaItems := [] |}.

(** A browser in which recording fails and the still frame cannot be
    turned into a file. *)
Definition noBlobBrowser : Orchestrator.Browser :=
  {| Orchestrator.canvasContext_ok := true;
     Orchestrator.primaryExport := Async.reject "MediaRecorder failed";
     Orchestrator.renderSingleFrameSafe := Async.resolve tt;
     Orchestrator.toBlob_ok := false;
     Orchestrator.anchorDownload_ok := true |}.

Definition liveOptions : ExportOptions.t :=
  {| ExportOptions.projectName := "My Film";
     ExportOptions.duration := 5;
     ExportOptions.settings := settings30;
     ExportOptions.tracks := [liveTrack];
     ExportOptions.mediaItems := [] |}.

(* ================================================================== *)
(** * Part III: properties                                             *)
(* ================================================================== *)

(** ** Numbers *)

Lemma Qltb_lt (a b : Q) : Qltb a b = true <-> a < b.
Proof.
  unfold Qltb. rewrite negb_true_iff.
  split; intros H.
  - apply Qnot_le_lt. intros Hle. apply Qle_bool_iff in Hle. congruence.
  - destruct (Qle_bool b a) eqn:E; [|reflexivity].
    apply Qle_bool_iff in E. exfalso. exact (Qlt_not_le _ _ H E).
Qed.

Lemma Qltb_ge (a b : Q) : Qltb a b = false <-> b <= a.
Proof.
  unfold Qltb. rewrite negb_false_iff. apply Qle_bool_iff.
Qed.

(** ** The active window (C1) *)

Section ActiveWindow.
Import Timeline.

Variable currentTime : Q.
Variable mediaItems : list MediaItem.

Lemma in_window_spec (e : TimelineElement) :
  in_window currentTime e = true <->
  startTime e <= currentTime /\
  currentTime < startTime e + (duration e - trimStart e - trimEnd e).
Proof.
  unfold in_window, elementStart, elementEnd.
  rewrite andb_true_iff, Qle_bool_iff, Qltb_lt. reflexivity.
Qed.

(** The two nested [forEach] loops with [push] compute a filter. *)
Lemma visit_track_filter (tr : TimelineTrack) (acc : list Active) :
  visit_track currentTime mediaItems acc tr =
  acc ++ map (entry mediaItems tr)
             (List.filter (in_window currentTime) (elements tr)).
Proof.
  unfold visit_track. generalize (elements tr) as es.
  intros es. revert acc.
  induction es as [|e es IH]; intros acc; simpl.
  - now rewrite app_nil_r.
  - rewrite IH. unfold visit_element.
    destruct (in_window currentTime e); simpl.
    + now rewrite <- app_assoc.
    + reflexivity.
Qed.

Lemma getActiveElementsAtTime_flat_map (tracks : list TimelineTrack) :
  getActiveElementsAtTime currentTime tracks mediaItems =
  flat_map (fun tr => map (entry mediaItems tr)
                        (List.filter (in_window currentTime) (elements tr)))
           tracks.
Proof.
  unfold getActiveElementsAtTime.
  rewrite <- (app_nil_l (flat_map _ tracks)).
  generalize (@nil Active) as acc.
  induction tracks as [|tr trs IH]; intros acc; simpl.
  - now rewrite app_nil_r.
  - rewrite IH, visit_track_filter. now rewrite <- app_assoc.
Qed.

End ActiveWindow.

Lemma active_iff_in_window (t : Q) (tracks : list TimelineTrack)
    (mediaItems : list MediaItem) (tr : TimelineTrack)
    (e : TimelineElement) :
  In tr tracks -> In e (elements tr) ->
  (In (Timeline.entry mediaItems tr e)
      (Timeline.getActiveElementsAtTime t tracks mediaItems)
   <-> Timeline.in_window t e = true).
Proof.
  intros Htr He.
  rewrite getActiveElementsAtTime_flat_map, in_flat_map.
  split.
  - intros (tr' & _ & Hin). apply in_map_iff in Hin.
    destruct Hin as (e' & Heq & Hin).
    apply filter_In in Hin. destruct Hin as [_ Hw].
    injection Heq as -> _. exact Hw.
  - intros Hw. exists tr. split; [exact Htr|].
    apply in_map. apply filter_In. split; assumption.
Qed.

(** C1 (as the code has it): an element of a track is among the active
    elements at time [t] exactly when
    [startTime <= t < startTime + (duration - trimStart - trimEnd)]; the
    end of the window is excluded, and the trimmed duration has no
    positive floor: an element trimmed down to nothing is never active. *)
Theorem active_window_exact (tracks : list TimelineTrack)
    (mediaItems : list MediaItem) (tr : TimelineTrack)
    (e : TimelineElement) :
  In tr tracks -> In e (elements tr) ->
  let active t :=
    In (Timeline.entry mediaItems tr e)
       (Timeline.getActiveElementsAtTime t tracks mediaItems) in
  let trimmed := duration e - trimStart e - trimEnd e in
  (forall t, active t <-> startTime e <= t /\ t < startTime e + trimmed) /\
  ~ active (startTime e + trimmed) /\
  (trimmed <= 0 -> forall t, ~ active t).
Proof.
  intros Htr He active trimmed.
  assert (Hiff : forall t,
            active t <-> startTime e <= t /\ t < startTime e + trimmed).
  { intros t. unfold active.
    rewrite (active_iff_in_window t tracks mediaItems tr e Htr He).
    apply in_window_spec. }
  split; [exact Hiff|]. split.
  - intros H. apply Hiff in H. destruct H as [_ H].
    exact (Qlt_irrefl _ H).
  - intros Hz t H. apply Hiff in H. destruct H as [H1 H2].
    apply (Qlt_irrefl t). eapply Qlt_le_trans; [exact H2|].
    eapply Qle_trans; [|exact H1].
    rewrite <- (Qplus_0_r (startTime e)) at 2.
    apply Qplus_le_r. exact Hz.
Qed.

Lemma active_window_exact_witness :
  let active t :=
    In (Timeline.entry [] liveTrack liveClip)
       (Timeline.getActiveElementsAtTime t [liveTrack] []) in
  let trimmed := duration liveClip - trimStart liveClip - trimEnd liveClip in
  (forall t, active t <->
             startTime liveClip <= t /\ t < startTime liveClip + trimmed) /\
  ~ active (startTime liveClip + trimmed) /\
  (trimmed <= 0 -> forall t, ~ active t).
Proof.
  apply (active_window_exact [liveTrack] [] liveTrack liveClip).
  - simpl. left. reflexivity.
  - simpl. left. reflexivity.
Defined.

(** C1 as stated fails: no positive [epsilon] makes the floored window of
    the specification agree with the code, because a clip trimmed down to
    nothing is never active. *)
Lemma active_window_epsilon_counterexample :
  ~ exists epsilon : Q,
      0 < epsilon /\
      forall (t : Q) (tracks : list TimelineTrack)
             (mediaItems : list MediaItem) (tr : TimelineTrack)
             (e : TimelineElement),
        In tr tracks -> In e (elements tr) ->
        (In (Timeline.entry mediaItems tr e)
            (Timeline.getActiveElementsAtTime t tracks mediaItems)
         <-> Timeline.spec_window epsilon t e).
Proof.
  intros (epsilon & Hpos & H).
  specialize (H 0 [trimmedOutTrack] [] trimmedOutTrack trimmedOutClip).
  destruct H as [_ H].
  - simpl. left. reflexivity.
  - simpl. left. reflexivity.
  - assert (Hin : In (Timeline.entry [] trimmedOutTrack trimmedOutClip)
                     (Timeline.getActiveElementsAtTime 0 [trimmedOutTrack] [])).
    { apply H. unfold Timeline.spec_window. simpl. split.
      - apply Qle_refl.
      - apply Qlt_le_trans with epsilon.
        + exact Hpos.
        + rewrite Qplus_0_l. apply Q.le_max_l. }
    vm_compute in Hin. exact Hin.
Qed.

(** ** Aspect-fit layout (C6, C10) *)

Lemma Qpos_neq0 (a : Q) : 0 < a -> ~ a == 0.
Proof. intros H E. rewrite E in H. exact (Qlt_irrefl 0 H). Qed.

Lemma Qeq_bool_pos (a : Q) : 0 < a -> Qeq_bool a 0 = false.
Proof.
  intros H. destruct (Qeq_bool a 0) eqn:E; [|reflexivity].
  apply Qeq_bool_eq in E. exfalso. exact (Qpos_neq0 a H E).
Qed.

Section CrossMultiply.
Variables W H w h : Q.
Hypothesis HH : 0 < H.
Hypothesis Hh : 0 < h.

Let HHh : 0 < H * h.
Proof. apply Qmult_lt_0_compat; assumption. Qed.

Let E1 : W / H * (H * h) == W * h.
Proof. field. apply Qpos_neq0; assumption. Qed.

Let E2 : w / h * (H * h) == w * H.
Proof. field. apply Qpos_neq0; assumption. Qed.

Lemma aspect_lt_cross : W / H < w / h <-> W * h < w * H.
Proof.
  rewrite <- E1, <- E2. split; intros A.
  - apply Qmult_lt_compat_r; assumption.
  - apply Qmult_lt_r in A; assumption.
Qed.

Lemma aspect_le_cross : w / h <= W / H <-> w * H <= W * h.
Proof.
  rewrite <- E1, <- E2. split; intros A.
  - apply Qmult_le_compat_r; [assumption|]. apply Qlt_le_weak; assumption.
  - apply Qmult_le_r in A; assumption.
Qed.

End CrossMultiply.

(** C6: for media of positive intrinsic size on a canvas of positive size,
    the render rectangle keeps the media's aspect ratio, fits inside the
    canvas and is centred on both axes. *)
Theorem aspect_fit_contain (element : TimelineElement)
    (mediaElement : MediaHandle) (canvas : Canvas) :
  0 < Layout.mediaWidth mediaElement ->
  0 < Layout.mediaHeight mediaElement ->
  0 < width canvas -> 0 < height canvas ->
  let r := Layout.calculateRenderInfo element mediaElement canvas in
  RenderInfo.width r / RenderInfo.height r
    == Layout.mediaWidth mediaElement / Layout.mediaHeight mediaElement /\
  RenderInfo.width r <= width canvas /\
  RenderInfo.height r <= height canvas /\
  RenderInfo.x r == (width canvas - RenderInfo.width r) / 2 /\
  RenderInfo.y r == (height canvas - RenderInfo.height r) / 2.
Proof.
  intros Hw Hh HW HH. unfold Layout.calculateRenderInfo.
  set (w := Layout.mediaWidth mediaElement) in *.
  set (h := Layout.mediaHeight mediaElement) in *.
  destruct canvas as [W H]. simpl in HW, HH. simpl width. simpl height.
  rewrite (Qeq_bool_pos w Hw), (Qeq_bool_pos h Hh). simpl orb. cbv iota.
  assert (Nw : ~ w == 0) by (apply Qpos_neq0; assumption).
  assert (Nh : ~ h == 0) by (apply Qpos_neq0; assumption).
  assert (NW : ~ W == 0) by (apply Qpos_neq0; assumption).
  assert (NH : ~ H == 0) by (apply Qpos_neq0; assumption).
  destruct (Qltb (W / H) (w / h)) eqn:E; cbv zeta; simpl.
  - apply Qltb_lt in E. apply (proj1 (aspect_lt_cross W H w h HH Hh)) in E.
    repeat split; try reflexivity.
    + field. repeat split; assumption.
    + apply Qle_refl.
    + assert (R : W / (w / h) == W * h / w) by (field; split; assumption).
      rewrite R.
      apply Qle_shift_div_r; [assumption|].
      apply Qlt_le_weak. rewrite (Qmult_comm H w). exact E.
  - apply Qltb_ge in E. apply (proj1 (aspect_le_cross W H w h HH Hh)) in E.
    repeat split; try reflexivity.
    + field. split; assumption.
    + assert (R : H * (w / h) == w * H / h) by (field; assumption).
      rewrite R. apply Qle_shift_div_r; assumption.
    + apply Qle_refl.
Qed.

Lemma aspect_fit_contain_witness :
  let r := Layout.calculateRenderInfo (plainElement (MediaBody "v1"))
             video1280x720 (Layout.qualityPresets Q480p) in
  RenderInfo.width r / RenderInfo.height r == 1280 / 720 /\
  RenderInfo.width r <= 854 /\
  RenderInfo.height r <= 480 /\
  RenderInfo.x r == (854 - RenderInfo.width r) / 2 /\
  RenderInfo.y r == (480 - RenderInfo.height r) / 2.
Proof.
  apply (aspect_fit_contain (plainElement (MediaBody "v1")) video1280x720
           (Layout.qualityPresets Q480p)); reflexivity.
Defined.

(** Every canvas the service creates has positive width and height. *)
Lemma qualityPresets_positive (q : Quality) :
  0 < width (Layout.qualityPresets q) /\ 0 < height (Layout.qualityPresets q).
Proof. destruct q; split; reflexivity. Qed.

(** C10: a handle whose intrinsic width or height is zero gets the whole
    canvas as its rectangle, whatever the canvas. *)
Theorem zero_dimension_fills_canvas (element : TimelineElement)
    (mediaElement : MediaHandle) (canvas : Canvas) :
  Layout.mediaWidth mediaElement == 0 \/
  Layout.mediaHeight mediaElement == 0 ->
  Layout.calculateRenderInfo element mediaElement canvas =
  {| RenderInfo.x := 0; RenderInfo.y := 0;
     RenderInfo.width := width canvas;
     RenderInfo.height := height canvas |}.
Proof.
  intros Hz. unfold Layout.calculateRenderInfo.
  assert (G : Qeq_bool (Layout.mediaWidth mediaElement) 0
              || Qeq_bool (Layout.mediaHeight mediaElement) 0 = true).
  { apply orb_true_iff.
    destruct Hz as [Hz|Hz]; [left|right]; apply Qeq_bool_iff; exact Hz. }
  rewrite G. reflexivity.
Qed.

Lemma zero_dimension_fills_canvas_witness :
  Layout.calculateRenderInfo (plainElement (MediaBody "v1"))
    (HTMLVideoElement 0 720 0 None) (Layout.qualityPresets Q1080p) =
  {| RenderInfo.x := 0; RenderInfo.y := 0;
     RenderInfo.width := 1920; RenderInfo.height := 1080 |}.
Proof.
  apply (zero_dimension_fills_canvas (plainElement (MediaBody "v1"))
           (HTMLVideoElement 0 720 0 None) (Layout.qualityPresets Q1080p)).
  left. reflexivity.
Defined.

(** ** Text size (C9) *)

Lemma renderTextElementSafe_appends (ctx : Renderer.Context2D)
    (canvas : Canvas) (e : TimelineElement) (text : TextFields) :
  exists d,
    Renderer.renderTextElementSafe ctx canvas e text
      = ctx ++ [Renderer.DrawText e d] /\
    Renderer.td_fontSize d = Layout.effectiveFontSize text canvas.
Proof.
  unfold Renderer.renderTextElementSafe.
  eexists. split; [reflexivity|]. reflexivity.
Qed.

(** C9 (as the code has it): the text is drawn at
    [max(32, base * min(W/1920, H/1080) * 2)], where [base] is the
    element's [fontSize] unless that is absent or zero, in which case it is
    48; the size drawn is never below 32. *)
Theorem text_font_size (ctx : Renderer.Context2D) (canvas : Canvas)
    (e : TimelineElement) (text : TextFields) :
  exists d,
    Renderer.renderTextElementSafe ctx canvas e text
      = ctx ++ [Renderer.DrawText e d] /\
    Renderer.td_fontSize d ==
      Qmax 32 (match fontSize text with
               | Some f => if Qeq_bool f 0 then 48 else f
               | None => 48
               end * Qmin (width canvas / 1920) (height canvas / 1080) * 2) /\
    32 <= Renderer.td_fontSize d.
Proof.
  destruct (renderTextElementSafe_appends ctx canvas e text) as (d & Hd & Hs).
  exists d. split; [exact Hd|]. rewrite Hs.
  unfold Layout.effectiveFontSize, Layout.baseFontSize, Layout.fontScale,
    num_or.
  split.
  - apply Q.max_compat; [reflexivity|]. apply Qmult_assoc.
  - apply Q.le_max_l.
Qed.

(** C9 as stated fails: a text element whose [fontSize] is set to [0] is
    drawn from the default 48, at 96 pixels on a 1920x1080 canvas, where
    the stated formula gives the floor 32. *)
Lemma text_font_size_counterexample :
  ~ forall (ctx : Renderer.Context2D) (canvas : Canvas)
           (e : TimelineElement) (text : TextFields) (d : Renderer.TextDraw),
      Renderer.renderTextElementSafe ctx canvas e text
        = ctx ++ [Renderer.DrawText e d] ->
      Renderer.td_fontSize d == Layout.spec_fontSize text canvas.
Proof.
  intros H.
  destruct (renderTextElementSafe_appends [] (Layout.qualityPresets Q1080p)
              (plainElement (TextBody zeroSizeTitle)) zeroSizeTitle) as (d & Hd & Hs).
  specialize (H [] (Layout.qualityPresets Q1080p)
                (plainElement (TextBody zeroSizeTitle)) zeroSizeTitle d Hd).
  rewrite Hs in H. vm_compute in H. discriminate H.
Qed.

(** ** Stable sorting *)

Section StableSortFacts.
Context {A : Type} (key : A -> Q).

Local Abbreviation key_le := (StableSort.key_le key).
Local Abbreviation has_key := (StableSort.has_key key).

Lemma insert_perm (a : A) (l : list A) :
  Permutation (StableSort.insert key a l) (a :: l).
Proof.
  induction l as [|b l IH]; simpl.
  - apply Permutation_refl.
  - destruct (Qle_bool (key a) (key b)).
    + apply Permutation_refl.
    + apply perm_trans with (b :: a :: l).
      * apply perm_skip. exact IH.
      * apply perm_swap.
Qed.

Lemma sort_perm (l : list A) : Permutation (StableSort.sort key l) l.
Proof.
  induction l as [|a l IH]; simpl.
  - apply perm_nil.
  - apply perm_trans with (a :: StableSort.sort key l).
    + apply insert_perm.
    + apply perm_skip. exact IH.
Qed.

Lemma insert_sorted (a : A) (l : list A) :
  StronglySorted key_le l -> StronglySorted key_le (StableSort.insert key a l).
Proof.
  induction 1 as [|b l Hs IH Hb]; simpl.
  - constructor; constructor.
  - destruct (Qle_bool (key a) (key b)) eqn:E.
    + apply Qle_bool_iff in E. constructor.
      * constructor; assumption.
      * constructor; [exact E|].
        eapply Forall_impl; [|exact Hb].
        intros c Hc. unfold key_le in *. eapply Qle_trans; eassumption.
    + assert (Hba : key b <= key a).
      { apply Qlt_le_weak. apply Qltb_lt. unfold Qltb. now rewrite E. }
      constructor; [exact IH|].
      eapply Permutation_Forall.
      * apply Permutation_sym. apply insert_perm.
      * constructor; assumption.
Qed.

Lemma sort_sorted (l : list A) : StronglySorted key_le (StableSort.sort key l).
Proof.
  induction l as [|a l IH]; simpl.
  - constructor.
  - apply insert_sorted. exact IH.
Qed.

(** Insertion never lets the new element overtake one with the same key,
    nor the other way round: the elements of any one key stay in order. *)
Lemma insert_stable (k : Q) (a : A) (l : list A) :
  List.filter (has_key k) (StableSort.insert key a l)
  = List.filter (has_key k) (a :: l).
Proof.
  induction l as [|b l IH]; [reflexivity|].
  simpl StableSort.insert.
  destruct (Qle_bool (key a) (key b)) eqn:E; [reflexivity|].
  change (List.filter (has_key k) (b :: StableSort.insert key a l))
    with (if has_key k b
          then b :: List.filter (has_key k) (StableSort.insert key a l)
          else List.filter (has_key k) (StableSort.insert key a l)).
  rewrite IH. simpl.
  destruct (has_key k b) eqn:Eb; [|reflexivity].
  assert (Ea : has_key k a = false).
  { destruct (has_key k a) eqn:Ea; [|reflexivity].
    unfold has_key in Ea, Eb.
    apply Qeq_bool_eq in Eb. apply Qeq_bool_eq in Ea.
    assert (Hle : key a <= key b) by (rewrite Ea, Eb; apply Qle_refl).
    apply Qle_bool_iff in Hle. congruence. }
  rewrite Ea. reflexivity.
Qed.

Lemma sort_stable (k : Q) (l : list A) :
  List.filter (has_key k) (StableSort.sort key l) = List.filter (has_key k) l.
Proof.
  induction l as [|a l IH]; [reflexivity|].
  simpl StableSort.sort. rewrite insert_stable. simpl. now rewrite IH.
Qed.

Lemma has_key_refl (a : A) : has_key (key a) a = true.
Proof. unfold has_key. apply Qeq_bool_iff. reflexivity. Qed.

Lemma filter_head_In (f : A -> bool) (l r : list A) (a : A) :
  List.filter f l = a :: r -> In a l.
Proof.
  intros H. assert (Hin : In a (List.filter f l)) by (rewrite H; now left).
  apply filter_In in Hin. tauto.
Qed.

(** A sorted list is determined by the order it keeps within each key, so
    every stable sorting procedure returns what [StableSort.sort] does. *)
Lemma sorted_stable_unique (l1 l2 : list A) :
  StronglySorted key_le l1 -> StronglySorted key_le l2 ->
  (forall k, List.filter (has_key k) l1 = List.filter (has_key k) l2) ->
  l1 = l2.
Proof.
  revert l2. induction l1 as [|a l1 IH]; intros l2 S1 S2 F.
  - destruct l2 as [|b l2]; [reflexivity|].
    specialize (F (key b)). simpl in F. rewrite has_key_refl in F.
    discriminate F.
  - destruct l2 as [|b l2].
    { specialize (F (key a)). simpl in F. rewrite has_key_refl in F.
      discriminate F. }
    apply StronglySorted_inv in S1. destruct S1 as [S1 H1].
    apply StronglySorted_inv in S2. destruct S2 as [S2 H2].
    assert (Hab : a = b).
    { pose proof (F (key a)) as Fa. simpl in Fa. rewrite has_key_refl in Fa.
      destruct (has_key (key a) b) eqn:Eb.
      - now injection Fa.
      - exfalso.
        pose proof (F (key b)) as Fb. simpl in Fb. rewrite has_key_refl in Fb.
        assert (Eab : has_key (key b) a = false).
        { unfold has_key in *. destruct (Qeq_bool (key a) (key b)) eqn:E;
            [|reflexivity].
          apply Qeq_bool_eq in E. symmetry in E. apply Qeq_bool_iff in E.
          congruence. }
        rewrite Eab in Fb.
        symmetry in Fa. apply filter_head_In in Fa.
        apply filter_head_In in Fb.
        rewrite Forall_forall in H1, H2.
        pose proof (H1 b Fb) as Hle1. pose proof (H2 a Fa) as Hle2.
        unfold key_le in *.
        assert (E : key b == key a) by (apply Qle_antisym; assumption).
        apply Qeq_bool_iff in E. unfold has_key in Eb. congruence. }
    subst b. f_equal. apply IH; try assumption.
    intros k. specialize (F k). simpl in F.
    destruct (has_key k a); [now injection F|exact F].
Qed.

Lemma stable_sort_unique (l s : list A) :
  StronglySorted key_le s ->
  (forall k, List.filter (has_key k) s = List.filter (has_key k) l) ->
  s = StableSort.sort key l.
Proof.
  intros Hs Hf. apply sorted_stable_unique.
  - exact Hs.
  - apply sort_sorted.
  - intros k. rewrite Hf. symmetry. apply sort_stable.
Qed.

End StableSortFacts.

(** ** Draw order (C7, C8) *)

Section DrawOrder.
Import Timeline Renderer.

Variable drawImage_ok : MediaHandle -> bool.
Variable canvas : Canvas.
Variable currentTime : Q.
Variable mediaElements : gmap string (option MediaHandle).

Local Abbreviation opsOf :=
  (Renderer.opsOf drawImage_ok canvas currentTime mediaElements).

Lemma renderMediaElementSafe_appends (ctx : Context2D) (e : TimelineElement)
    (mediaId : string) (item : option MediaItem) :
  renderMediaElementSafe drawImage_ok ctx canvas e mediaId item currentTime
                         mediaElements
  = ctx ++ renderMediaElementSafe drawImage_ok [] canvas e mediaId item
             currentTime mediaElements.
Proof.
  unfold renderMediaElementSafe.
  destruct item as [item|]; [|reflexivity].
  destruct (String.eqb mediaId "test"); [reflexivity|].
  destruct (mediaElements !! item_id item) as [[h|]|];
    try (now rewrite app_nil_r).
  destruct (seek_target e currentTime h), (drawImage_ok h); simpl;
    rewrite ?app_nil_r, <- ?app_assoc; reflexivity.
Qed.

Lemma renderElement_appends (ctx : Context2D) (a : Active) :
  renderElement drawImage_ok canvas currentTime mediaElements ctx a
  = ctx ++ opsOf a.
Proof.
  unfold opsOf, renderElement. destruct (body (element a)).
  - apply renderMediaElementSafe_appends.
  - reflexivity.
Qed.

Lemma render_fold_appends (l : list Active) (ctx : Context2D) :
  fold_left (renderElement drawImage_ok canvas currentTime mediaElements)
            l ctx
  = ctx ++ flat_map opsOf l.
Proof.
  revert ctx. induction l as [|a l IH]; intros ctx; simpl.
  - now rewrite app_nil_r.
  - rewrite IH, renderElement_appends. now rewrite <- app_assoc.
Qed.

Lemma renderActiveElementsSafe_appends (ctx : Context2D)
    (activeElements : list Active) :
  renderActiveElementsSafe drawImage_ok ctx canvas activeElements currentTime
                           mediaElements
  = ctx ++ flat_map opsOf (sortedElements activeElements).
Proof. unfold renderActiveElementsSafe. apply render_fold_appends. Qed.

(** A frame is the background fill followed by the active elements'
    drawings in the sorted order, media and text interleaved as the tracks
    are. *)
Lemma drawFrame_sequence (ctx : Context2D) (backgroundColor : option string)
    (tracks : list TimelineTrack) (mediaItems : list MediaItem) :
  drawFrame drawImage_ok ctx canvas backgroundColor currentTime tracks
            mediaItems mediaElements
  = ctx ++
    FillBackground (str_or backgroundColor "#000000")
                   (width canvas) (height canvas)
    :: flat_map opsOf
         (sortedElements
            (getActiveElementsAtTime currentTime tracks mediaItems)).
Proof.
  unfold drawFrame. rewrite renderActiveElementsSafe_appends.
  rewrite <- app_assoc. reflexivity.
Qed.

End DrawOrder.

Section PaintedElements.
Import Timeline Renderer DrawLog.

Variable drawImage_ok : MediaHandle -> bool.
Variable canvas : Canvas.
Variable currentTime : Q.
Variable mediaElements : gmap string (option MediaHandle).

Local Abbreviation opsOf :=
  (Renderer.opsOf drawImage_ok canvas currentTime mediaElements).
Local Abbreviation paints := (DrawLog.paints drawImage_ok mediaElements).

Lemma elementsPainted_app (ops1 ops2 : list DrawOp) :
  elementsPainted (ops1 ++ ops2) = elementsPainted ops1 ++ elementsPainted ops2.
Proof.
  induction ops1 as [|op ops1 IH]; [reflexivity|]. simpl.
  destruct (op_element op); simpl; now rewrite IH.
Qed.

(** One element is painted once or not at all. *)
Lemma elementsPainted_opsOf (a : Active) :
  elementsPainted (opsOf a) = if paints a then [element a] else [].
Proof.
  unfold Renderer.opsOf, renderElement, DrawLog.paints.
  destruct (body (element a)) as [mediaId|text]; [|reflexivity].
  unfold renderMediaElementSafe.
  destruct (mediaItem a) as [item|]; [|reflexivity].
  destruct (String.eqb mediaId "test"); [reflexivity|]. simpl orb.
  destruct (mediaElements !! item_id item) as [[h|]|]; try reflexivity.
  destruct (seek_target (element a) currentTime h), (drawImage_ok h);
    reflexivity.
Qed.

Lemma elementsPainted_flat_map (l : list Active) :
  elementsPainted (flat_map opsOf l) = map element (List.filter paints l).
Proof.
  induction l as [|a l IH]; [reflexivity|].
  cbn [flat_map List.filter]. rewrite elementsPainted_app, IH.
  rewrite elementsPainted_opsOf. destruct (paints a); reflexivity.
Qed.

End PaintedElements.

(** C7: the elements are painted one after the other in ascending order of
    their track's [order] (a missing one, or 0, counting as 0), elements of
    equal order in the order they were given: the painted elements are those
    of the active list arranged in that way, less the ones that are not
    painted at all.  Two renders of the same active set, from whatever
    state of the canvas, add exactly the same sequence of drawing
    operations. *)
Theorem draw_order_deterministic (drawImage_ok : MediaHandle -> bool)
    (canvas : Canvas) (currentTime : Q)
    (mediaElements : gmap string (option MediaHandle))
    (activeElements : list Timeline.Active) :
  exists (sorted : list Timeline.Active) (drawn : list Renderer.DrawOp),
    Permutation sorted activeElements /\
    StronglySorted
      (fun a b => num_or (order (Timeline.track a)) 0
                  <= num_or (order (Timeline.track b)) 0) sorted /\
    (forall k,
       List.filter
         (fun a => Qeq_bool (num_or (order (Timeline.track a)) 0) k) sorted
       = List.filter
           (fun a => Qeq_bool (num_or (order (Timeline.track a)) 0) k)
           activeElements) /\
    (forall ctx1 ctx2 : Renderer.Context2D,
       Renderer.renderActiveElementsSafe drawImage_ok ctx1 canvas
         activeElements currentTime mediaElements
       = ctx1 ++ drawn /\
       Renderer.renderActiveElementsSafe drawImage_ok ctx2 canvas
         activeElements currentTime mediaElements
       = ctx2 ++ drawn) /\
    DrawLog.elementsPainted drawn
    = map Timeline.element
          (List.filter (DrawLog.paints drawImage_ok mediaElements) sorted).
Proof.
  exists (Renderer.sortedElements activeElements),
         (flat_map (Renderer.opsOf drawImage_ok canvas currentTime
                                   mediaElements)
                   (Renderer.sortedElements activeElements)).
  split; [apply sort_perm|].
  split; [apply (sort_sorted Renderer.trackOrder)|].
  split; [intros k; apply (sort_stable Renderer.trackOrder)|].
  split.
  - intros ctx1 ctx2. split; apply renderActiveElementsSafe_appends.
  - apply elementsPainted_flat_map.
Qed.

(** With the media track (order 1) given before the text track (order 0),
    the text is painted first and the video second. *)
Lemma draw_order_deterministic_witness :
  exists drawn : list Renderer.DrawOp,
    (forall ctx : Renderer.Context2D,
       Renderer.renderActiveElementsSafe (fun _ => true) ctx
         (Layout.qualityPresets Q1080p)
         (Timeline.getActiveElementsAtTime 0 textUnderMediaTracks videoItems)
         0 videoHandles
       = ctx ++ drawn) /\
    map Timeline.element
        (Timeline.getActiveElementsAtTime 0 textUnderMediaTracks videoItems)
    = [videoElement; titleElement] /\
    DrawLog.elementsPainted drawn = [titleElement; videoElement].
Proof.
  destruct (draw_order_deterministic (fun _ => true)
              (Layout.qualityPresets Q1080p) 0 videoHandles
              (Timeline.getActiveElementsAtTime 0 textUnderMediaTracks
                 videoItems))
    as (sorted & drawn & _ & Hsorted & Hstable & Hruns & Hpainted).
  exists drawn. split; [intros ctx; exact (proj1 (Hruns ctx ctx))|].
  split; [vm_compute; reflexivity|].
  rewrite Hpainted.
  rewrite (stable_sort_unique Renderer.trackOrder _ _ Hsorted Hstable).
  vm_compute. reflexivity.
Defined.

(** C8 fails on the code: with a text track of order 0 under a media track
    of order 1, both active at time 0, the frame is drawn as background,
    then the text, then the media on top of it. *)
Theorem text_drawn_before_media :
  let frame :=
    Renderer.drawFrame (fun _ => true) [] (Layout.qualityPresets Q1080p)
                       None 0 textUnderMediaTracks videoItems videoHandles in
  (exists d targetTime info alpha,
     frame = [ Renderer.FillBackground "#000000" 1920 1080;
               Renderer.DrawText titleElement d;
               Renderer.SeekVideo videoElement targetTime;
               Renderer.DrawImage videoElement video1280x720 info alpha ]) /\
  Renderer.media_before_text frame = false.
Proof.
  split.
  - do 4 eexists. vm_compute. reflexivity.
  - vm_compute. reflexivity.
Qed.

(** ** Promises *)

Section AsyncFacts.
Import Async.
Context {A B : Type}.

Lemma outcome_await_fulfilled (p : Promise A) (f : A -> Promise B)
    (t : N) (a : A) :
  outcome p = Some (t, Fulfilled a) ->
  outcome (await p f) = outcome (delay t (f a)).
Proof. intros H. unfold await. rewrite H. reflexivity. Qed.

Lemma outcome_await_rejected (p : Promise A) (f : A -> Promise B)
    (t : N) (reason : string) :
  outcome p = Some (t, Rejected reason) ->
  outcome (await p f) = Some (t, Rejected reason).
Proof. intros H. unfold await. rewrite H. reflexivity. Qed.

Lemma outcome_await_pending (p : Promise A) (f : A -> Promise B) :
  outcome p = None -> outcome (await p f) = None.
Proof. intros H. unfold await. rewrite H. reflexivity. Qed.

Lemma outcome_try_catch_rejected (p : Promise A)
    (handler : string -> Promise A) (t : N) (reason : string) :
  outcome p = Some (t, Rejected reason) ->
  outcome (try_catch p handler) = outcome (delay t (handler reason)).
Proof. intros H. unfold try_catch. rewrite H. reflexivity. Qed.

Lemma outcome_try_catch_fulfilled (p : Promise A)
    (handler : string -> Promise A) (t : N) (a : A) :
  outcome p = Some (t, Fulfilled a) ->
  outcome (try_catch p handler) = Some (t, Fulfilled a).
Proof. intros H. unfold try_catch. rewrite H. exact H. Qed.

Lemma effects_try_catch_rejected (p : Promise A)
    (handler : string -> Promise A) (t : N) (reason : string) :
  outcome p = Some (t, Rejected reason) ->
  effects (try_catch p handler)
  = effects p ++ effects (delay t (handler reason)).
Proof. intros H. unfold try_catch. rewrite H. reflexivity. Qed.

Lemma In_effects_delay (t u : N) (eff : Effect) (p : Promise A) :
  In (u, eff) (effects p) -> In ((t + u)%N, eff) (effects (delay t p)).
Proof.
  intros H. unfold delay.
  change (In ((t + u)%N, eff)
             (map (fun te => ((t + fst te)%N, snd te)) (effects p))).
  apply in_map_iff. exists (u, eff). split; [reflexivity|exact H].
Qed.

Lemma outcome_delay (t : N) (p : Promise A) :
  outcome (delay t p)
  = match outcome p with
    | Some (u, r) => Some ((t + u)%N, r)
    | None => None
    end.
Proof. reflexivity. Qed.

End AsyncFacts.

Section AsyncRejection.
Import Async.
Context {A : Type}.

Lemma rejected_delay (t : N) (p : Promise A) :
  rejected (delay t p) <-> rejected p.
Proof.
  unfold rejected. rewrite outcome_delay.
  destruct (outcome p) as [[u [a|r]]|]; split;
    intros (v & reason & H); try discriminate H; eexists _, _; reflexivity.
Qed.

Lemma rejected_try_catch (p : Promise A) (handler : string -> Promise A) :
  rejected (try_catch p handler) <->
  exists t reason,
    outcome p = Some (t, Rejected reason) /\ rejected (handler reason).
Proof.
  destruct (outcome p) as [[t [a|r]]|] eqn:E.
  - unfold rejected at 1.
    rewrite (outcome_try_catch_fulfilled _ _ _ _ E). split.
    + intros (v & reason & H). discriminate H.
    + intros (v & reason & H & _). discriminate H.
  - unfold rejected at 1.
    rewrite (outcome_try_catch_rejected _ _ _ _ E).
    fold (rejected (delay t (handler r))). rewrite rejected_delay. split.
    + intros H. exists t, r. split; [reflexivity|exact H].
    + intros (v & reason & H & Hr). injection H as <- <-. exact Hr.
  - unfold rejected at 1, try_catch. rewrite E, E. split.
    + intros (v & reason & H). discriminate H.
    + intros (v & reason & H & _). discriminate H.
Qed.

Lemma rejected_reject (reason : string) : rejected (@reject A reason).
Proof. exists 0%N, reason. reflexivity. Qed.

Lemma rejected_rethrow (p : Promise A) :
  rejected (try_catch p (fun error => reject error)) <-> rejected p.
Proof.
  rewrite rejected_try_catch. split.
  - intros (t & reason & H & _). exists t, reason. exact H.
  - intros (t & reason & H). exists t, reason. split; [exact H|].
    apply rejected_reject.
Qed.

End AsyncRejection.

(** ** Preloading (C4) *)

Section Preload.
Import Async Preloader.

Variable browser : MediaItem -> LoadOutcome.

Lemma loadElement_outcome (now : N) (mediaItem : MediaItem) :
  (exists t, outcome (loadElement browser now mediaItem)
             = Some (t, Fulfilled (slot browser now mediaItem)) /\
             t = waitOf browser mediaItem) \/
  (exists reason, outcome (loadElement browser now mediaItem)
                  = Some (0%N, Rejected reason) /\
                  slot browser now mediaItem = None /\
                  waitOf browser mediaItem = 0%N).
Proof.
  unfold loadElement, slot, waitOf, loadImage, loadVideo.
  destruct (item_type mediaItem);
    destruct (browser mediaItem) as [ms w h rs d|ms| |r];
    try destruct (ms <=? imageTimeout)%N eqn:Ei;
    try destruct (ms <=? videoTimeout)%N eqn:Ev;
    try apply N.leb_le in Ei; try apply N.leb_gt in Ei;
    try apply N.leb_le in Ev; try apply N.leb_gt in Ev;
    simpl;
    try (left; eexists; split; [reflexivity|lia]);
    (right; eexists; split; [reflexivity|split; reflexivity]).
Qed.

Lemma preloadOne_outcome (now : N) (m : gmap string (option Element))
    (mediaItem : MediaItem) :
  exists t,
    outcome (preloadOne browser now m mediaItem)
    = Some (t, Fulfilled
                 (<[item_id mediaItem := slot browser now mediaItem]> m)) /\
    t = waitOf browser mediaItem.
Proof.
  unfold preloadOne.
  destruct (loadElement_outcome now mediaItem)
    as [(t & H & Ht)|(reason & H & Hs & Hw)].
  - exists (t + 0)%N. split; [|lia].
    erewrite outcome_try_catch_fulfilled; [reflexivity|].
    erewrite outcome_await_fulfilled by exact H. reflexivity.
  - exists (0 + 0)%N. split; [|rewrite Hw; reflexivity].
    erewrite outcome_try_catch_rejected.
    2: { erewrite outcome_await_rejected by exact H. reflexivity. }
    rewrite Hs. reflexivity.
Qed.

Lemma preloadOne_settledAt (now : N) (m : gmap string (option Element))
    (mediaItem : MediaItem) :
  settledAt (preloadOne browser now m mediaItem) = waitOf browser mediaItem.
Proof.
  destruct (preloadOne_outcome now m mediaItem) as (t & Ho & Ht).
  unfold settledAt. rewrite Ho. exact Ht.
Qed.

Local Abbreviation slots := (Preloader.slots browser).

Lemma preloadLoop_outcome (mediaItems : list MediaItem) (now : N)
    (m : gmap string (option Element)) :
  exists t,
    outcome (preloadLoop browser mediaItems now m)
    = Some (t, Fulfilled (slots mediaItems now m)) /\
    t = waited browser mediaItems.
Proof.
  revert now m. induction mediaItems as [|item rest IH]; intros now m.
  - exists 0%N. split; reflexivity.
  - destruct (preloadOne_outcome now m item) as (t & Ht & Et).
    destruct (IH (now + waitOf browser item)%N
                 (<[item_id item := slot browser now item]> m))
      as (u & Hu & Eu).
    exists (t + u)%N. split.
    + cbn [preloadLoop]. cbv zeta. rewrite preloadOne_settledAt.
      erewrite outcome_await_fulfilled by exact Ht.
      rewrite outcome_delay, Hu. reflexivity.
    + cbn [waited fold_right]. fold (waited browser rest). lia.
Qed.

Lemma slots_cons (item : MediaItem) (rest : list MediaItem) (now : N)
    (m : gmap string (option Element)) :
  slots (item :: rest) now m
  = slots rest (now + waitOf browser item)%N
          (<[item_id item := slot browser now item]> m).
Proof. reflexivity. Qed.

Lemma slots_lookup_other (mediaItems : list MediaItem) (now : N)
    (m : gmap string (option Element)) (id : string) :
  ~ In id (map item_id mediaItems) -> slots mediaItems now m !! id = m !! id.
Proof.
  revert now m. induction mediaItems as [|item rest IH]; intros now m Hn.
  - reflexivity.
  - simpl in Hn. rewrite slots_cons, IH by tauto.
    apply lookup_insert_ne. intros E. apply Hn. now left.
Qed.



End Preload.




(** ** Audio (C5) *)

Section NoAudio.
Import AudioMixer.

Variable tracks : list TimelineTrack.
Variable mediaItems : list MediaItem.
Hypothesis silent : no_audio_source tracks mediaItems.

Lemma TrackType_eqb_eq (a b : TrackType) :
  TrackType_eqb a b = true -> a = b.
Proof. destruct a, b; simpl; congruence. Qed.

Lemma visit_element_silent (tr : TimelineTrack) (e : TimelineElement)
    (acc : list AudioSource) :
  In tr tracks -> In e (elements tr) ->
  visit_element mediaItems tr acc e = acc.
Proof.
  intros Htr He. unfold visit_element.
  destruct (body e) as [mediaId|text] eqn:Eb; [|reflexivity].
  destruct (find_item mediaItems mediaId) as [item|] eqn:Ef.
  - destruct (silent tr e mediaId item Htr He Eb Ef) as [Ha Hv].
    destruct (TrackType_eqb (track_type tr) TrackAudio) eqn:Ea.
    + apply TrackType_eqb_eq in Ea. specialize (Ha Ea).
      rewrite Ea. simpl.
      unfold is_audio_item. destruct (item_type item); try reflexivity.
      contradiction Ha; reflexivity.
    + destruct (TrackType_eqb (track_type tr) TrackMedia) eqn:Em;
        [|reflexivity].
      apply TrackType_eqb_eq in Em. specialize (Hv Em).
      unfold is_video_item. destruct (item_type item); try reflexivity.
      contradiction Hv; reflexivity.
  - destruct (TrackType_eqb (track_type tr) TrackAudio),
             (TrackType_eqb (track_type tr) TrackMedia); reflexivity.
Qed.

Lemma visit_elements_silent (tr : TimelineTrack) (es : list TimelineElement)
    (acc : list AudioSource) :
  In tr tracks -> incl es (elements tr) ->
  fold_left (visit_element mediaItems tr) es acc = acc.
Proof.
  intros Htr. revert acc. induction es as [|e es IH]; intros acc Hes; simpl.
  - reflexivity.
  - rewrite visit_element_silent.
    + apply IH. intros x Hx. apply Hes. now right.
    + exact Htr.
    + apply Hes. now left.
Qed.

Lemma findAudioSources_silent : findAudioSources tracks mediaItems = [].
Proof.
  unfold findAudioSources.
  assert (G : forall trs acc, incl trs tracks ->
            fold_left
              (fun audioSources tr =>
                 fold_left (visit_element mediaItems tr) (elements tr)
                           audioSources) trs acc = acc).
  { induction trs as [|tr trs IH]; intros acc Hin; simpl.
    - reflexivity.
    - rewrite visit_elements_silent.
      + apply IH. intros x Hx. apply Hin. now right.
      + apply Hin. now left.
      + apply incl_refl. }
  apply G. apply incl_refl.
Qed.

End NoAudio.

(** C5: when the timeline has no audio source (no media element on an
    audio track that refers to an audio item, none on a media track that
    refers to a video item), [createSafeAudioStream] returns null and the
    recorder is configured for video only, with no audio bit rate. *)
Theorem silent_timeline_video_only (b : AudioMixer.AudioBrowser)
    (tracks : list TimelineTrack) (mediaItems : list MediaItem)
    (duration : Q) (settings : ProjectSettings) :
  AudioMixer.no_audio_source tracks mediaItems ->
  AudioMixer.createSafeAudioStream b tracks mediaItems duration = None /\
  let hasAudio := fst (AudioMixer.tryAudio b tracks mediaItems duration) in
  hasAudio = false /\
  AudioMixer.audioBitsPerSecond (AudioMixer.recorderOptions hasAudio settings)
    = None /\
  AudioMixer.mimeType (AudioMixer.recorderOptions hasAudio settings)
    = "video/webm;codecs=vp8"%string.
Proof.
  intros Hs.
  assert (Hn : AudioMixer.createSafeAudioStream b tracks mediaItems duration
               = None).
  { unfold AudioMixer.createSafeAudioStream.
    rewrite (findAudioSources_silent tracks mediaItems Hs). reflexivity. }
  split; [exact Hn|].
  unfold AudioMixer.tryAudio. rewrite Hn.
  destruct (AudioMixer.audioContext_ok b); simpl; auto.
Qed.

Lemma silentTracks_no_audio : AudioMixer.no_audio_source silentTracks [photoItem].
Proof.
  intros tr e mediaId item Htr He Hb Hf.
  simpl in Htr. destruct Htr as [<-|[<-|[]]]; simpl in He;
    destruct He as [<-|[]]; simpl in Hb; try discriminate Hb.
  injection Hb as <-. vm_compute in Hf. injection Hf as <-.
  split; intros _; discriminate.
Defined.

Lemma silent_timeline_video_only_witness :
  AudioMixer.createSafeAudioStream audioBrowser silentTracks [photoItem] 5 = None /\
  let hasAudio := fst (AudioMixer.tryAudio audioBrowser silentTracks [photoItem] 5) in
  hasAudio = false /\
  AudioMixer.audioBitsPerSecond
    (AudioMixer.recorderOptions hasAudio settings30) = None /\
  AudioMixer.mimeType (AudioMixer.recorderOptions hasAudio settings30)
    = "video/webm;codecs=vp8"%string.
Proof.
  apply (silent_timeline_video_only audioBrowser silentTracks [photoItem] 5
           settings30).
  exact silentTracks_no_audio.
Defined.

(** ** Fallback cascade (C2) *)

Section Fallback.
Import Async Orchestrator.

Variable b : Browser.
Variable options : ExportOptions.t.

Lemma simulateProgressUpdates_outcome :
  outcome simulateProgressUpdates = Some (progressTime, Fulfilled tt).
Proof. reflexivity. Qed.

Local Abbreviation exportRace := (Orchestrator.exportRace b options).

Lemma exportRace_rejected :
  tier_throws b options \/ timeout_fires b options ->
  exists t reason,
    outcome exportRace = Some (t, Rejected reason) /\ (t <= exportTimeout)%N.
Proof.
  unfold tier_throws, timeout_fires, rejected, exportRace, race.
  cbn [outcome timeout].
  destruct (outcome (fullRenderTier b options)) as [[t [[]|reason]]|] eqn:E.
  - intros [(t' & reason & H)|H]; [discriminate H|].
    apply N.ltb_ge in H. rewrite H. eexists _, _. split; [reflexivity|].
    apply N.le_refl.
  - intros _. destruct (t <? exportTimeout)%N eqn:Et.
    + eexists _, _. split; [reflexivity|]. apply N.ltb_lt in Et. lia.
    + eexists _, _. split; [reflexivity|]. apply N.le_refl.
  - intros _. eexists _, _. split; [reflexivity|]. apply N.le_refl.
Qed.

Lemma tryExport_outcome :
  outcome (tryExport b options)
  = match outcome exportRace with
    | Some (t, Fulfilled _) => Some ((0 + (progressTime + (t + 0)))%N,
                                     Fulfilled tt)
    | Some (t, Rejected reason) => Some ((0 + (progressTime + t))%N,
                                         Rejected reason)
    | None => None
    end.
Proof.
  unfold tryExport.
  erewrite outcome_await_fulfilled by reflexivity.
  rewrite outcome_delay.
  erewrite outcome_await_fulfilled by exact simulateProgressUpdates_outcome.
  rewrite outcome_delay.
  cbv zeta. fold (fullRenderTier b options). fold exportRace.
  destruct (outcome exportRace) as [[t [[]|reason]]|] eqn:E.
  - erewrite outcome_await_fulfilled by exact E. reflexivity.
  - erewrite outcome_await_rejected by exact E. reflexivity.
  - rewrite outcome_await_pending by exact E. reflexivity.
Qed.

Lemma catchExport_delivers (error : string) :
  fulfilled (emergencyTier b options) ->
  outcome (catchExport b options error) = Some (0%N, Fulfilled tt) /\
  In (0%N, emergencyReport options) (effects (catchExport b options error)).
Proof.
  unfold fulfilled, emergencyTier, catchExport, createEmergencyFallback,
    triggerDownload, emergencyReport.
  destruct (anchorDownload_ok b).
  - intros _. split; [reflexivity|]. simpl. right. left. reflexivity.
  - intros (t & a & H). discriminate H.
Qed.

Lemma catchExport_rejected (error : string) (t : N) (reason : string) :
  outcome (catchExport b options error) = Some (t, Rejected reason) ->
  rejected (emergencyTier b options).
Proof.
  unfold rejected, emergencyTier, catchExport, createEmergencyFallback,
    triggerDownload.
  destruct (anchorDownload_ok b).
  - intros H. discriminate H.
  - intros _. eexists _, _. reflexivity.
Qed.

Lemma exportVideo_rejected_only_by_emergency :
  rejected (exportVideo b options) -> rejected (emergencyTier b options).
Proof.
  intros (t & reason & H). unfold exportVideo in H.
  destruct (outcome (tryExport b options)) as [[u [[]|r]]|] eqn:E.
  - rewrite (outcome_try_catch_fulfilled _ _ _ _ E) in H. discriminate H.
  - rewrite (outcome_try_catch_rejected _ _ _ _ E), outcome_delay in H.
    destruct (outcome (catchExport b options r)) as [[v [[]|r']]|] eqn:Ec;
      try discriminate H.
    eapply catchExport_rejected. exact Ec.
  - unfold try_catch in H. rewrite E in H. congruence.
Qed.

End Fallback.

Section Tier.
Import Async Orchestrator.
Variable b : Browser.

Lemma rejected_secondary (projectName : string) :
  rejected (secondaryExport b projectName)
  <-> rejected (renderSingleFrameSafe b).
Proof.
  unfold secondaryExport, rejected.
  destruct (outcome (renderSingleFrameSafe b)) as [[t [[]|r]]|] eqn:E.
  - erewrite outcome_await_fulfilled by exact E. rewrite outcome_delay.
    simpl. split; intros (u & reason & H); discriminate H.
  - erewrite outcome_await_rejected by exact E. reflexivity.
  - rewrite outcome_await_pending by exact E.
    split; intros (u & reason & H); discriminate H.
Qed.

(** X19: the full-render tier throws exactly when the canvas has no 2D
    context, or both the live capture and the still frame throw. *)
Lemma createRealVideoFile_rejected (projectName : string) (duration : Q)
    (settings : ProjectSettings)
    (videoElements audioElements textElements : list TimelineElement) :
  rejected (createRealVideoFile b projectName duration settings
              videoElements audioElements textElements)
  <->
  canvasContext_ok b = false \/
  (rejected (primaryExport b) /\ rejected (renderSingleFrameSafe b)).
Proof.
  unfold createRealVideoFile. rewrite rejected_rethrow.
  destruct (canvasContext_ok b); simpl negb; cbv iota.
  - rewrite rejected_try_catch. split.
    + intros (t & reason & Hp & Hs). right. split.
      * exists t, reason. exact Hp.
      * apply (proj1 (rejected_rethrow _)) in Hs.
        apply (proj1 (rejected_secondary projectName)). exact Hs.
    + intros [H|[(t & reason & Hp) Hs]]; [discriminate H|].
      exists t, reason. split; [exact Hp|].
      apply (proj2 (rejected_rethrow _)).
      apply (proj2 (rejected_secondary projectName)). exact Hs.
  - split.
    + intros _. left. reflexivity.
    + intros _. apply rejected_reject.
Qed.
End Tier.

(** C2: when the full-render tier throws, or the 15-second timer fires
    before it has settled, [exportVideo] resolves once the emergency tier has
    delivered its text report, as it does wherever the browser lets the
    report be downloaded; and [exportVideo] rejects only when the emergency
    tier itself throws, that download having failed. *)
Theorem export_falls_back_to_report (b : Orchestrator.Browser)
    (options : ExportOptions.t) :
  (Orchestrator.tier_throws b options \/
   Orchestrator.timeout_fires b options ->
   Orchestrator.anchorDownload_ok b = true ->
   exists t_done t_file,
     Async.outcome (Orchestrator.exportVideo b options)
       = Some (t_done, Async.Fulfilled tt) /\
     In (t_file, Orchestrator.emergencyReport options)
        (Async.effects (Orchestrator.exportVideo b options)) /\
     (t_file <= t_done)%N) /\
  (Async.rejected (Orchestrator.exportVideo b options) ->
   Async.rejected (Orchestrator.emergencyTier b options) /\
   Orchestrator.anchorDownload_ok b = false).
Proof.
  split.
  - intros Hfail Hok.
    assert (Hem : Async.fulfilled (Orchestrator.emergencyTier b options)).
    { unfold Async.fulfilled, Orchestrator.emergencyTier,
        Orchestrator.createEmergencyFallback, Orchestrator.triggerDownload.
      rewrite Hok. eexists _, _. reflexivity. }
    destruct (exportRace_rejected b options Hfail) as (t & reason & Hr & _).
    pose proof (tryExport_outcome b options) as Ht. rewrite Hr in Ht.
    destruct (catchExport_delivers b options reason Hem) as [Ho Hin].
    set (T := (0 + (Orchestrator.progressTime + t))%N) in *.
    exists (T + 0)%N, (T + 0)%N. split; [|split].
    + unfold Orchestrator.exportVideo.
      erewrite outcome_try_catch_rejected by exact Ht.
      rewrite outcome_delay, Ho. reflexivity.
    + unfold Orchestrator.exportVideo.
      erewrite effects_try_catch_rejected by exact Ht.
      apply in_or_app. right. apply In_effects_delay. exact Hin.
    + apply N.le_refl.
  - intros Hrej.
    pose proof (exportVideo_rejected_only_by_emergency b options Hrej) as He.
    split; [exact He|].
    destruct He as (t & reason & He).
    unfold Orchestrator.emergencyTier, Orchestrator.createEmergencyFallback,
      Orchestrator.triggerDownload in He.
    destruct (Orchestrator.anchorDownload_ok b);
      [discriminate He|reflexivity].
Qed.

(** In a browser without a 2D context the tier throws at once, and the
    report is delivered when the progress messages are through. *)
Lemma export_falls_back_to_report_witness :
  exists t_done t_file,
    Async.outcome (Orchestrator.exportVideo noCanvasBrowser filmOptions)
      = Some (t_done, Async.Fulfilled tt) /\
    In (t_file, Orchestrator.emergencyReport filmOptions)
       (Async.effects (Orchestrator.exportVideo noCanvasBrowser filmOptions)) /\
    (t_file <= t_done)%N.
Proof.
  apply (proj1 (export_falls_back_to_report noCanvasBrowser filmOptions)).
  - left. exists 0%N, "Canvas not available"%string. reflexivity.
  - reflexivity.
Defined.

Example export_timeout_delivers_report :
  Async.outcome (Orchestrator.exportVideo stuckBrowser filmOptions)
    = Some (18900%N, Async.Fulfilled tt) /\
  In (18900%N,
      Download "My_Film_export_failed.txt"
        (FailureReport "My Film" 5 (ExportOptions.settings filmOptions)))
     (Async.effects (Orchestrator.exportVideo stuckBrowser filmOptions)).
Proof.
  split.
  - vm_compute. reflexivity.
  - vm_compute. do 7 right. left. reflexivity.
Qed.

(** ** The render loop (C3) *)

Section LoopFacts.
Import RenderLoop.

Variable totalFrames : Z.
Variable frameTime : Q.
Variable draw : N -> Q -> Renderer.Context2D -> Renderer.Context2D.

Local Abbreviation frameGoal := (RenderLoop.frameGoal totalFrames).
Local Abbreviation drawn := (RenderLoop.drawn frameTime).
Local Abbreviation running := (RenderLoop.running totalFrames frameTime).
Local Abbreviation finished := (RenderLoop.finished totalFrames frameTime).

Lemma frames_S (k : nat) :
  frames frameTime (S k)
  = frames frameTime k ++ [(k, inject_Z (Z.of_nat k) * frameTime)].
Proof. unfold frames. rewrite seq_S, map_app. reflexivity. Qed.

Lemma last_frame_test (k : nat) :
  (k < frameGoal)%nat ->
  (totalFrames <=? Z.of_nat (S k))%Z = true <-> S k = frameGoal.
Proof.
  unfold frameGoal. intros Hk. rewrite Z.leb_le. lia.
Qed.

Lemma renderFrame_progress (s : State) (k : nat) (wd : bool) :
  drawn k s -> (k < frameGoal)%nat -> idle wd (timers s) ->
  finished (renderFrame totalFrames frameTime draw s) \/
  running (S k) wd (renderFrame totalFrames frameTime draw s).
Proof.
  intros [Hf Hr Ht Hn] Hk Hidle. unfold renderFrame.
  destruct (totalFrames <=? Z.of_nat (currentFrame (drawCurrent frameTime draw s)))%Z
    eqn:E; simpl in E; rewrite Hf in E.
  - left. apply (last_frame_test k Hk) in E.
    simpl renderTimeout. rewrite Ht. split.
    + split; simpl.
      * congruence.
      * rewrite <- E, frames_S, Hr, Hf. reflexivity.
      * exact Ht.
      * exact Hn.
    + simpl. destruct Hidle as [W [_ HW]|]; simpl; [|reflexivity].
      rewrite HW. reflexivity.
  - right.
    assert (HS : (S k < frameGoal)%nat).
    { destruct (Nat.eq_dec (S k) frameGoal) as [Heq|Hne].
      - apply (last_frame_test k Hk) in Heq. congruence.
      - lia. }
    split; [exact HS|]. split.
    + split; simpl.
      * congruence.
      * rewrite frames_S, Hr, Hf. reflexivity.
      * exact Ht.
      * lia.
    + simpl. destruct Hidle as [W HW|]; simpl.
      * apply pending_both; [exact HW|]. split; simpl; [reflexivity|lia].
      * apply pending_frame. split; simpl; [reflexivity|lia].
Qed.

Lemma step_running (s : State) (k : nat) (wd : bool) :
  running k wd s ->
  exists s',
    step totalFrames frameTime draw s = Some s' /\
    (finished s' \/ running (S k) wd s' \/ (wd = true /\ running k false s')).
Proof.
  intros (Hk & Hd & Hp). unfold step.
  inversion Hp as [W F HW HF Ewd Etm|F HF Ewd Etm]; subst wd.
  - destruct HW as [HWc HWi]. destruct HF as [HFc HFi]. simpl.
    assert (HFb : Nat.eqb (timer_id F) 0 = false) by now apply Nat.eqb_neq.
    destruct (fire_at W <=? fire_at F)%N.
    + eexists. split; [reflexivity|]. right. right. split; [reflexivity|].
      unfold fire. rewrite HWc. destruct Hd as [Hf Hr Ht Hn].
      split; [exact Hk|]. split.
      * split; simpl; assumption.
      * simpl. rewrite <- Etm. simpl. rewrite HWi, HFb. simpl.
        apply pending_frame. split; assumption.
    + eexists. split; [reflexivity|].
      unfold fire. rewrite HFc.
      destruct Hd as [Hf Hr Ht Hn].
      edestruct renderFrame_progress as [H|H];
        [| exact Hk | | left; exact H | right; left; exact H].
      * split; simpl; eassumption.
      * simpl. rewrite <- Etm. simpl. rewrite HWi.
        rewrite Nat.eqb_sym, HFb, Nat.eqb_refl. simpl.
        apply idle_watchdog. split; assumption.
  - destruct HF as [HFc HFi]. simpl.
    eexists. split; [reflexivity|].
    unfold fire. rewrite HFc. destruct Hd as [Hf Hr Ht Hn].
    edestruct renderFrame_progress as [H|H];
      [| exact Hk | | left; exact H | right; left; exact H].
    + split; simpl; eassumption.
    + simpl. rewrite <- Etm. simpl. rewrite Nat.eqb_refl. simpl.
      apply idle_none.
Qed.

Lemma run_finished (fuel : nat) (s : State) :
  finished s -> run totalFrames frameTime draw fuel s = s.
Proof.
  intros [_ Ht]. destruct fuel; [reflexivity|].
  simpl. unfold step. rewrite Ht. reflexivity.
Qed.

Lemma run_running (m : nat) :
  forall (k : nat) (wd : bool) (s : State) (fuel : nat),
    running k wd s ->
    (frameGoal - k + (if wd then 1 else 0) <= m)%nat ->
    (m <= fuel)%nat ->
    finished (run totalFrames frameTime draw fuel s).
Proof.
  induction m as [|m IH]; intros k wd s fuel Hr Hm Hfuel.
  - destruct Hr as (Hk & _). lia.
  - destruct fuel as [|fuel]; [lia|].
    destruct (step_running s k wd Hr) as (s' & Hs & Hcases).
    simpl. rewrite Hs.
    destruct Hcases as [Hfin|[Hrun|[-> Hrun]]].
    + rewrite run_finished by exact Hfin. exact Hfin.
    + apply (IH (S k) wd); [exact Hrun| |lia].
      destruct Hrun as (Hk' & _). destruct wd; lia.
    + apply (IH k false); [exact Hrun| |lia].
      destruct Hrun as (Hk' & _). lia.
Qed.

Lemma start_progress (ctx0 : Renderer.Context2D) :
  finished (start totalFrames frameTime draw ctx0) \/
  running 1 true (start totalFrames frameTime draw ctx0).
Proof.
  unfold start. apply renderFrame_progress.
  - split; simpl; try reflexivity. lia.
  - unfold frameGoal. lia.
  - simpl. apply idle_watchdog. split; reflexivity.
Qed.

Lemma loop_renders_goal (ctx0 : Renderer.Context2D) (fuel : nat) :
  (frameGoal <= fuel)%nat ->
  finished (run totalFrames frameTime draw fuel
                (start totalFrames frameTime draw ctx0)).
Proof.
  intros Hfuel. destruct (start_progress ctx0) as [H|H].
  - rewrite run_finished by exact H. exact H.
  - apply (run_running frameGoal 1 true); [exact H| |exact Hfuel].
    destruct H as (Hk & _). lia.
Qed.

End LoopFacts.

(** The loop of [renderVideoContentSafe] stops by itself, whether or not the
    watchdog has fired, after rendering frames [0 .. n-1] at times
    [i * (1 / fps)], where [n] is [min(ceil(duration * fps), 600)] but never
    less than one. *)
Lemma renderLoop_frames (duration : Q) (settings : ProjectSettings)
    (draw : N -> Q -> Renderer.Context2D -> Renderer.Context2D)
    (ctx0 : Renderer.Context2D) :
  let s := RenderLoop.renderLoop duration settings draw ctx0 in
  RenderLoop.rendered s
    = RenderLoop.frames (RenderLoop.frameTime settings)
        (Z.to_nat (Z.max 1 (RenderLoop.totalFrames duration settings))) /\
  RenderLoop.timers s = [].
Proof.
  unfold RenderLoop.renderLoop.
  destruct (loop_renders_goal (RenderLoop.totalFrames duration settings)
              (RenderLoop.frameTime settings) draw ctx0 601) as [Hd Ht].
  - unfold RenderLoop.frameGoal, RenderLoop.totalFrames,
      RenderLoop.maxFrames. lia.
  - split; [apply Hd|exact Ht].
Qed.

Lemma frame_time_quotient (i : nat) (settings : ProjectSettings) :
  inject_Z (Z.of_nat i) * RenderLoop.frameTime settings
  == inject_Z (Z.of_nat i) / fps settings.
Proof.
  unfold RenderLoop.frameTime, Qdiv. rewrite Qmult_1_l. reflexivity.
Qed.

Lemma positive_duration_has_frames (duration : Q)
    (settings : ProjectSettings) :
  0 < duration -> 0 < fps settings ->
  (1 <= Qceiling (duration * fps settings))%Z.
Proof.
  intros Hd Hf.
  assert (Hx : 0 < duration * fps settings)
    by (apply Qmult_lt_0_compat; assumption).
  pose proof (Qle_ceiling (duration * fps settings)) as Hc.
  assert (Hz : inject_Z 0 < inject_Z (Qceiling (duration * fps settings))).
  { eapply Qlt_le_trans; [exact Hx|exact Hc]. }
  rewrite <- Zlt_Qlt in Hz. lia.
Qed.

(** For a positive duration and frame rate the loop renders exactly
    [min(ceil(duration * fps), 600)] frames. *)
Lemma renderLoop_count (duration : Q) (settings : ProjectSettings)
    (draw : N -> Q -> Renderer.Context2D -> Renderer.Context2D)
    (ctx0 : Renderer.Context2D) :
  0 < duration -> 0 < fps settings ->
  Z.of_nat (List.length
              (RenderLoop.rendered
                 (RenderLoop.renderLoop duration settings draw ctx0)))
  = RenderLoop.spec_frameCount duration settings.
Proof.
  intros Hd Hf.
  pose proof (positive_duration_has_frames duration settings Hd Hf) as Hpos.
  destruct (renderLoop_frames duration settings draw ctx0) as [Hr _].
  rewrite Hr. unfold RenderLoop.frames.
  rewrite length_map, length_seq.
  unfold RenderLoop.spec_frameCount, RenderLoop.totalFrames,
    RenderLoop.maxFrames. lia.
Qed.

Example frame_cap_100s_60fps :
  List.length
    (RenderLoop.rendered
       (RenderLoop.renderLoop 100 settings60 (fun _ _ ctx => ctx) []))
  = 600%nat.
Proof. vm_compute. reflexivity. Qed.

(** On the idealised clock 600 frames take 29.95 seconds, so the promise
    of such a render is rejected by the watchdog at 20 seconds while the
    callbacks go on to draw the remaining frames. *)
Example long_render_outlives_watchdog :
  let s := RenderLoop.renderLoop 100 settings60 (fun _ _ ctx => ctx) [] in
  RenderLoop.settled s
    = Some (20000%N, Async.Rejected "Video rendering timed out") /\
  RenderLoop.clock s = 29950%N.
Proof. vm_compute. split; reflexivity. Qed.

(** C3 fails on the code for a timeline of duration 0: the loop draws
    frame 0 before it compares the counter with [totalFrames], so one frame
    is rendered where [min(ceil(0 * fps), 600)] is 0. *)
Theorem zero_duration_renders_one_frame
    (draw : N -> Q -> Renderer.Context2D -> Renderer.Context2D)
    (ctx0 : Renderer.Context2D) :
  let s := RenderLoop.renderLoop 0 settings30 draw ctx0 in
  RenderLoop.spec_frameCount 0 settings30 = 0%Z /\
  RenderLoop.rendered s = [(O, 0 * RenderLoop.frameTime settings30)] /\
  RenderLoop.ctx s = draw 0%N (0 * RenderLoop.frameTime settings30) ctx0 /\
  RenderLoop.timers s = [].
Proof.
  repeat split.
Qed.

(** ** The timeline reader, beyond the window *)

Lemma map_filter_entry (mediaItems : list MediaItem) (tr : TimelineTrack)
    (f : TimelineElement -> bool) (es : list TimelineElement) :
  map Timeline.element (map (Timeline.entry mediaItems tr) (List.filter f es))
  = List.filter f es.
Proof.
  rewrite map_map. simpl. apply map_id.
Qed.

Lemma filter_flat_map {A B : Type} (f : B -> bool) (g : A -> list B)
    (l : list A) :
  List.filter f (flat_map g l) = flat_map (fun a => List.filter f (g a)) l.
Proof.
  induction l as [|a l IH]; simpl; [reflexivity|].
  rewrite filter_app, IH. reflexivity.
Qed.

Lemma map_flat_map {A B C : Type} (h : B -> C) (g : A -> list B)
    (l : list A) :
  map h (flat_map g l) = flat_map (fun a => map h (g a)) l.
Proof.
  induction l as [|a l IH]; simpl; [reflexivity|].
  rewrite map_app, IH. reflexivity.
Qed.

(** X1: the active list is the timeline read in order: the elements of the
    tracks, track after track, from which those whose window misses the time
    are left out; each entry carries the track it came from. *)
Theorem active_elements_in_timeline_order (currentTime : Q)
    (tracks : list TimelineTrack) (mediaItems : list MediaItem) :
  let active :=
    Timeline.getActiveElementsAtTime currentTime tracks mediaItems in
  map Timeline.element active
    = List.filter (Timeline.in_window currentTime) (flat_map elements tracks)
  /\
  (List.length active <= List.length (flat_map elements tracks))%nat /\
  forall a, In a active ->
    In (Timeline.track a) tracks /\
    In (Timeline.element a) (elements (Timeline.track a)) /\
    Timeline.mediaItem a = Timeline.resolve mediaItems (Timeline.element a).
Proof.
  cbv zeta. rewrite getActiveElementsAtTime_flat_map.
  assert (E : map Timeline.element
                (flat_map
                   (fun tr => map (Timeline.entry mediaItems tr)
                                (List.filter (Timeline.in_window currentTime)
                                             (elements tr))) tracks)
              = List.filter (Timeline.in_window currentTime)
                            (flat_map elements tracks)).
  { rewrite map_flat_map, filter_flat_map.
    apply flat_map_ext. intros tr. apply map_filter_entry. }
  split; [exact E|]. split.
  - rewrite <- (length_map Timeline.element), E. apply filter_length_le.
  - intros a Ha. apply in_flat_map in Ha. destruct Ha as (tr & Htr & Ha).
    apply in_map_iff in Ha. destruct Ha as (e & <- & He).
    apply filter_In in He. destruct He as [He _]. simpl. auto.
Qed.

Lemma find_item_id (mediaItems : list MediaItem) (id : string)
    (item : MediaItem) :
  find_item mediaItems id = Some item -> item_id item = id /\ In item mediaItems.
Proof.
  unfold find_item. intros H. apply find_some in H. destruct H as [Hin H].
  apply String.eqb_eq in H. auto.
Qed.

Lemma find_item_none (mediaItems : list MediaItem) (id : string) :
  find_item mediaItems id = None ->
  forall item, In item mediaItems -> item_id item <> id.
Proof.
  unfold find_item. intros H item Hin E.
  apply (find_none _ _ H) in Hin. apply String.eqb_neq in Hin. contradiction.
Qed.

(** X2: the media item attached to an active element is looked up by id and
    by nothing else: a text element and the placeholder id ["test"] get
    none; otherwise it is an item of the list carrying the element's
    [mediaId], and it is missing only when no item carries that id. *)
Theorem active_media_item_resolution (currentTime : Q)
    (tracks : list TimelineTrack) (mediaItems : list MediaItem) :
  Forall
    (fun a =>
       match body (Timeline.element a) with
       | TextBody _ => Timeline.mediaItem a = None
       | MediaBody mediaId =>
           (mediaId = "test"%string -> Timeline.mediaItem a = None) /\
           (forall item, Timeline.mediaItem a = Some item ->
              In item mediaItems /\ item_id item = mediaId /\
              mediaId <> "test"%string) /\
           (Timeline.mediaItem a = None -> mediaId <> "test"%string ->
              forall item, In item mediaItems -> item_id item <> mediaId)
       end)
    (Timeline.getActiveElementsAtTime currentTime tracks mediaItems).
Proof.
  apply Forall_forall. intros a Ha.
  rewrite getActiveElementsAtTime_flat_map in Ha.
  apply in_flat_map in Ha. destruct Ha as (tr & _ & Ha).
  apply in_map_iff in Ha. destruct Ha as (e & <- & _).
  simpl. unfold Timeline.resolve.
  destruct (body e) as [mediaId|text]; [|reflexivity].
  destruct (String.eqb mediaId "test") eqn:Et.
  - apply String.eqb_eq in Et. repeat split; try discriminate; auto.
  - apply String.eqb_neq in Et. split; [intros E; contradiction|]. split.
    + intros item Hf. apply find_item_id in Hf. tauto.
    + intros Hn _. apply find_item_none. exact Hn.
Qed.

(** ** The collectors of [exportVideo] *)

Lemma TrackType_eqb_spec (a b : TrackType) :
  TrackType_eqb a b = true <-> a = b.
Proof. destruct a, b; simpl; split; congruence. Qed.

Lemma is_media_item_type_spec (mediaItems : list MediaItem)
    (keep : MediaType -> bool) (e : TimelineElement) :
  Orchestrator.is_media_item_type mediaItems keep e = true <->
  exists mediaId item,
    body e = MediaBody mediaId /\
    find_item mediaItems mediaId = Some item /\ keep (item_type item) = true.
Proof.
  unfold Orchestrator.is_media_item_type.
  destruct (body e) as [mediaId|text].
  - destruct (find_item mediaItems mediaId) as [item|] eqn:Ef.
    + split.
      * intros H. exists mediaId, item. auto.
      * intros (m & i & Hb & Hf & Hk). injection Hb as <-.
        rewrite Ef in Hf. injection Hf as <-. exact Hk.
    + split; [discriminate|].
      intros (m & i & Hb & Hf & _). injection Hb as <-. congruence.
  - split; [discriminate|]. intros (m & i & Hb & _). discriminate Hb.
Qed.

(** X3: what [collectVideoElements], [collectAudioElements] and
    [collectTextElements] gather: the media elements of the tracks typed
    video whose item is a video or an image; the media elements of the tracks
    typed audio whose item is an audio; every text element of every track.
    A track typed media contributes to neither of the first two. *)
Theorem collectors_membership (tracks : list TimelineTrack)
    (mediaItems : list MediaItem) (e : TimelineElement) :
  (In e (Orchestrator.collectVideoElements tracks mediaItems) <->
   (exists tr, In tr tracks /\ track_type tr = TrackVideo /\
               In e (elements tr)) /\
   exists mediaId item,
     body e = MediaBody mediaId /\
     find_item mediaItems mediaId = Some item /\
     (item_type item = MediaVideo \/ item_type item = MediaImage)) /\
  (In e (Orchestrator.collectAudioElements tracks mediaItems) <->
   (exists tr, In tr tracks /\ track_type tr = TrackAudio /\
               In e (elements tr)) /\
   exists mediaId item,
     body e = MediaBody mediaId /\
     find_item mediaItems mediaId = Some item /\
     item_type item = MediaAudio) /\
  (In e (Orchestrator.collectTextElements tracks) <->
   (exists tr, In tr tracks /\ In e (elements tr)) /\
   exists text, body e = TextBody text).
Proof.
  unfold Orchestrator.collectVideoElements, Orchestrator.collectAudioElements,
    Orchestrator.collectTextElements.
  repeat split.
  - rewrite !filter_In, in_flat_map in H.
    destruct H as [[(tr & Htr & He) _] _].
    apply filter_In in Htr. destruct Htr as [Htr Hty].
    apply TrackType_eqb_spec in Hty. exists tr. auto.
  - rewrite !filter_In in H. destruct H as [_ H].
    apply is_media_item_type_spec in H.
    destruct H as (m & i & Hb & Hf & Hk). exists m, i.
    repeat split; try assumption.
    destruct (item_type i); auto; discriminate Hk.
  - intros [(tr & Htr & Hty & He) (m & i & Hb & Hf & Hk)].
    rewrite !filter_In, in_flat_map. repeat split.
    + exists tr. split; [|exact He]. apply filter_In. split; [exact Htr|].
      apply TrackType_eqb_spec. exact Hty.
    + unfold is_media. rewrite Hb. reflexivity.
    + apply is_media_item_type_spec. exists m, i. repeat split; try assumption.
      destruct Hk as [-> | ->]; reflexivity.
  - rewrite !filter_In, in_flat_map in H.
    destruct H as [[(tr & Htr & He) _] _].
    apply filter_In in Htr. destruct Htr as [Htr Hty].
    apply TrackType_eqb_spec in Hty. exists tr. auto.
  - rewrite !filter_In in H. destruct H as [_ H].
    apply is_media_item_type_spec in H.
    destruct H as (m & i & Hb & Hf & Hk). exists m, i.
    repeat split; try assumption.
    destruct (item_type i); auto; discriminate Hk.
  - intros [(tr & Htr & Hty & He) (m & i & Hb & Hf & Hk)].
    rewrite !filter_In, in_flat_map. repeat split.
    + exists tr. split; [|exact He]. apply filter_In. split; [exact Htr|].
      apply TrackType_eqb_spec. exact Hty.
    + unfold is_media. rewrite Hb. reflexivity.
    + apply is_media_item_type_spec. exists m, i. repeat split; try assumption.
      rewrite Hk. reflexivity.
  - rewrite filter_In, in_flat_map in H. tauto.
  - rewrite filter_In in H. destruct H as [_ H]. unfold is_text in H.
    destruct (body e) as [m|text]; [discriminate H|]. exists text. reflexivity.
  - intros [Hex (text & Hb)]. rewrite filter_In, in_flat_map.
    split; [exact Hex|]. unfold is_text. rewrite Hb. reflexivity.
Qed.

(** ** Audio sources *)

Section AudioSources.
Import AudioMixer.
Variable mediaItems : list MediaItem.

Lemma visit_element_appends (tr : TimelineTrack) (acc : list AudioSource)
    (e : TimelineElement) :
  visit_element mediaItems tr acc e
  = acc ++ visit_element mediaItems tr [] e.
Proof.
  unfold visit_element.
  destruct (body e) as [mediaId|text]; [|now rewrite app_nil_r].
  destruct (find_item mediaItems mediaId) as [item|];
    destruct (TrackType_eqb (track_type tr) TrackAudio),
             (TrackType_eqb (track_type tr) TrackMedia);
    try destruct (is_audio_item item && has_url item);
    try destruct (is_video_item item && has_url item);
    simpl; rewrite ?app_nil_r, <- ?app_assoc; reflexivity.
Qed.

Lemma visit_elements_flat_map (tr : TimelineTrack)
    (es : list TimelineElement) (acc : list AudioSource) :
  fold_left (visit_element mediaItems tr) es acc
  = acc ++ flat_map (visit_element mediaItems tr []) es.
Proof.
  revert acc. induction es as [|e es IH]; intros acc; simpl.
  - now rewrite app_nil_r.
  - rewrite IH, (visit_element_appends tr acc e).
    rewrite <- app_assoc. reflexivity.
Qed.

Lemma visit_tracks_flat_map (tracks : list TimelineTrack)
    (acc : list AudioSource) :
  fold_left
    (fun audioSources tr =>
       fold_left (visit_element mediaItems tr) (elements tr) audioSources)
    tracks acc
  = acc ++
    flat_map (fun tr => flat_map (visit_element mediaItems tr []) (elements tr))
             tracks.
Proof.
  revert acc. induction tracks as [|tr trs IH]; intros acc; simpl.
  - now rewrite app_nil_r.
  - rewrite IH, visit_elements_flat_map. rewrite <- app_assoc. reflexivity.
Qed.

Lemma findAudioSources_flat_map (tracks : list TimelineTrack) :
  findAudioSources tracks mediaItems
  = flat_map (fun tr => flat_map (visit_element mediaItems tr []) (elements tr))
             tracks.
Proof. unfold findAudioSources. apply visit_tracks_flat_map. Qed.

(** What one element contributes. *)
Lemma visit_element_source (tr : TimelineTrack) (e : TimelineElement)
    (s : AudioSource) :
  In s (visit_element mediaItems tr [] e) <->
  source_element s = e /\
  has_url (source_mediaItem s) = true /\
  exists mediaId,
    body e = MediaBody mediaId /\
    find_item mediaItems mediaId = Some (source_mediaItem s) /\
    ((track_type tr = TrackAudio /\
      item_type (source_mediaItem s) = MediaAudio /\
      source_type s = AudioSourceType) \/
     (track_type tr = TrackMedia /\
      item_type (source_mediaItem s) = MediaVideo /\
      source_type s = VideoSourceType)).
Proof.
  unfold visit_element.
  destruct (body e) as [mediaId|text].
  2:{ split; [intros []|]. intros (_ & _ & m & Hb & _). discriminate Hb. }
  destruct (find_item mediaItems mediaId) as [item|] eqn:Ef.
  2:{ split.
      - destruct (TrackType_eqb (track_type tr) TrackAudio),
                 (TrackType_eqb (track_type tr) TrackMedia); intros [].
      - intros (_ & _ & m & Hb & Hf & _). injection Hb as <-. congruence. }
  destruct (track_type tr) eqn:Ety; simpl.
  - split; [intros []|].
    intros (_ & _ & m & _ & _ & [(H & _)|(H & _)]); discriminate H.
  - unfold is_audio_item.
    destruct (item_type item) eqn:Eit; simpl;
      try (split; [intros []|];
           intros (_ & _ & m & Hb & Hf & [(_ & H & _)|(H & _)]);
           [injection Hb as <-; rewrite Ef in Hf; injection Hf as E;
            rewrite <- E in H; congruence | discriminate H]).
    destruct (has_url item) eqn:Eu; simpl.
    + split.
      * intros [<-|[]]. simpl. repeat split; try assumption.
        exists mediaId. repeat split; auto.
      * intros (He & Hu & m & Hb & Hf & Hc). left.
        injection Hb as <-. rewrite Ef in Hf. injection Hf as Hi.
        destruct s as [ty el it]. simpl in *. subst.
        destruct Hc as [(_ & _ & ->)|(H & _)]; [reflexivity|discriminate H].
    + split; [intros []|].
      intros (_ & Hu & m & Hb & Hf & _). injection Hb as <-.
      rewrite Ef in Hf. injection Hf as E. rewrite <- E in Hu. congruence.
  - unfold is_video_item.
    destruct (item_type item) eqn:Eit; simpl;
      try (split; [intros []|];
           intros (_ & _ & m & Hb & Hf & [(H & _)|(_ & H & _)]);
           [discriminate H |
            injection Hb as <-; rewrite Ef in Hf; injection Hf as E;
            rewrite <- E in H; congruence]).
    destruct (has_url item) eqn:Eu; simpl.
    + split.
      * intros [<-|[]]. simpl. repeat split; try assumption.
        exists mediaId. repeat split; auto.
      * intros (He & Hu & m & Hb & Hf & Hc). left.
        injection Hb as <-. rewrite Ef in Hf. injection Hf as Hi.
        destruct s as [ty el it]. simpl in *. subst.
        destruct Hc as [(H & _)|(_ & _ & ->)]; [discriminate H|reflexivity].
    + split; [intros []|].
      intros (_ & Hu & m & Hb & Hf & _). injection Hb as <-.
      rewrite Ef in Hf. injection Hf as E. rewrite <- E in Hu. congruence.
  - split; [intros []|].
    intros (_ & _ & m & _ & _ & [(H & _)|(H & _)]); discriminate H.
Qed.

End AudioSources.

(** X4: [findAudioSources] finds exactly the clips that can sound: a media
    element of an audio track whose item is an audio, or of a media track
    whose item is a video, the item having a non-empty URL in both cases.
    Video tracks, text tracks and items without URL yield nothing. *)
Theorem findAudioSources_membership (tracks : list TimelineTrack)
    (mediaItems : list MediaItem) (s : AudioMixer.AudioSource) :
  In s (AudioMixer.findAudioSources tracks mediaItems) <->
  AudioMixer.has_url (AudioMixer.source_mediaItem s) = true /\
  exists tr mediaId,
    In tr tracks /\ In (AudioMixer.source_element s) (elements tr) /\
    body (AudioMixer.source_element s) = MediaBody mediaId /\
    find_item mediaItems mediaId = Some (AudioMixer.source_mediaItem s) /\
    ((track_type tr = TrackAudio /\
      item_type (AudioMixer.source_mediaItem s) = MediaAudio /\
      AudioMixer.source_type s = AudioMixer.AudioSourceType) \/
     (track_type tr = TrackMedia /\
      item_type (AudioMixer.source_mediaItem s) = MediaVideo /\
      AudioMixer.source_type s = AudioMixer.VideoSourceType)).
Proof.
  rewrite findAudioSources_flat_map, in_flat_map. split.
  - intros (tr & Htr & Hs). apply in_flat_map in Hs.
    destruct Hs as (e & He & Hs). apply visit_element_source in Hs.
    destruct Hs as (<- & Hu & m & Hb & Hf & Hc).
    split; [exact Hu|]. exists tr, m. auto.
  - intros (Hu & tr & m & Htr & He & Hb & Hf & Hc).
    exists tr. split; [exact Htr|]. apply in_flat_map.
    exists (AudioMixer.source_element s). split; [exact He|].
    apply visit_element_source. split; [reflexivity|]. split; [exact Hu|].
    exists m. auto.
Qed.

(** ** The mixed stream *)

Section MixedStream.
Import AudioMixer.
Variable b : AudioBrowser.

(** A source that reaches the gain node, in time or late. *)
Local Abbreviation heard :=
  (fun source => connect_ok b source || connect_late b source).

Lemma connectAll_filter (audioSources : list AudioSource) :
  connectAll b audioSources
  = (List.length (List.filter (connect_ok b) audioSources),
     map schedule (List.filter heard audioSources)).
Proof.
  unfold connectAll.
  assert (G : forall l n ps,
            fold_left
              (fun st source =>
                 if connect_ok b source
                 then (S (fst st), snd st ++ [schedule source])
                 else if connect_late b source
                 then (fst st, snd st ++ [schedule source])
                 else st) l (n, ps)
            = ((n + List.length (List.filter (connect_ok b) l))%nat,
               ps ++ map schedule (List.filter heard l))).
  { induction l as [|s l IH]; intros n ps; simpl.
    - rewrite Nat.add_0_r, app_nil_r. reflexivity.
    - destruct (connect_ok b s); simpl.
      + rewrite IH. rewrite <- app_assoc. f_equal. lia.
      + destruct (connect_late b s); simpl.
        * rewrite IH. rewrite <- app_assoc. reflexivity.
        * apply IH. }
  rewrite G. reflexivity.
Qed.

Lemma createSafeAudioStream_value (tracks : list TimelineTrack)
    (mediaItems : list MediaItem) (duration : Q) :
  createSafeAudioStream b tracks mediaItems duration
  = match List.filter (connect_ok b) (findAudioSources tracks mediaItems) with
    | [] => None
    | _ :: _ =>
        if audioGraph_ok b
        then Some {| gain := 8 # 10;
                     playbacks :=
                       map schedule
                           (List.filter heard
                              (findAudioSources tracks mediaItems)) |}
        else None
    end.
Proof.
  unfold createSafeAudioStream.
  rewrite connectAll_filter.
  destruct (findAudioSources tracks mediaItems) as [|s sources].
  - reflexivity.
  - cbn [List.length Nat.eqb].
    destruct (List.filter (connect_ok b) (s :: sources))
      as [|c cs]; destruct (audioGraph_ok b); reflexivity.
Qed.

End MixedStream.

(** X5: the mix succeeds as soon as one source connects within the 5
    seconds the loop waits for it: the recorder is then set up with an audio
    track at 128 kbit/s, and the stream carries, behind a gain of 0.8, the
    playbacks of the sources that connect in time and also of those that
    connect only after their time-out, in the order the sources were found.
    It is null when nothing was found, when the audio graph cannot be built,
    or when no source connects in time. *)
Theorem mixed_stream_of_connected_sources (b : AudioMixer.AudioBrowser)
    (tracks : list TimelineTrack) (mediaItems : list MediaItem)
    (duration : Q) (settings : ProjectSettings) :
  let sources := AudioMixer.findAudioSources tracks mediaItems in
  let inTime := List.filter (AudioMixer.connect_ok b) sources in
  let heard :=
    List.filter
      (fun source =>
         AudioMixer.connect_ok b source || AudioMixer.connect_late b source)
      sources in
  match AudioMixer.createSafeAudioStream b tracks mediaItems duration with
  | Some stream =>
      AudioMixer.audioGraph_ok b = true /\ inTime <> [] /\
      AudioMixer.gain stream = 8 # 10 /\
      AudioMixer.playbacks stream = map AudioMixer.schedule heard /\
      (AudioMixer.audioContext_ok b = true ->
       AudioMixer.audioBitsPerSecond
         (AudioMixer.recorderOptions
            (fst (AudioMixer.tryAudio b tracks mediaItems duration)) settings)
       = Some 128000)
  | None => AudioMixer.audioGraph_ok b = false \/ inTime = []
  end.
Proof.
  cbv zeta. unfold AudioMixer.tryAudio.
  rewrite createSafeAudioStream_value.
  destruct (List.filter (AudioMixer.connect_ok b)
              (AudioMixer.findAudioSources tracks mediaItems)) as [|c cs].
  - right. reflexivity.
  - destruct (AudioMixer.audioGraph_ok b).
    + repeat split; try reflexivity; try discriminate.
      intros ->. reflexivity.
    + left. reflexivity.
Qed.


(** ** Drawing one element *)

(** X7: a video is only ever sought to a time between 0 and its length, and only
    once it reports [readyState >= 2]; an image is never sought. *)
Theorem seek_target_clamped (e : TimelineElement) (currentTime : Q)
    (mediaElement : MediaHandle) :
  match Renderer.seek_target e currentTime mediaElement with
  | Some targetTime =>
      0 <= targetTime /\
      exists w h readyState videoDuration,
        mediaElement = HTMLVideoElement w h readyState videoDuration /\
        (2 <= readyState)%Z /\
        targetTime <= num_or videoDuration 0 /\
        targetTime ==
          Qmin (Qmax 0 (currentTime - startTime e + trimStart e))
               (num_or videoDuration 0)
  | None =>
      match mediaElement with
      | HTMLImageElement _ _ => True
      | HTMLVideoElement _ _ readyState videoDuration =>
          (readyState < 2)%Z \/ num_or videoDuration 0 < 0
      end
  end.
Proof.
  unfold Renderer.seek_target.
  destruct mediaElement as [nw nh|w h rs dur]; [exact I|].
  set (adj := currentTime - startTime e + num_or (Some (trimStart e)) 0).
  assert (Eadj : adj == currentTime - startTime e + trimStart e).
  { unfold adj, num_or. destruct (Qeq_bool (trimStart e) 0) eqn:E.
    - apply Qeq_bool_eq in E. rewrite E. reflexivity.
    - reflexivity. }
  destruct (2 <=? rs)%Z eqn:Er; simpl andb.
  - destruct (Qle_bool 0 (Qmin (Qmax 0 adj) (num_or dur 0))) eqn:Et.
    + apply Qle_bool_iff in Et. split; [exact Et|].
      exists w, h, rs, dur. split; [reflexivity|].
      split; [apply Z.leb_le; exact Er|]. split.
      * apply Q.le_min_r.
      * rewrite Eadj. reflexivity.
    + right. apply Qltb_lt. unfold Qltb.
      assert (Hn : Qle_bool 0 (num_or dur 0) = false).
      { destruct (Qle_bool 0 (num_or dur 0)) eqn:Ed; [|reflexivity].
        apply Qle_bool_iff in Ed.
        assert (Hm : 0 <= Qmin (Qmax 0 adj) (num_or dur 0)).
        { apply Q.min_glb; [apply Q.le_max_l|exact Ed]. }
        apply Qle_bool_iff in Hm. congruence. }
      rewrite Hn. reflexivity.
  - left. apply Z.leb_gt. exact Er.
Qed.



(** ** Sorting and skipping *)

Section SortFilter.
Context {A : Type} (key : A -> Q).

Lemma StronglySorted_filter (R : A -> A -> Prop) (p : A -> bool)
    (l : list A) :
  StronglySorted R l -> StronglySorted R (List.filter p l).
Proof.
  induction 1 as [|a l Hs IH Ha]; simpl; [constructor|].
  destruct (p a); [|exact IH].
  constructor; [exact IH|].
  apply Forall_forall. intros x Hx. apply filter_In in Hx.
  rewrite Forall_forall in Ha. apply Ha. tauto.
Qed.

Lemma filter_filter_comm (p q : A -> bool) (l : list A) :
  List.filter p (List.filter q l) = List.filter q (List.filter p l).
Proof.
  induction l as [|a l IH]; simpl; [reflexivity|].
  destruct (p a) eqn:Ep, (q a) eqn:Eq; simpl; rewrite ?Ep, ?Eq, IH;
    reflexivity.
Qed.

(** Leaving elements out before or after a stable sort is the same. *)
Lemma sort_filter (p : A -> bool) (l : list A) :
  StableSort.sort key (List.filter p l)
  = List.filter p (StableSort.sort key l).
Proof.
  symmetry. apply stable_sort_unique.
  - apply StronglySorted_filter. apply sort_sorted.
  - intros k. rewrite filter_filter_comm, sort_stable.
    apply filter_filter_comm.
Qed.

End SortFilter.

Lemma Permutation_filter_length {A : Type} (p : A -> bool) (l l' : list A) :
  Permutation l l' ->
  List.length (List.filter p l) = List.length (List.filter p l').
Proof.
  induction 1 as [|x l l' _ IH|x y l|l l' l'' _ IH1 _ IH2]; simpl.
  - reflexivity.
  - destruct (p x); simpl; congruence.
  - destruct (p x), (p y); reflexivity.
  - congruence.
Qed.

Section FrameFacts.
Import Timeline Renderer Drawable.

Variable drawImage_ok : MediaHandle -> bool.
Variable canvas : Canvas.
Variable currentTime : Q.
Variable mediaElements : gmap string (option MediaHandle).

Local Abbreviation opsOf :=
  (Renderer.opsOf drawImage_ok canvas currentTime mediaElements).

Lemma opsOf_without_handle (a : Active) :
  has_handle mediaElements a = false -> opsOf a = [].
Proof.
  unfold has_handle, Renderer.opsOf, renderElement, renderMediaElementSafe.
  destruct (body (element a)) as [mediaId|text]; [|discriminate].
  destruct (mediaItem a) as [item|]; [|discriminate].
  destruct (String.eqb mediaId "test"); [discriminate|]. simpl.
  destruct (mediaElements !! item_id item) as [[h|]|];
    [discriminate|reflexivity|reflexivity].
Qed.

Lemma flat_map_filter_nil {X Y : Type} (f : X -> list Y) (p : X -> bool)
    (l : list X) :
  (forall x, p x = false -> f x = []) ->
  flat_map f (List.filter p l) = flat_map f l.
Proof.
  intros H. induction l as [|x l IH]; simpl; [reflexivity|].
  destruct (p x) eqn:E; simpl; rewrite IH; [reflexivity|].
  rewrite (H x E). reflexivity.
Qed.

Lemma opsOf_text (a : Active) :
  is_text_active a = true ->
  List.length (List.filter is_text_op (opsOf a)) = 1%nat /\
  List.filter is_media_op (opsOf a) = [] /\
  List.filter is_background (opsOf a) = [].
Proof.
  unfold is_text_active, is_text, Renderer.opsOf, renderElement.
  destruct (body (element a)) as [mediaId|text]; [discriminate|].
  intros _. unfold renderTextElementSafe. simpl. auto.
Qed.

Lemma opsOf_media (a : Active) :
  is_text_active a = false ->
  List.filter is_text_op (opsOf a) = [] /\
  (List.length (List.filter is_media_op (opsOf a)) <= 1)%nat /\
  List.filter is_background (opsOf a) = [].
Proof.
  unfold is_text_active, is_text, Renderer.opsOf, renderElement.
  destruct (body (element a)) as [mediaId|text]; [|discriminate].
  intros _. unfold renderMediaElementSafe.
  destruct (mediaItem a) as [item|]; [|simpl; auto].
  destruct (String.eqb mediaId "test"); [simpl; auto|].
  destruct (mediaElements !! item_id item) as [[h|]|]; try (simpl; auto).
  destruct (seek_target (element a) currentTime h), (drawImage_ok h);
    simpl; auto.
Qed.

Lemma ops_counts (l : list Active) :
  List.length (List.filter is_text_op (flat_map opsOf l))
    = List.length (List.filter is_text_active l) /\
  (List.length (List.filter is_media_op (flat_map opsOf l))
    <= List.length (List.filter is_media_active l))%nat /\
  List.filter is_background (flat_map opsOf l) = [].
Proof.
  induction l as [|a l (IH1 & IH2 & IH3)]; [simpl; auto|].
  cbn [flat_map]. rewrite !filter_app, !length_app, IH3.
  cbn [List.filter].
  assert (Hm : is_media_active a = negb (is_text_active a)).
  { unfold is_media_active, is_text_active, is_media, is_text.
    destruct (body (element a)); reflexivity. }
  rewrite Hm.
  destruct (is_text_active a) eqn:E.
  - destruct (opsOf_text a E) as (H1 & H2 & H3).
    rewrite H1, H2, H3, IH1. simpl. split; [reflexivity|]. split; [lia|].
    reflexivity.
  - destruct (opsOf_media a E) as (H1 & H2 & H3).
    rewrite H1, H3, IH1. simpl. split; [reflexivity|]. split; [lia|].
    reflexivity.
Qed.

End FrameFacts.

(** X9: a media element whose item has no entry in the preload table, or
    a null one, is skipped and nothing else changes: the active elements
    render exactly as they would without such elements. *)
Theorem unloaded_media_is_skipped (drawImage_ok : MediaHandle -> bool)
    (ctx : Renderer.Context2D) (canvas : Canvas) (currentTime : Q)
    (mediaElements : gmap string (option MediaHandle))
    (activeElements : list Timeline.Active) :
  Renderer.renderActiveElementsSafe drawImage_ok ctx canvas activeElements
    currentTime mediaElements
  = Renderer.renderActiveElementsSafe drawImage_ok ctx canvas
      (List.filter (Drawable.has_handle mediaElements) activeElements)
      currentTime mediaElements.
Proof.
  rewrite !renderActiveElementsSafe_appends. f_equal.
  unfold Renderer.sortedElements. rewrite sort_filter.
  symmetry. apply flat_map_filter_nil.
  intros a. apply opsOf_without_handle.
Qed.

(** X10: a frame is the background fill, over the whole canvas and black unless
    the project sets a colour, followed by the elements' drawings: the fill
    happens once, every active text element is drawn exactly once, and each
    active media element at most once. *)
Theorem frame_composition (drawImage_ok : MediaHandle -> bool)
    (ctx : Renderer.Context2D) (canvas : Canvas)
    (backgroundColor : option string) (currentTime : Q)
    (tracks : list TimelineTrack) (mediaItems : list MediaItem)
    (mediaElements : gmap string (option MediaHandle)) :
  let active :=
    Timeline.getActiveElementsAtTime currentTime tracks mediaItems in
  exists drawn,
    Renderer.drawFrame drawImage_ok ctx canvas backgroundColor currentTime
      tracks mediaItems mediaElements
    = ctx ++
      Renderer.FillBackground
        (match backgroundColor with
         | Some c => if String.eqb c "" then "#000000"%string else c
         | None => "#000000"%string
         end) (width canvas) (height canvas) :: drawn /\
    List.filter Drawable.is_background drawn = [] /\
    List.length (List.filter Renderer.is_text_op drawn)
      = List.length (List.filter Drawable.is_text_active active) /\
    (List.length (List.filter Renderer.is_media_op drawn)
      <= List.length (List.filter Drawable.is_media_active active))%nat.
Proof.
  cbv zeta. eexists. split; [apply drawFrame_sequence|].
  set (active := Timeline.getActiveElementsAtTime currentTime tracks
                   mediaItems).
  destruct (ops_counts drawImage_ok canvas currentTime mediaElements
              (Renderer.sortedElements active)) as (H1 & H2 & H3).
  assert (P : forall p : Timeline.Active -> bool,
            List.length (List.filter p (Renderer.sortedElements active))
            = List.length (List.filter p active)).
  { intros p. apply Permutation_filter_length. apply sort_perm. }
  rewrite P in H1, H2. auto.
Qed.

(** ** Preloading: time and slots *)

Section PreloadTime.
Import Async Preloader PreloadBudget.

Variable browser : MediaItem -> LoadOutcome.

Lemma waitOf_limit (mediaItem : MediaItem) :
  (waitOf browser mediaItem <= waitLimit mediaItem)%N.
Proof.
  unfold waitOf, waitLimit.
  destruct (item_type mediaItem);
    destruct (browser mediaItem) as [ms w h rs d|ms| |reason];
    unfold videoTimeout, imageTimeout; lia.
Qed.

Lemma waited_limit (mediaItems : list MediaItem) :
  (waited browser mediaItems <= totalLimit mediaItems)%N.
Proof.
  induction mediaItems as [|item rest IH]; [reflexivity|].
  cbn [waited totalLimit fold_right].
  fold (waited browser rest). fold (totalLimit rest).
  pose proof (waitOf_limit item). lia.
Qed.

Lemma preloadLoop_time (mediaItems : list MediaItem) (now : N)
    (m : gmap string (option Element)) :
  exists t,
    outcome (preloadLoop browser mediaItems now m)
    = Some (t, Fulfilled (slots browser mediaItems now m)) /\
    (t <= totalLimit mediaItems)%N.
Proof.
  destruct (preloadLoop_outcome browser mediaItems now m) as (t & Ht & Et).
  exists t. split; [exact Ht|]. rewrite Et. apply waited_limit.
Qed.

Lemma totalLimit_count (mediaItems : list MediaItem) :
  totalLimit mediaItems
  = (3000 * N.of_nat (List.length (List.filter is_image_item mediaItems))
     + 5000 * N.of_nat (List.length (List.filter is_video_item mediaItems)))%N.
Proof.
  induction mediaItems as [|item rest IH]; [reflexivity|].
  simpl totalLimit. rewrite IH. unfold waitLimit. simpl List.filter.
  unfold is_image_item, is_video_item, imageTimeout, videoTimeout.
  destruct (item_type item); simpl List.length; lia.
Qed.

Lemma slots_lookup_is_Some (mediaItems : list MediaItem) (now : N)
    (m : gmap string (option Element)) (id : string) :
  is_Some (slots browser mediaItems now m !! id) <->
  is_Some (m !! id) \/ In id (map item_id mediaItems).
Proof.
  revert now m. induction mediaItems as [|item rest IH]; intros now m.
  - simpl. tauto.
  - rewrite slots_cons, IH. simpl.
    destruct (String.eqb (item_id item) id) eqn:E.
    + apply String.eqb_eq in E. subst id.
      rewrite lookup_insert_eq. split; [auto|].
      intros _. left. eexists. reflexivity.
    + apply String.eqb_neq in E. rewrite lookup_insert_ne by exact E.
      tauto.
Qed.

Lemma slots_lookup_last (l1 l2 : list MediaItem) (x : MediaItem) (now : N)
    (m : gmap string (option Element)) :
  ~ In (item_id x) (map item_id l2) ->
  slots browser (l1 ++ x :: l2) now m !! item_id x
  = Some (slot browser (now + waited browser l1) x).
Proof.
  revert now m. induction l1 as [|y l1 IH]; intros now m Hn.
  - simpl app. rewrite slots_cons, slots_lookup_other by exact Hn.
    cbn [waited fold_right]. rewrite N.add_0_r.
    apply lookup_insert_eq.
  - simpl app. rewrite slots_cons, IH by exact Hn.
    cbn [waited fold_right]. fold (waited browser l1).
    rewrite N.add_assoc. reflexivity.
Qed.

End PreloadTime.

(** X11: the preload of a batch is over within 3 seconds per image and 5
    seconds per video, however the loads go; the table then has a slot for
    exactly the ids of the batch, and where an id occurs more than once the
    slot is that of the last item carrying it, made when the loop had
    waited for the items before it. *)
Theorem preload_time_and_slots
    (browser : MediaItem -> Preloader.LoadOutcome)
    (tracks : list TimelineTrack) (mediaItems : list MediaItem) :
  exists t m,
    Async.outcome
      (Preloader.preloadAllMediaElementsSafe browser tracks mediaItems)
    = Some (t, Async.Fulfilled m) /\
    (t <= 3000 * N.of_nat (List.length
                             (List.filter PreloadBudget.is_image_item
                                          mediaItems))
          + 5000 * N.of_nat (List.length
                               (List.filter PreloadBudget.is_video_item
                                            mediaItems)))%N /\
    (forall id, is_Some (m !! id) <-> In id (map item_id mediaItems)) /\
    (forall l1 x l2,
       mediaItems = l1 ++ x :: l2 ->
       ~ In (item_id x) (map item_id l2) ->
       m !! item_id x
       = Some (Preloader.slot browser (Preloader.waited browser l1) x)).
Proof.
  destruct (preloadLoop_time browser mediaItems 0 ∅) as (t & Ht & Hle).
  exists t, (Preloader.slots browser mediaItems 0 ∅).
  split; [exact Ht|]. split; [rewrite <- totalLimit_count; exact Hle|]. split.
  - intros id. rewrite slots_lookup_is_Some. rewrite lookup_empty.
    split; [intros [[x Hx]|H]; [discriminate Hx|exact H]|auto].
  - intros l1 x l2 -> Hn.
    rewrite (slots_lookup_last browser l1 l2 x 0 ∅ Hn).
    rewrite N.add_0_l. reflexivity.
Qed.

(** ** The render loop on the clock *)

Section LoopClockFacts.
Import RenderLoop LoopClock.

Variable totalFrames : Z.
Variable frameTime : Q.
Variable draw : N -> Q -> Renderer.Context2D -> Renderer.Context2D.

Local Abbreviation goal := (RenderLoop.frameGoal totalFrames).

Lemma drawnAt_S (k : nat) : drawnAt (S k) = (drawnAt k + frameDelay)%N.
Proof. unfold drawnAt, frameDelay. lia. Qed.

Lemma renderFrame_schedule (s : State) (k : nat) (wd : bool) :
  currentFrame s = k -> renderTimeout s = Some O -> (0 < next_id s)%nat ->
  (k < goal)%nat -> clock s = drawnAt k ->
  (if wd
   then exists W, timers s = [W] /\ is_watchdog W /\
                  fire_at W = renderTimeoutDuration
   else timers s = []) ->
  (wd = true -> settled s = None /\ (drawnAt k < renderTimeoutDuration)%N) ->
  (wd = false ->
   settled s = Some (renderTimeoutDuration, timedOut) /\
   (renderTimeoutDuration <= drawnAt k)%N) ->
  onSchedule totalFrames (renderFrame totalFrames frameTime draw s).
Proof.
  intros Hf Ht Hn Hk Hc Htm Harmed Hfired. unfold renderFrame.
  destruct (totalFrames <=? Z.of_nat (currentFrame (drawCurrent frameTime draw s)))%Z
    eqn:E; simpl in E; rewrite Hf in E.
  - left. apply (last_frame_test totalFrames k Hk) in E.
    simpl renderTimeout. rewrite Ht. split.
    + simpl. destruct wd.
      * destruct Htm as (W & -> & [_ HW] & _). simpl. rewrite HW. reflexivity.
      * rewrite Htm. reflexivity.
    + simpl. unfold settlement. rewrite <- E.
      replace (S k - 1)%nat with k by lia. destruct wd.
      * destruct (Harmed eq_refl) as [Hs Hlt]. rewrite Hs, Hc.
        apply N.ltb_lt in Hlt. rewrite Hlt. reflexivity.
      * destruct (Hfired eq_refl) as [Hs Hle]. rewrite Hs.
        apply N.ltb_ge in Hle. rewrite Hle. reflexivity.
  - right. exists (S k), wd.
    assert (HS : (S k < goal)%nat).
    { destruct (Nat.eq_dec (S k) goal) as [Heq|Hne].
      - apply (last_frame_test totalFrames k Hk) in Heq. congruence.
      - lia. }
    split; simpl.
    + exact HS.
    + congruence.
    + exact Ht.
    + lia.
    + destruct wd.
      * destruct Htm as (W & -> & HW & HWt). simpl.
        apply due_both; try assumption.
        -- split; simpl; [reflexivity|lia].
        -- simpl. rewrite Hc. symmetry. apply drawnAt_S.
      * rewrite Htm. simpl. apply due_frame.
        -- split; simpl; [reflexivity|lia].
        -- simpl. rewrite Hc. symmetry. apply drawnAt_S.
    + rewrite Hc, drawnAt_S. lia.
    + intros ->. destruct (Harmed eq_refl) as [Hs Hlt].
      split; [exact Hs|]. rewrite Hc. exact Hlt.
    + intros ->. destruct (Hfired eq_refl) as [Hs Hle].
      split; [exact Hs|]. rewrite drawnAt_S. lia.
Qed.

Lemma step_waiting (s : State) (k : nat) (wd : bool) :
  waiting totalFrames k wd s ->
  exists s',
    step totalFrames frameTime draw s = Some s' /\ onSchedule totalFrames s'.
Proof.
  intros [Hk Hf Ht Hn Hdue Hclock Harmed Hfired]. unfold step.
  inversion Hdue as [W F HW HWt HF HFt Ewd Etm|F HF HFt Ewd Etm]; subst wd.
  - destruct HW as [HWc HWi]. destruct HF as [HFc HFi].
    destruct (Harmed eq_refl) as [Hs Hlt].
    assert (HFb : Nat.eqb (timer_id F) 0 = false) by now apply Nat.eqb_neq.
    simpl. destruct (fire_at W <=? fire_at F)%N eqn:Ecmp.
    + apply N.leb_le in Ecmp. rewrite HWt, HFt in Ecmp.
      eexists. split; [reflexivity|]. right. exists k, false.
      unfold fire. rewrite HWc. split; simpl; try assumption.
      * rewrite <- Etm. simpl. rewrite HWi, HFb. simpl.
        apply due_frame; [split; assumption|exact HFt].
      * rewrite HWt. lia.
      * discriminate.
      * intros _. rewrite Hs, HWt. split; [|exact Ecmp].
        replace (N.max (clock s) renderTimeoutDuration)
          with renderTimeoutDuration by lia.
        reflexivity.
    + apply N.leb_gt in Ecmp. rewrite HWt, HFt in Ecmp.
      eexists. split; [reflexivity|].
      unfold fire. rewrite HFc.
      apply (renderFrame_schedule _ k true); simpl;
        try assumption; try discriminate.
      * rewrite HFt. lia.
      * exists W. rewrite <- Etm. simpl. rewrite HWi.
        rewrite Nat.eqb_sym, HFb, Nat.eqb_refl. simpl.
        split; [reflexivity|]. split; [split; assumption|exact HWt].
      * intros _. split; [exact Hs|exact Ecmp].
  - destruct HF as [HFc HFi].
    destruct (Hfired eq_refl) as [Hs Hle].
    simpl. eexists. split; [reflexivity|].
    unfold fire. rewrite HFc.
    apply (renderFrame_schedule _ k false); simpl;
      try assumption; try discriminate.
    + rewrite HFt. lia.
    + rewrite <- Etm. simpl. rewrite Nat.eqb_refl. reflexivity.
Qed.

Lemma run_onSchedule (fuel : nat) (s : State) :
  onSchedule totalFrames s ->
  onSchedule totalFrames (run totalFrames frameTime draw fuel s).
Proof.
  revert s. induction fuel as [|fuel IH]; intros s Hs; [exact Hs|].
  simpl. destruct Hs as [[Ht Hset]|(k & wd & Hw)].
  - unfold step. rewrite Ht. simpl. left. split; assumption.
  - destruct (step_waiting s k wd Hw) as (s' & Hstep & Hs').
    rewrite Hstep. apply IH. exact Hs'.
Qed.

Lemma start_onSchedule (ctx0 : Renderer.Context2D) :
  onSchedule totalFrames (start totalFrames frameTime draw ctx0).
Proof.
  unfold start. apply (renderFrame_schedule _ O true); simpl;
    try reflexivity; try lia; try discriminate.
  - unfold RenderLoop.frameGoal. lia.
  - eexists. split; [reflexivity|]. split; [split; reflexivity|reflexivity].
  - intros _. split; reflexivity.
Qed.

Lemma waiting_has_timer (k : nat) (wd : bool) (s : State) :
  waiting totalFrames k wd s -> timers s <> [].
Proof.
  intros [_ _ _ _ Hdue _ _ _] E. rewrite E in Hdue. inversion Hdue.
Qed.

End LoopClockFacts.

Lemma renderLoop_settlement (duration : Q) (settings : ProjectSettings)
    (draw : N -> Q -> Renderer.Context2D -> Renderer.Context2D)
    (ctx0 : Renderer.Context2D) :
  RenderLoop.settled (RenderLoop.renderLoop duration settings draw ctx0)
  = LoopClock.settlement
      (Z.to_nat (Z.max 1 (RenderLoop.totalFrames duration settings))).
Proof.
  destruct (renderLoop_frames duration settings draw ctx0) as [_ Ht].
  cbv zeta in Ht.
  pose proof (run_onSchedule (RenderLoop.totalFrames duration settings)
                (RenderLoop.frameTime settings) draw 601 _
                (start_onSchedule (RenderLoop.totalFrames duration settings)
                   (RenderLoop.frameTime settings) draw ctx0)) as Hs.
  fold (RenderLoop.renderLoop duration settings draw ctx0) in Hs.
  destruct Hs as [[_ Hset]|(k & wd & Hw)].
  - exact Hset.
  - exfalso. exact (waiting_has_timer _ _ _ _ Hw Ht).
Qed.

Lemma settlement_cases (n : nat) :
  LoopClock.settlement n
  = if (n <=? 400)%nat
    then Some ((50 * N.of_nat (n - 1))%N, Async.Fulfilled tt)
    else Some (20000%N, Async.Rejected "Video rendering timed out").
Proof.
  unfold LoopClock.settlement, LoopClock.drawnAt, RenderLoop.frameDelay,
    RenderLoop.renderTimeoutDuration, LoopClock.timedOut.
  destruct (n <=? 400)%nat eqn:E.
  - apply Nat.leb_le in E.
    assert (H : (50 * N.of_nat (n - 1) <? 20000)%N = true)
      by (apply N.ltb_lt; lia).
    rewrite H. reflexivity.
  - apply Nat.leb_gt in E.
    assert (H : (50 * N.of_nat (n - 1) <? 20000)%N = false)
      by (apply N.ltb_ge; lia).
    rewrite H. reflexivity.
Qed.

(** X12: how the promise of the render loop ends, on a clock where a
    callback takes no time: frame [i] is drawn at [50 * i] ms, so with [n]
    frames to draw ([n] being [min(ceil(duration * fps), 600)], or 1 if that
    is less) the promise is resolved at [50 * (n - 1)] ms when that is before
    the 20-second watchdog, that is for at most 400 frames, and is rejected
    by the watchdog at 20000 ms otherwise, the frames still being drawn. *)
Theorem render_promise_settlement (duration : Q) (settings : ProjectSettings)
    (draw : N -> Q -> Renderer.Context2D -> Renderer.Context2D)
    (ctx0 : Renderer.Context2D) :
  let n := Z.to_nat (Z.max 1 (RenderLoop.totalFrames duration settings)) in
  let s := RenderLoop.renderLoop duration settings draw ctx0 in
  RenderLoop.settled s
    = (if (n <=? 400)%nat
       then Some ((50 * N.of_nat (n - 1))%N, Async.Fulfilled tt)
       else Some (20000%N, Async.Rejected "Video rendering timed out")) /\
  List.length (RenderLoop.rendered s) = n /\
  (1 <= n <= 600)%nat.
Proof.
  cbv zeta. split; [|split].
  - rewrite renderLoop_settlement. apply settlement_cases.
  - destruct (renderLoop_frames duration settings draw ctx0) as [Hr _].
    cbv zeta in Hr. rewrite Hr. unfold RenderLoop.frames.
    rewrite length_map, length_seq. reflexivity.
  - unfold RenderLoop.totalFrames, RenderLoop.maxFrames. lia.
Qed.

Section LoopCanvasFacts.
Import RenderLoop LoopClock.

Variable totalFrames : Z.
Variable frameTime : Q.
Variable draw : N -> Q -> Renderer.Context2D -> Renderer.Context2D.
Variable ctx0 : Renderer.Context2D.

Local Abbreviation painted := (LoopClock.painted draw ctx0).

(** A frame drawn when the clock shows its time. *)
Lemma renderFrame_painted (s : State) :
  clock s = drawnAt (currentFrame s) ->
  painted s -> painted (renderFrame totalFrames frameTime draw s).
Proof.
  unfold LoopClock.painted, renderFrame. intros Hc H.
  destruct (totalFrames <=? _)%Z.
  - destruct (renderTimeout (drawCurrent frameTime draw s)); simpl;
      rewrite fold_left_app, <- H, Hc; reflexivity.
  - simpl. rewrite fold_left_app, <- H, Hc. reflexivity.
Qed.

Lemma fire_painted (s : State) (k : nat) (wd : bool) (tm : Timer) :
  waiting totalFrames k wd s -> In tm (timers s) -> painted s ->
  painted (fire totalFrames frameTime draw tm s).
Proof.
  intros [Hk Hf Ht Hn Hdue Hclock Harmed Hfired] Hin Hp.
  assert (Hframe : callback tm = RenderFrameCallback ->
                   fire_at tm = drawnAt k).
  { inversion Hdue as [W F HW HWt HF HFt Ewd Etm|F HF HFt Ewd Etm];
      rewrite <- Etm in Hin; simpl in Hin.
    - destruct Hin as [<-|[<-|[]]].
      + destruct HW as [HWc _]. intros H. congruence.
      + intros _. exact HFt.
    - destruct Hin as [<-|[]]. intros _. exact HFt. }
  unfold fire. destruct (callback tm) eqn:Ec.
  - apply renderFrame_painted.
    + simpl. rewrite Hf, (Hframe eq_refl). lia.
    + exact Hp.
  - exact Hp.
Qed.

Lemma earliest_In (l : list Timer) (tm : Timer) :
  earliest l = Some tm -> In tm l.
Proof.
  revert tm. induction l as [|u l IH]; intros tm; simpl; [discriminate|].
  destruct (earliest l) as [v|].
  - destruct (fire_at u <=? fire_at v)%N; intros H; injection H as <-.
    + now left.
    + right. now apply IH.
  - intros H. injection H as <-. now left.
Qed.

Lemma run_painted (fuel : nat) (s : State) :
  onSchedule totalFrames s -> painted s ->
  painted (run totalFrames frameTime draw fuel s).
Proof.
  revert s. induction fuel as [|fuel IH]; intros s Hs Hp; [exact Hp|].
  simpl. destruct Hs as [[Ht _]|(k & wd & Hw)].
  - unfold step. rewrite Ht. exact Hp.
  - destruct (step_waiting totalFrames frameTime draw s k wd Hw)
      as (s' & Hstep & Hs').
    rewrite Hstep. apply IH; [exact Hs'|].
    unfold step in Hstep.
    destruct (earliest (timers s)) as [tm|] eqn:E; [|discriminate Hstep].
    injection Hstep as <-.
    apply (fire_painted s k wd tm Hw (earliest_In _ _ E) Hp).
Qed.

Lemma start_painted : painted (start totalFrames frameTime draw ctx0).
Proof.
  unfold start. apply renderFrame_painted; reflexivity.
Qed.

End LoopCanvasFacts.

(** X13: the canvas the render loop leaves is the initial one with the frames
    [0 .. n-1] drawn on it in this order, frame [i] for the time
    [i * (1 / fps)] and with the clock of the loop at [50 * i] ms, where [n]
    is [min(ceil(duration * fps), 600)] or 1 if that is less: no frame is
    skipped, repeated or drawn out of order, also when the watchdog has
    rejected the promise meanwhile. *)
Theorem render_canvas_is_frames_in_order (duration : Q)
    (settings : ProjectSettings)
    (draw : N -> Q -> Renderer.Context2D -> Renderer.Context2D)
    (ctx0 : Renderer.Context2D) :
  let n := Z.to_nat (Z.max 1 (RenderLoop.totalFrames duration settings)) in
  RenderLoop.ctx (RenderLoop.renderLoop duration settings draw ctx0)
    = fold_left
        (fun c i => draw (50 * N.of_nat i)%N
                         (inject_Z (Z.of_nat i) * (1 / fps settings)) c)
        (seq 0 n) ctx0.
Proof.
  cbv zeta.
  pose proof (run_painted (RenderLoop.totalFrames duration settings)
                (RenderLoop.frameTime settings) draw ctx0 601 _
                (start_onSchedule (RenderLoop.totalFrames duration settings)
                   (RenderLoop.frameTime settings) draw ctx0)
                (start_painted (RenderLoop.totalFrames duration settings)
                   (RenderLoop.frameTime settings) draw ctx0)) as H.
  fold (RenderLoop.renderLoop duration settings draw ctx0) in H.
  unfold LoopClock.painted in H. rewrite H.
  destruct (renderLoop_frames duration settings draw ctx0) as [Hr _].
  cbv zeta in Hr. rewrite Hr. unfold RenderLoop.frames, RenderLoop.frameTime.
  generalize (seq 0 (Z.to_nat (Z.max 1 (RenderLoop.totalFrames duration settings)))).
  clear H Hr. intros l. revert ctx0.
  induction l as [|i l IH]; intros c0; [reflexivity|]. simpl. apply IH.
Qed.

(** ** Download names *)

Section SanitizeFacts.
Import Orchestrator Delivery.

Lemma sanitize_char (c : Ascii.ascii) :
  filename_char (if is_alnum c then c else "_"%char).
Proof.
  unfold filename_char. destruct (is_alnum c) eqn:E; [left; exact E|right].
  reflexivity.
Qed.

Lemma sanitize_keeps (c : Ascii.ascii) :
  (if is_alnum c then c else "_"%char) = c <-> filename_char c.
Proof.
  unfold filename_char. destruct (is_alnum c) eqn:E.
  - split; [left; reflexivity|reflexivity].
  - split.
    + intros <-. right. reflexivity.
    + intros [H|H]; [discriminate H|]. symmetry. exact H.
Qed.

End SanitizeFacts.

(** X14: the stem of every download name has the length of the project
    name and is made of ASCII letters, digits and underscores only; the
    name is kept as it is exactly when it is already made of these, and
    sanitising twice changes nothing more. *)
Theorem sanitize_filename_safe (projectName : string) :
  String.length (Orchestrator.sanitize projectName)
    = String.length projectName /\
  Forall Delivery.filename_char
         (list_ascii_of_string (Orchestrator.sanitize projectName)) /\
  (Orchestrator.sanitize projectName = projectName <->
   Forall Delivery.filename_char (list_ascii_of_string projectName)) /\
  Orchestrator.sanitize (Orchestrator.sanitize projectName)
    = Orchestrator.sanitize projectName.
Proof.
  induction projectName as [|c s (Hlen & Hall & Hfix & Hidem)].
  - repeat split; try constructor; reflexivity.
  - split; [|split; [|split]].
    + simpl. now rewrite Hlen.
    + simpl. constructor; [apply sanitize_char|exact Hall].
    + simpl. split.
      * intros H. injection H as Hc Hs. constructor.
        -- apply sanitize_keeps. exact Hc.
        -- apply Hfix. exact Hs.
      * intros H. inversion H as [|? ? Hc Hs]; subst. f_equal.
        -- apply sanitize_keeps. exact Hc.
        -- apply Hfix. exact Hs.
    + simpl. f_equal; [|exact Hidem].
      apply sanitize_keeps. apply sanitize_char.
Qed.

(** ** How long an export takes *)

Section ExportTime.
Import Async Orchestrator Delivery.

Variable b : Browser.
Variable options : ExportOptions.t.

Lemma exportRace_outcome :
  exists r,
    outcome (Orchestrator.exportRace b options)
    = Some (raceTime (fullRenderTier b options), r).
Proof.
  unfold Orchestrator.exportRace, race, raceTime. simpl outcome at 2.
  destruct (outcome (fullRenderTier b options)) as [[t r]|]; simpl.
  - destruct (t <? exportTimeout)%N eqn:E.
    + apply N.ltb_lt in E. exists r. rewrite N.min_l by lia. reflexivity.
    + apply N.ltb_ge in E. eexists. rewrite N.min_r by lia. reflexivity.
  - eexists. reflexivity.
Qed.

Lemma catchExport_outcome (error : string) :
  exists r, outcome (catchExport b options error) = Some (0%N, r).
Proof.
  unfold catchExport, createEmergencyFallback, triggerDownload.
  destruct (anchorDownload_ok b); eexists; reflexivity.
Qed.

Lemma raceTime_bound (tier : Promise unit) :
  (raceTime tier <= exportTimeout)%N.
Proof.
  unfold raceTime. destruct (outcome tier) as [[t r]|]; lia.
Qed.

End ExportTime.

Lemma exportVideo_outcome_time (b : Orchestrator.Browser)
    (options : ExportOptions.t) :
  exists t r,
    Async.outcome (Orchestrator.exportVideo b options) = Some (t, r) /\
    t = (Orchestrator.progressTime
         + Delivery.raceTime (Orchestrator.fullRenderTier b options))%N.
Proof.
  destruct (exportRace_outcome b options) as (r & Hr).
  pose proof (tryExport_outcome b options) as Ht. rewrite Hr in Ht.
  unfold Orchestrator.exportVideo.
  destruct r as [[]|reason].
  - erewrite outcome_try_catch_fulfilled by exact Ht.
    eexists _, _. split; [reflexivity|]. lia.
  - erewrite outcome_try_catch_rejected by exact Ht.
    rewrite outcome_delay.
    destruct (catchExport_outcome b options reason) as (r' & ->).
    eexists _, _. split; [reflexivity|]. lia.
Qed.

(** X15: [exportVideo] always settles, whatever the browser does: at 3.9
    seconds (the five progress messages) plus the time the full render
    takes, or plus 15 seconds when the render takes longer or never ends;
    so never before 3.9 and never after 18.9 seconds. *)
Theorem export_settles_in_time (b : Orchestrator.Browser)
    (options : ExportOptions.t) :
  exists t r,
    Async.outcome (Orchestrator.exportVideo b options) = Some (t, r) /\
    t = (Orchestrator.progressTime
         + Delivery.raceTime (Orchestrator.fullRenderTier b options))%N /\
    (3900 <= t <= 18900)%N.
Proof.
  pose proof (raceTime_bound (Orchestrator.fullRenderTier b options)) as Hb.
  destruct (exportVideo_outcome_time b options) as (t & r & Ho & Ht).
  exists t, r. split; [exact Ho|]. split; [exact Ht|].
  unfold Orchestrator.exportTimeout in Hb.
  unfold Orchestrator.progressTime in Ht. lia.
Qed.

(** ** Success without a file *)

Section NoDownloadLater.
Import Async Orchestrator Delivery.
Context {A : Type}.

Lemma no_download_delay (t : N) (p : Promise A) :
  no_download p -> no_download (delay t p).
Proof.
  unfold no_download, delay. simpl. intros H u f pl Hin.
  apply in_map_iff in Hin. destruct Hin as ([v e] & Heq & Hin).
  simpl in Heq. injection Heq as _ ->. exact (H v f pl Hin).
Qed.

End NoDownloadLater.

Section NoDownload.
Import Async Orchestrator Delivery.
Context {A B : Type}.

Lemma no_download_await (p : Promise A) (k : A -> Promise B) :
  no_download p -> (forall a, no_download (k a)) -> no_download (await p k).
Proof.
  unfold await. intros Hp Hk.
  destruct (outcome p) as [[t [a|r]]|]; try exact Hp.
  intros u f pl Hin. simpl in Hin. apply in_app_or in Hin.
  destruct Hin as [Hin|Hin]; [exact (Hp u f pl Hin)|].
  exact (no_download_delay t (k a) (Hk a) u f pl Hin).
Qed.

Lemma no_download_try_catch (p : Promise A) (h : string -> Promise A) :
  no_download p -> (forall e, no_download (h e)) ->
  no_download (try_catch p h).
Proof.
  unfold try_catch. intros Hp Hh.
  destruct (outcome p) as [[t [a|r]]|]; try exact Hp.
  intros u f pl Hin. simpl in Hin. apply in_app_or in Hin.
  destruct Hin as [Hin|Hin]; [exact (Hp u f pl Hin)|].
  exact (no_download_delay t (h r) (Hh r) u f pl Hin).
Qed.

Lemma no_download_race (p q : Promise A) :
  no_download p -> no_download q -> no_download (race p q).
Proof.
  intros Hp Hq u f pl Hin. simpl in Hin. apply in_app_or in Hin.
  destruct Hin as [Hin|Hin]; [exact (Hp u f pl Hin)|exact (Hq u f pl Hin)].
Qed.

Lemma caused_await_left (p : Promise A) (k : A -> Promise B) (eff : Effect) :
  caused p eff -> caused (await p k) eff.
Proof.
  intros (u & Hin). exists u. unfold await.
  destruct (outcome p) as [[t [a|r]]|]; try exact Hin.
  simpl. apply in_or_app. left. exact Hin.
Qed.

Lemma caused_await_right (p : Promise A) (k : A -> Promise B) (t : N)
    (a : A) (eff : Effect) :
  outcome p = Some (t, Fulfilled a) -> caused (k a) eff ->
  caused (await p k) eff.
Proof.
  intros Hp (u & Hin). exists (t + u)%N. unfold await. rewrite Hp.
  simpl effects. apply in_or_app. right. apply In_effects_delay. exact Hin.
Qed.

Lemma no_download_silent (p : Promise A) :
  effects p = [] -> no_download p.
Proof. intros E u f pl Hin. rewrite E in Hin. exact Hin. Qed.

End NoDownload.

Section SilentSuccess.
Import Async Orchestrator Delivery.

Lemma no_download_toast (level : ToastLevel) (message : string) :
  no_download (emit (Toast level message)).
Proof.
  intros u f pl [H|[]]. discriminate H.
Qed.

Lemma no_download_showProgress (steps : list (string * N)) :
  no_download (showProgress steps).
Proof.
  induction steps as [|[message ms] rest IH]; simpl.
  - now apply no_download_silent.
  - apply no_download_await; [apply no_download_toast|]. intros _.
    apply no_download_await; [now apply no_download_silent|]. intros _.
    exact IH.
Qed.

Variable b : Browser.
Variable options : ExportOptions.t.

Hypothesis blocked : toBlob_ok b = false \/ anchorDownload_ok b = false.

Lemma no_download_secondary (projectName : string) :
  no_download (renderSingleFrameSafe b) ->
  no_download (secondaryExport b projectName).
Proof.
  intros Hs. unfold secondaryExport.
  apply no_download_await; [exact Hs|]. intros _.
  unfold detached, no_download. simpl.
  unfold downloadVideoFile, triggerDownload.
  destruct (toBlob_ok b) eqn:Eb.
  - destruct blocked as [H|H]; [discriminate H|]. rewrite H.
    intros u f pl [].
  - intros u f pl [].
Qed.

Lemma no_download_tier :
  no_download (primaryExport b) -> no_download (renderSingleFrameSafe b) ->
  no_download (fullRenderTier b options).
Proof.
  intros Hp Hs. unfold fullRenderTier, createRealVideoFile.
  apply no_download_try_catch; [|intros e; now apply no_download_silent].
  destruct (negb (canvasContext_ok b)); [now apply no_download_silent|].
  apply no_download_try_catch; [exact Hp|]. intros _.
  apply no_download_try_catch; [|intros e; now apply no_download_silent].
  apply no_download_secondary. exact Hs.
Qed.

End SilentSuccess.

(** X16: when recording fails and the still frame is rendered before the
    15-second timer is due, but the canvas gives no image blob or the
    download of the image throws, [exportVideo] still resolves and announces
    "Video exported successfully!", although no file at all has been handed
    to the user: what happens inside the [toBlob] callback reaches nobody. *)
Theorem success_toast_without_file (b : Orchestrator.Browser)
    (options : ExportOptions.t) (tp ts : N) (reason : string) :
  Orchestrator.canvasContext_ok b = true ->
  Async.outcome (Orchestrator.primaryExport b)
    = Some (tp, Async.Rejected reason) ->
  Async.outcome (Orchestrator.renderSingleFrameSafe b)
    = Some (ts, Async.Fulfilled tt) ->
  (tp + ts < Orchestrator.exportTimeout)%N ->
  Orchestrator.toBlob_ok b = false \/
  Orchestrator.anchorDownload_ok b = false ->
  Delivery.no_download (Orchestrator.primaryExport b) ->
  Delivery.no_download (Orchestrator.renderSingleFrameSafe b) ->
  Async.outcome (Orchestrator.exportVideo b options)
    = Some ((Orchestrator.progressTime + (tp + ts))%N, Async.Fulfilled tt) /\
  Async.caused (Orchestrator.exportVideo b options)
    (Toast Success "Video exported successfully!") /\
  Delivery.no_download (Orchestrator.exportVideo b options).
Proof.
  intros Hc Hp Hs Ht Hblocked Hnp Hns.
  assert (Htier : Async.outcome (Orchestrator.fullRenderTier b options)
                  = Some ((tp + (ts + 0))%N, Async.Fulfilled tt)).
  { unfold Orchestrator.fullRenderTier, Orchestrator.createRealVideoFile.
    rewrite Hc. simpl negb. cbv iota.
    assert (Hsec : forall name,
               Async.outcome (Orchestrator.secondaryExport b name)
               = Some ((ts + 0)%N, Async.Fulfilled tt)).
    { intros name. unfold Orchestrator.secondaryExport.
      erewrite outcome_await_fulfilled by exact Hs. reflexivity. }
    erewrite outcome_try_catch_fulfilled; [reflexivity|].
    erewrite outcome_try_catch_rejected by exact Hp.
    rewrite outcome_delay.
    erewrite outcome_try_catch_fulfilled by apply Hsec. reflexivity. }
  assert (Hrace : Async.outcome (Orchestrator.exportRace b options)
                  = Some ((tp + (ts + 0))%N, Async.Fulfilled tt)).
  { unfold Orchestrator.exportRace, Async.race. rewrite Htier.
    simpl. unfold Orchestrator.exportTimeout in Ht.
    assert (E : (tp + (ts + 0) <? 15000)%N = true) by (apply N.ltb_lt; lia).
    unfold Orchestrator.exportTimeout. rewrite E. reflexivity. }
  pose proof (tryExport_outcome b options) as Htry. rewrite Hrace in Htry.
  split; [|split].
  - unfold Orchestrator.exportVideo.
    erewrite outcome_try_catch_fulfilled by exact Htry.
    f_equal. f_equal. lia.
  - unfold Orchestrator.exportVideo, Async.try_catch. rewrite Htry.
    unfold Orchestrator.tryExport.
    eapply caused_await_right; [reflexivity|].
    eapply caused_await_right; [exact simulateProgressUpdates_outcome|].
    cbv zeta. fold (Orchestrator.fullRenderTier b options).
    fold (Orchestrator.exportRace b options).
    eapply caused_await_right; [exact Hrace|].
    exists 0%N. left. reflexivity.
  - unfold Orchestrator.exportVideo, Async.try_catch. rewrite Htry.
    unfold Orchestrator.tryExport.
    apply no_download_await; [apply no_download_toast|]. intros _.
    apply no_download_await; [apply no_download_showProgress|]. intros _.
    cbv zeta. apply no_download_await; [|intros _; apply no_download_toast].
    apply no_download_race; [|now apply no_download_silent].
    apply (no_download_tier b options Hblocked Hnp Hns).
Qed.

Lemma success_toast_without_file_witness :
  Async.outcome (Orchestrator.exportVideo noBlobBrowser liveOptions)
    = Some ((Orchestrator.progressTime + (0 + 0))%N, Async.Fulfilled tt) /\
  Async.caused (Orchestrator.exportVideo noBlobBrowser liveOptions)
    (Toast Success "Video exported successfully!") /\
  Delivery.no_download (Orchestrator.exportVideo noBlobBrowser liveOptions).
Proof.
  apply (success_toast_without_file noBlobBrowser liveOptions 0 0
           "MediaRecorder failed").
  - reflexivity.
  - reflexivity.
  - reflexivity.
  - unfold Orchestrator.exportTimeout. lia.
  - left. reflexivity.
  - intros t f pl [].
  - intros t f pl [].
Defined.

(** ** The export button *)

Section HeaderFacts.
Import Async EditorHeader.

Variable b : Orchestrator.Browser.
Variable show : Q -> string.

Local Abbreviation handleExport :=
  (EditorHeader.handleExport (Orchestrator.exportVideo b) show).

Lemma handleExport_started (project : Project) (tr : TimelineTrack)
    (tracks : list TimelineTrack) (mediaItems : list MediaItem)
    (settings : ProjectSettings) (totalDuration : Q) :
  let p :=
    Orchestrator.exportVideo b
      {| ExportOptions.projectName := project_name project;
         ExportOptions.duration := totalDuration;
         ExportOptions.settings := settings;
         ExportOptions.tracks := tr :: tracks;
         ExportOptions.mediaItems := mediaItems |} in
  handleExport (Some project) (tr :: tracks) mediaItems settings totalDuration
  = [(0%N, SetIsExporting true);
     (0%N, HeaderInfo "Starting video export...");
     (0%N, HeaderInfo (settingsMessage show settings))]
    ++ map (fun te => (fst te, Service (snd te))) (effects p)
    ++ match outcome p with
       | Some (t, Fulfilled _) =>
           [(t, HeaderSuccess (successMessage show project settings));
            (t, SetIsExporting false)]
       | Some (t, Rejected _) =>
           [(t, HeaderError "Export failed. Please try again.");
            (t, SetIsExporting false)]
       | None => []
       end.
Proof. reflexivity. Qed.

End HeaderFacts.

Lemma filter_own_service (effects : list (N * Effect)) :
  List.filter (fun te : N * EditorHeader.Event =>
                 EditorHeader.is_own (snd te))
              (map (fun te : N * Effect =>
                      (fst te, EditorHeader.Service (snd te))) effects)
  = [].
Proof.
  induction effects as [|te l IH]; [reflexivity|]. simpl. exact IH.
Qed.

(** X17: the export button.  Without a project, or with an empty
    timeline, [handleExport] only shows the error that says so and leaves
    the button alone.
    Otherwise what the header does itself is this and nothing more: it
    disables the button and shows two messages at once; then, at the moment
    [exportVideo] settles, between 3.9 and 18.9 seconds later, it shows one
    closing toast, the success message if [exportVideo] resolved and "Export
    failed" if it rejected, and enables the button again.  What the service
    does is passed on unchanged, and may go on after that. *)
Theorem export_button_is_released (b : Orchestrator.Browser)
    (show : Q -> string) (activeProject : option EditorHeader.Project)
    (tracks : list TimelineTrack) (mediaItems : list MediaItem)
    (settings : ProjectSettings) (totalDuration : Q) :
  let events :=
    EditorHeader.handleExport (Orchestrator.exportVideo b) show
      activeProject tracks mediaItems settings totalDuration in
  match activeProject, tracks with
  | Some project, _ :: _ =>
      let service :=
        Orchestrator.exportVideo b
          {| ExportOptions.projectName := EditorHeader.project_name project;
             ExportOptions.duration := totalDuration;
             ExportOptions.settings := settings;
             ExportOptions.tracks := tracks;
             ExportOptions.mediaItems := mediaItems |} in
      exists t r,
        Async.outcome service = Some (t, r) /\
        (3900 <= t <= 18900)%N /\
        List.filter (fun te => EditorHeader.is_own (snd te)) events
        = [(0%N, EditorHeader.SetIsExporting true);
           (0%N, EditorHeader.HeaderInfo "Starting video export...");
           (0%N, EditorHeader.HeaderInfo
                   (EditorHeader.settingsMessage show settings));
           (t, match r with
               | Async.Fulfilled _ =>
                   EditorHeader.HeaderSuccess
                     (EditorHeader.successMessage show project settings)
               | Async.Rejected _ =>
                   EditorHeader.HeaderError "Export failed. Please try again."
               end);
           (t, EditorHeader.SetIsExporting false)] /\
        forall u eff,
          In (u, EditorHeader.Service eff) events <->
          In (u, eff) (Async.effects service)
  | Some _, [] =>
      events
      = [(0%N, EditorHeader.HeaderError
                 "No content to export. Add media to your timeline first.")]
  | None, _ =>
      events = [(0%N, EditorHeader.HeaderError "No active project to export")]
  end.
Proof.
  cbv zeta. destruct activeProject as [project|].
  - destruct tracks as [|tr tracks].
    + reflexivity.
    + rewrite handleExport_started. cbv zeta.
      set (options := ExportOptions.Build_t _ _ _ _ _).
      destruct (exportVideo_outcome_time b options) as (t & r & Ho & Ht0).
      assert (Ht : (3900 <= t <= 18900)%N).
      { pose proof (raceTime_bound
                      (Orchestrator.fullRenderTier b options)) as Hb.
        unfold Orchestrator.exportTimeout in Hb.
        unfold Orchestrator.progressTime in Ht0. lia. }
      exists t, r. split; [exact Ho|]. split; [exact Ht|].
      rewrite Ho. split.
      * rewrite !filter_app, filter_own_service.
        destruct r as [[]|reason]; reflexivity.
      * intros u eff. rewrite !in_app_iff, in_map_iff. split.
        -- intros [H|[(x & Hx & Hin)|H]].
           ++ simpl in H. destruct H as [H|[H|[H|[]]]]; discriminate H.
           ++ injection Hx as <- <-. destruct x. exact Hin.
           ++ destruct r as [[]|reason]; simpl in H;
                destruct H as [H|[H|[]]]; discriminate H.
        -- intros Hin. right. left. exists (u, eff). split; [reflexivity|].
           exact Hin.
  - destruct tracks; reflexivity.
Qed.

(** X18: when the full render throws or the 15-second timer fires, and the
    browser lets the failure report be downloaded, the header nevertheless
    announces "Video exported successfully!" with the project's name and
    ".mp4", at the moment the report [<name>_export_failed.txt] is
    delivered, and shows no error. *)
Theorem header_announces_success_after_fallback (b : Orchestrator.Browser)
    (show : Q -> string) (project : EditorHeader.Project)
    (tr : TimelineTrack) (tracks : list TimelineTrack)
    (mediaItems : list MediaItem) (settings : ProjectSettings)
    (totalDuration : Q) :
  let options :=
    {| ExportOptions.projectName := EditorHeader.project_name project;
       ExportOptions.duration := totalDuration;
       ExportOptions.settings := settings;
       ExportOptions.tracks := tr :: tracks;
       ExportOptions.mediaItems := mediaItems |} in
  let events :=
    EditorHeader.handleExport (Orchestrator.exportVideo b) show
      (Some project) (tr :: tracks) mediaItems settings totalDuration in
  Orchestrator.tier_throws b options \/ Orchestrator.timeout_fires b options ->
  Orchestrator.anchorDownload_ok b = true ->
  exists t,
    In (t, EditorHeader.Service (Orchestrator.emergencyReport options))
       events /\
    In (t, EditorHeader.HeaderSuccess
             (EditorHeader.successMessage show project settings)) events /\
    forall u message, ~ In (u, EditorHeader.HeaderError message) events.
Proof.
  cbv zeta. intros Hfail Hok.
  set (options := ExportOptions.Build_t _ _ _ _ _).
  rewrite handleExport_started. cbv zeta. fold options.
  assert (Hem : Async.fulfilled (Orchestrator.emergencyTier b options)).
  { unfold Async.fulfilled, Orchestrator.emergencyTier,
      Orchestrator.createEmergencyFallback, Orchestrator.triggerDownload.
    rewrite Hok. eexists _, _. reflexivity. }
  destruct (exportRace_rejected b options Hfail) as (t & reason & Hr & _).
  pose proof (tryExport_outcome b options) as Ht. rewrite Hr in Ht.
  destruct (catchExport_delivers b options reason Hem) as [Ho Hin].
  set (T := (0 + (Orchestrator.progressTime + t))%N) in *.
  assert (Hout : Async.outcome (Orchestrator.exportVideo b options)
                 = Some ((T + 0)%N, Async.Fulfilled tt)).
  { unfold Orchestrator.exportVideo.
    erewrite outcome_try_catch_rejected by exact Ht.
    rewrite outcome_delay, Ho. reflexivity. }
  assert (Hfile : In ((T + 0)%N, Orchestrator.emergencyReport options)
                     (Async.effects (Orchestrator.exportVideo b options))).
  { unfold Orchestrator.exportVideo.
    erewrite effects_try_catch_rejected by exact Ht.
    apply in_or_app. right. apply In_effects_delay. exact Hin. }
  rewrite Hout. exists (T + 0)%N. split; [|split].
  - apply in_or_app. right. apply in_or_app. left.
    apply in_map_iff. eexists. split; [|exact Hfile]. reflexivity.
  - apply in_or_app. right. apply in_or_app. right. left. reflexivity.
  - intros u message H. apply in_app_or in H. destruct H as [H|H].
    + simpl in H. destruct H as [H|[H|[H|[]]]]; discriminate H.
    + apply in_app_or in H. destruct H as [H|H].
      * apply in_map_iff in H. destruct H as (x & Hx & _). discriminate Hx.
      * simpl in H. destruct H as [H|[H|[]]]; discriminate H.
Qed.

Lemma header_announces_success_after_fallback_witness :
  let show := fun _ : Q => "30"%string in
  let project := {| EditorHeader.project_name := "My Film" |} in
  let options :=
    {| ExportOptions.projectName := "My Film";
       ExportOptions.duration := 5;
       ExportOptions.settings := settings30;
       ExportOptions.tracks := [liveTrack];
       ExportOptions.mediaItems := [] |} in
  let events :=
    EditorHeader.handleExport (Orchestrator.exportVideo noCanvasBrowser) show
      (Some project) [liveTrack] [] settings30 5 in
  exists t,
    In (t, EditorHeader.Service (Orchestrator.emergencyReport options))
       events /\
    In (t, EditorHeader.HeaderSuccess
             (EditorHeader.successMessage show project settings30)) events /\
    forall u message, ~ In (u, EditorHeader.HeaderError message) events.
Proof.
  apply (header_announces_success_after_fallback noCanvasBrowser
           (fun _ => "30"%string)
           {| EditorHeader.project_name := "My Film" |}
           liveTrack [] [] settings30 5).
  - left. exists 0%N, "Canvas not available"%string. reflexivity.
  - reflexivity.
Defined.

(** ** The render rectangle, once more *)

(** X25: the render rectangle is as large as the canvas allows: it spans
    the canvas on one axis at least, and its corner is never outside the
    canvas. *)
Theorem aspect_fit_touches_canvas (element : TimelineElement)
    (mediaElement : MediaHandle) (canvas : Canvas) :
  0 < Layout.mediaWidth mediaElement ->
  0 < Layout.mediaHeight mediaElement ->
  0 < width canvas -> 0 < height canvas ->
  let r := Layout.calculateRenderInfo element mediaElement canvas in
  (RenderInfo.width r == width canvas /\ RenderInfo.x r == 0 \/
   RenderInfo.height r == height canvas /\ RenderInfo.y r == 0) /\
  0 <= RenderInfo.x r /\ 0 <= RenderInfo.y r /\
  0 < RenderInfo.width r /\ 0 < RenderInfo.height r.
Proof.
  intros Hw Hh HW HH. cbv zeta. unfold Layout.calculateRenderInfo.
  set (w := Layout.mediaWidth mediaElement) in *.
  set (h := Layout.mediaHeight mediaElement) in *.
  destruct canvas as [W H]. simpl in HW, HH. simpl width. simpl height.
  rewrite (Qeq_bool_pos w Hw), (Qeq_bool_pos h Hh). simpl orb. cbv iota.
  assert (Nw : ~ w == 0) by (apply Qpos_neq0; assumption).
  assert (Nh : ~ h == 0) by (apply Qpos_neq0; assumption).
  assert (Hwh : 0 < w / h) by (apply Qlt_shift_div_l; [assumption|lra]).
  destruct (Qltb (W / H) (w / h)) eqn:E; cbv zeta; simpl.
  - apply Qltb_lt in E. apply (proj1 (aspect_lt_cross W H w h HH Hh)) in E.
    assert (R : W / (w / h) == W * h / w) by (field; split; assumption).
    assert (Hfit : W / (w / h) <= H).
    { rewrite R. apply Qle_shift_div_r; [assumption|].
      apply Qlt_le_weak. rewrite (Qmult_comm H w). exact E. }
    assert (Hpos : 0 < W / (w / h)).
    { apply Qlt_shift_div_l; [assumption|lra]. }
    split; [left; split; [reflexivity|field]|].
    split; [apply Qle_shift_div_l; lra|].
    split; [apply Qle_shift_div_l; lra|].
    split; assumption.
  - apply Qltb_ge in E. apply (proj1 (aspect_le_cross W H w h HH Hh)) in E.
    assert (R : H * (w / h) == w * H / h) by (field; assumption).
    assert (Hfit : H * (w / h) <= W).
    { rewrite R. apply Qle_shift_div_r; assumption. }
    assert (Hpos : 0 < H * (w / h)) by nra.
    split; [right; split; [reflexivity|field]|].
    split; [apply Qle_shift_div_l; lra|].
    split; [apply Qle_shift_div_l; lra|].
    split; assumption.
Qed.

Lemma aspect_fit_touches_canvas_witness :
  let r := Layout.calculateRenderInfo (plainElement (MediaBody "v1"))
             video1280x720 (Layout.qualityPresets Q480p) in
  (RenderInfo.width r == width (Layout.qualityPresets Q480p) /\
   RenderInfo.x r == 0 \/
   RenderInfo.height r == height (Layout.qualityPresets Q480p) /\
   RenderInfo.y r == 0) /\
  0 <= RenderInfo.x r /\ 0 <= RenderInfo.y r /\
  0 < RenderInfo.width r /\ 0 < RenderInfo.height r.
Proof.
  apply (aspect_fit_touches_canvas (plainElement (MediaBody "v1"))
           video1280x720 (Layout.qualityPresets Q480p)); reflexivity.
Defined.

(** ** Progress messages *)

Section ProgressFacts.
Import Async Orchestrator.

Lemma effects_delay_later {A : Type} (t : N) (p : Promise A) :
  Forall (fun te : N * Effect => (t <= fst te)%N) (effects (delay t p)).
Proof.
  unfold delay. simpl. apply Forall_forall. intros te Hin.
  apply in_map_iff in Hin. destruct Hin as (x & <- & _). simpl. lia.
Qed.

Lemma Forall_later (t u : N) (l : list (N * Effect)) :
  (t <= u)%N ->
  Forall (fun te : N * Effect => (u <= fst te)%N) l ->
  Forall (fun te : N * Effect => (t <= fst te)%N) l.
Proof.
  intros Hle. apply Forall_impl. intros te H. lia.
Qed.

Variable b : Browser.
Variable options : ExportOptions.t.

Lemma tryExport_effects :
  exists rest,
    effects (tryExport b options) = Delivery.progressSchedule ++ rest /\
    Forall (fun te : N * Effect => (progressTime <= fst te)%N) rest.
Proof.
  unfold tryExport.
  unfold await at 1. simpl outcome at 1. cbv iota beta.
  set (k := await simulateProgressUpdates _).
  assert (Hk : exists rest,
             effects k
             = List.tl Delivery.progressSchedule ++ rest /\
             Forall (fun te : N * Effect => (progressTime <= fst te)%N) rest).
  { unfold k, await at 1. rewrite simulateProgressUpdates_outcome.
    eexists. split; [reflexivity|]. apply effects_delay_later. }
  destruct Hk as (rest & Hk & Hrest).
  exists (map (fun te : N * Effect => ((0 + fst te)%N, snd te)) rest).
  split.
  - cbn [effects emit delay]. rewrite Hk, map_app. reflexivity.
  - apply Forall_forall. intros te Hin. apply in_map_iff in Hin.
    destruct Hin as (x & <- & Hx). simpl.
    rewrite Forall_forall in Hrest. specialize (Hrest x Hx). lia.
Qed.

End ProgressFacts.

(** X26: the progress messages do not follow the export: whatever the
    browser does, every export shows the same six messages at 0, 0, 0.5,
    1.5, 2.7 and 3.5 seconds, and nothing else happens, no rendering, no
    download and no other message, before 3.9 seconds. *)
Theorem progress_messages_on_fixed_schedule (b : Orchestrator.Browser)
    (options : ExportOptions.t) :
  exists rest,
    Async.effects (Orchestrator.exportVideo b options)
      = Delivery.progressSchedule ++ rest /\
    Forall (fun te : N * Effect => (3900 <= fst te)%N) rest.
Proof.
  destruct (tryExport_effects b options) as (rest & He & Hrest).
  pose proof (tryExport_outcome b options) as Ho.
  unfold Orchestrator.exportVideo, Async.try_catch.
  destruct (Async.outcome (Orchestrator.tryExport b options))
    as [[t [[]|reason]]|] eqn:E.
  - exists rest. split; assumption.
  - exists (rest ++ Async.effects
                      (Async.delay t
                         (Orchestrator.catchExport b options reason))).
    split.
    + cbn [Async.effects]. rewrite He, app_assoc. reflexivity.
    + apply Forall_app. split; [exact Hrest|].
      assert (Ht : (3900 <= t)%N).
      { destruct (Async.outcome (Orchestrator.exportRace b options))
          as [[u [[]|r]]|]; try discriminate Ho.
        injection Ho as -> _. unfold Orchestrator.progressTime. lia. }
      eapply Forall_later; [exact Ht|]. apply effects_delay_later.
  - exists rest. split; assumption.
Qed.

(** ** The render promise *)

(** X27: [renderVideoContentSafe] always settles, at the latest 20 seconds
    after the preload, which itself takes at most 3 seconds per image and 5
    per video.  On a clock where drawing takes no time it resolves exactly
    when at most 400 frames are to be drawn, that is when
    [ceil(duration * fps)] is at most 400, and is rejected with "Video
    rendering timed out" otherwise. *)
Theorem renderVideoContentSafe_settles
    (browser : MediaItem -> Preloader.LoadOutcome)
    (drawImage_ok : MediaHandle -> bool) (ctx0 : Renderer.Context2D)
    (canvas : Canvas) (duration : Q) (settings : ProjectSettings)
    (tracks : list TimelineTrack) (mediaItems : list MediaItem)
    (backgroundColor : option string) :
  exists t r,
    Async.outcome
      (RenderLoop.renderVideoContentSafe browser drawImage_ok ctx0 canvas
         duration settings tracks mediaItems backgroundColor)
    = Some (t, r) /\
    (t <= 3000 * N.of_nat (List.length
                             (List.filter PreloadBudget.is_image_item
                                          mediaItems))
          + 5000 * N.of_nat (List.length
                               (List.filter PreloadBudget.is_video_item
                                            mediaItems))
          + 20000)%N /\
    r = (if (Qceiling (duration * fps settings) <=? 400)%Z
         then Async.Fulfilled tt
         else Async.Rejected "Video rendering timed out").
Proof.
  destruct (preloadLoop_time browser mediaItems 0 ∅) as (t & Ht & Hle).
  rewrite totalLimit_count in Hle.
  unfold RenderLoop.renderVideoContentSafe. cbv zeta.
  erewrite outcome_await_fulfilled by exact Ht.
  rewrite outcome_delay. cbn [Async.outcome].
  rewrite renderLoop_settlement, settlement_cases.
  set (n := Z.to_nat (Z.max 1 (RenderLoop.totalFrames duration settings))).
  assert (Hn : (n <=? 400)%nat
               = (Qceiling (duration * fps settings) <=? 400)%Z).
  { unfold n, RenderLoop.totalFrames, RenderLoop.maxFrames.
    destruct (Qceiling (duration * fps settings) <=? 400)%Z eqn:E.
    - apply Z.leb_le in E. apply Nat.leb_le. lia.
    - apply Z.leb_gt in E. apply Nat.leb_gt. lia. }
  rewrite Hn.
  destruct (Qceiling (duration * fps settings) <=? 400)%Z eqn:E.
  - eexists _, _. split; [reflexivity|]. split; [|reflexivity].
    apply Z.leb_le in E.
    assert (Hn400 : (n <= 400)%nat).
    { unfold n, RenderLoop.totalFrames, RenderLoop.maxFrames. lia. }
    lia.
  - eexists _, _. split; [reflexivity|]. split; [lia|reflexivity].
Qed.

(** ** When an export fails *)

Section ExportVerdict.
Import Async Orchestrator.

Variable b : Browser.
Variable options : ExportOptions.t.

Lemma exportRace_verdict :
  (exists t, outcome (Orchestrator.exportRace b options)
             = Some (t, Fulfilled tt) /\
             ~ (tier_throws b options \/ timeout_fires b options)) \/
  (exists t reason,
     outcome (Orchestrator.exportRace b options) = Some (t, Rejected reason) /\
     (tier_throws b options \/ timeout_fires b options)).
Proof.
  unfold Orchestrator.exportRace, race, tier_throws, timeout_fires, rejected.
  cbn [outcome timeout].
  destruct (outcome (fullRenderTier b options)) as [[t [[]|reason]]|] eqn:E.
  - destruct (t <? exportTimeout)%N eqn:Et.
    + left. exists t. split; [reflexivity|].
      apply N.ltb_lt in Et. intros [(u & r & H)|H]; [discriminate H|lia].
    + right. eexists _, _. split; [reflexivity|].
      right. apply N.ltb_ge in Et. exact Et.
  - right. destruct (t <? exportTimeout)%N eqn:Et.
    + eexists _, _. split; [reflexivity|]. left. eexists _, _. reflexivity.
    + eexists _, _. split; [reflexivity|]. left. eexists _, _. reflexivity.
  - right. eexists _, _. split; [reflexivity|]. right. exact I.
Qed.

End ExportVerdict.

(** X28: [exportVideo] rejects exactly when the full render throws or has
    not settled before the 15-second timer is due (a render that settles at
    that very millisecond is too late) and, on top of that, the download of
    the failure report throws; in every other case it resolves. *)
Theorem exportVideo_rejects_exactly_when (b : Orchestrator.Browser)
    (options : ExportOptions.t) :
  let fails :=
    Orchestrator.tier_throws b options \/
    Orchestrator.timeout_fires b options in
  (Async.rejected (Orchestrator.exportVideo b options) <->
   fails /\ Orchestrator.anchorDownload_ok b = false) /\
  (Async.fulfilled (Orchestrator.exportVideo b options) <->
   ~ fails \/ Orchestrator.anchorDownload_ok b = true).
Proof.
  cbv zeta.
  pose proof (tryExport_outcome b options) as Ht.
  unfold Async.rejected, Async.fulfilled, Orchestrator.exportVideo.
  destruct (exportRace_verdict b options)
    as [(t & Hr & Hok)|(t & reason & Hr & Hfail)]; rewrite Hr in Ht.
  - erewrite outcome_try_catch_fulfilled by exact Ht. split; split.
    + intros (u & r & H). discriminate H.
    + intros [Hf _]. contradiction.
    + intros _. left. exact Hok.
    + intros _. eexists _, _. reflexivity.
  - erewrite outcome_try_catch_rejected by exact Ht.
    rewrite outcome_delay.
    unfold Orchestrator.catchExport, Orchestrator.createEmergencyFallback,
      Orchestrator.triggerDownload.
    destruct (Orchestrator.anchorDownload_ok b); simpl; split; split.
    + intros (u & r & H). discriminate H.
    + intros [_ H]. discriminate H.
    + intros _. right. reflexivity.
    + intros _. eexists _, _. reflexivity.
    + intros _. split; [exact Hfail|reflexivity].
    + intros _. eexists _, _. reflexivity.
    + intros (u & a & H). discriminate H.
    + intros [H|H]; [contradiction|discriminate H].
Qed.

(** A render that settles at the very millisecond the timer is due is too
    late: the user gets the failure report. *)
Example export_tie_goes_to_timer :
  let b :=
    {| Orchestrator.canvasContext_ok := true;
       Orchestrator.primaryExport := Async.sleep 15000;
       Orchestrator.renderSingleFrameSafe := Async.resolve tt;
       Orchestrator.toBlob_ok := true;
       Orchestrator.anchorDownload_ok := true |} in
  Async.outcome (Orchestrator.exportVideo b filmOptions)
    = Some (18900%N, Async.Fulfilled tt) /\
  In (18900%N, Orchestrator.emergencyReport filmOptions)
     (Async.effects (Orchestrator.exportVideo b filmOptions)) /\
  ~ Async.caused (Orchestrator.exportVideo b filmOptions)
      (Toast Success "Video exported successfully!").
Proof.
  cbv zeta. split; [vm_compute; reflexivity|]. split.
  - vm_compute. do 7 right. left. reflexivity.
  - intros (t & H). vm_compute in H.
    repeat (destruct H as [H|H]; [discriminate H|]). exact H.
Qed.

(** ** Identifiers *)

Section IdFacts.
Import NumberText Utils.

Lemma Qtrunc_nonneg (q : Q) : 0 <= q -> Qtrunc q = Qfloor q.
Proof.
  intros H. unfold Qtrunc.
  destruct (Qle_bool 0 q) eqn:E; [reflexivity|].
  apply Qle_bool_iff in H. congruence.
Qed.

Lemma Qfloor_bounds (q : Q) (lo hi : Z) :
  inject_Z lo <= q -> q < inject_Z hi -> (lo <= Qfloor q < hi)%Z.
Proof.
  intros Hlo Hhi. split.
  - rewrite <- (Qfloor_Z lo). apply Qfloor_resp_le. exact Hlo.
  - pose proof (Qfloor_le q) as H.
    assert (Hlt : inject_Z (Qfloor q) < inject_Z hi)
      by (eapply Qle_lt_trans; eassumption).
    rewrite <- Zlt_Qlt in Hlt. exact Hlt.
Qed.

Lemma toInt32_random (q : Q) :
  0 <= q -> q < 1 -> (0 <= toInt32 (q * 16) < 16)%Z.
Proof.
  intros H0 H1. unfold toInt32.
  assert (Hq : 0 <= q * 16) by nra.
  rewrite (Qtrunc_nonneg _ Hq).
  assert (Hb : (0 <= Qfloor (q * 16) < 16)%Z).
  { apply Qfloor_bounds.
    - exact Hq.
    - change (inject_Z 16) with 16. nra. }
  rewrite Z.mod_small by lia. lia.
Qed.

Lemma small_cases (v : Z) (P : Z -> Prop) :
  (0 <= v < 16)%Z ->
  P 0%Z -> P 1%Z -> P 2%Z -> P 3%Z -> P 4%Z -> P 5%Z -> P 6%Z -> P 7%Z ->
  P 8%Z -> P 9%Z -> P 10%Z -> P 11%Z -> P 12%Z -> P 13%Z -> P 14%Z ->
  P 15%Z -> P v.
Proof.
  intros Hv. intros.
  assert (Hc : (v = 0 \/ v = 1 \/ v = 2 \/ v = 3 \/ v = 4 \/ v = 5 \/
                v = 6 \/ v = 7 \/ v = 8 \/ v = 9 \/ v = 10 \/ v = 11 \/
                v = 12 \/ v = 13 \/ v = 14 \/ v = 15)%Z) by lia.
  repeat (destruct Hc as [-> | Hc]; [assumption | ]). subst v. assumption.
Qed.

Lemma replacement_x (q : Q) :
  0 <= q -> q < 1 ->
  exists c, replacement q "x" = String c EmptyString /\ is_hex c = true.
Proof.
  intros H0 H1. unfold replacement. cbv zeta.
  change (Ascii.eqb "x" "x") with true. cbv iota.
  apply (small_cases _ (fun v => exists c, toString16 v = String c EmptyString
                                           /\ is_hex c = true)
           (toInt32_random q H0 H1));
    eexists; split; vm_compute; reflexivity.
Qed.

Lemma replacement_y (q : Q) :
  0 <= q -> q < 1 ->
  exists c,
    replacement q "y" = String c EmptyString /\
    existsb (Ascii.eqb c) ["8"; "9"; "a"; "b"]%char = true.
Proof.
  intros H0 H1. unfold replacement. cbv zeta.
  change (Ascii.eqb "y" "x") with false. cbv iota.
  apply (small_cases _
           (fun r => exists c,
                toString16 (Z.lor (Z.land r 3) 8) = String c EmptyString /\
                existsb (Ascii.eqb c) ["8"; "9"; "a"; "b"]%char = true)
           (toInt32_random q H0 H1));
    eexists; split; vm_compute; reflexivity.
Qed.

Lemma hex_at (i : nat) (c : Ascii.ascii) :
  is_hex c = true ->
  existsb (Nat.eqb i) [8; 13; 14; 18; 19; 23]%nat = false ->
  uuid_v4_char i c = true.
Proof.
  intros Hc Hi. unfold uuid_v4_char. cbn [existsb] in *.
  destruct (Nat.eqb i 8), (Nat.eqb i 13), (Nat.eqb i 14), (Nat.eqb i 18),
    (Nat.eqb i 19), (Nat.eqb i 23); try discriminate Hi.
  exact Hc.
Qed.

Lemma variant_at (c : Ascii.ascii) :
  existsb (Ascii.eqb c) ["8"; "9"; "a"; "b"]%char = true ->
  uuid_v4_char 19 c = true.
Proof. intros Hc. exact Hc. Qed.

End IdFacts.

(** X20: where the browser has no [crypto.randomUUID], [generateId] still
    returns a version-4 UUID in canonical form: 36 characters, hyphens at
    positions 8, 13, 18 and 23, the version digit 4, a variant digit among
    8, 9, a, b, and lower-case hexadecimal digits elsewhere; given that
    [Math.random] returns numbers in [0, 1). *)
Theorem generateId_fallback_is_uuid_v4 (random : nat -> Q) :
  (forall i, 0 <= random i /\ random i < 1) ->
  Utils.is_uuid_v4 (Utils.generateId None random) = true.
Proof.
  intros H. unfold Utils.generateId, Utils.template.
  cbn [Utils.replace_xy Ascii.eqb Bool.eqb orb].
  repeat match goal with
  | |- context [Utils.replacement (random ?i) "x"] =>
      let c := fresh "c" in
      let E := fresh "E" in
      let Hc := fresh "Hc" in
      destruct (replacement_x (random i) (proj1 (H i)) (proj2 (H i)))
        as (c & E & Hc);
      rewrite E; clear E
  | |- context [Utils.replacement (random ?i) "y"] =>
      let c := fresh "c" in
      let E := fresh "E" in
      let Hc := fresh "Hc" in
      destruct (replacement_y (random i) (proj1 (H i)) (proj2 (H i)))
        as (c & E & Hc);
      rewrite E; clear E
  end.
  cbv [String.append]. cbn -[Utils.uuid_v4_char].
  repeat match goal with
  | Hc : NumberText.is_hex ?c = true |- context [Utils.uuid_v4_char ?i ?c] =>
      rewrite (hex_at i c Hc eq_refl); clear Hc
  | Hc : existsb _ _ = true |- context [Utils.uuid_v4_char 19 ?c] =>
      rewrite (variant_at c Hc); clear Hc
  end.
  reflexivity.
Qed.

Lemma generateId_fallback_is_uuid_v4_witness :
  Utils.is_uuid_v4 (Utils.generateId None (fun _ => 1 # 2)) = true.
Proof.
  apply (generateId_fallback_is_uuid_v4 (fun _ => 1 # 2)).
  intros i. split; [unfold Qle; simpl; lia|reflexivity].
Defined.

(** ** Durations in the audio panel *)

Section DurationFacts.
Import NumberText AudioView.





End DurationFacts.



Example formatDuration_three_twenty :
  AudioView.formatDuration (fun _ => "1e+21"%string) (2005 # 10)
    = "3:20"%string /\
  AudioView.formatDuration (fun _ => "1e+21"%string) 59 = "0:59"%string /\
  AudioView.formatDuration (fun _ => "1e+21"%string) 180 = "3:00"%string /\
  AudioView.formatDuration (fun _ => "1e+21"%string)
                           (inject_Z (60 * 10 ^ 21))
    = "1e+21:00"%string.
Proof. repeat split; vm_compute; reflexivity. Qed.

(** ** Names of extracted audio files *)

Section ExtractorFacts.
Import AudioExtractor.

Lemma is_extension_dot (a b : string) :
  is_extension (String.append a (String "." b)) = false.
Proof.
  induction a as [|c a IH].
  - cbv [String.append]. cbn [is_extension]. destruct b; reflexivity.
  - cbv [String.append]. fold String.append.
    change (is_extension (String c (String.append a (String "." b))) = false).
    cbn [is_extension]. 
    destruct (String.append a (String "." b)) eqn:E.
    + destruct a; discriminate E.
    + rewrite IH. apply andb_false_r.
Qed.

Lemma stripExtension_stem (stem ext : string) :
  is_extension ext = true ->
  stripExtension (String.append stem (String "." ext)) = stem.
Proof.
  intros Hext. induction stem as [|c stem IH].
  - cbv [String.append]. cbn [stripExtension]. rewrite Hext. reflexivity.
  - cbv [String.append]. fold String.append.
    cbn [stripExtension]. rewrite is_extension_dot, andb_false_r, IH.
    reflexivity.
Qed.

Lemma stripExtension_no_dot (s : string) :
  forallb (fun c => negb (Ascii.eqb c ".")) (list_ascii_of_string s) = true ->
  stripExtension s = s.
Proof.
  induction s as [|c s IH]; [reflexivity|]. simpl. intros H.
  apply andb_true_iff in H. destruct H as [Hc Hs].
  apply negb_true_iff in Hc. rewrite Hc. simpl. now rewrite IH.
Qed.

Lemma append_String (c : Ascii.ascii) (s t : string) :
  String.append (String c s) t = String c (String.append s t).
Proof. reflexivity. Qed.

Lemma prefix_append (sub t : string) :
  String.prefix sub (String.append sub t) = true.
Proof.
  induction sub as [|c sub IH].
  - cbv [String.append]. destruct t; reflexivity.
  - rewrite append_String. cbn [String.prefix].
    destruct (ascii_dec c c) as [_|Hc]; [exact IH | now elim Hc].
Qed.

Lemma prefix_split (sub s : string) :
  String.prefix sub s = true -> exists t, s = String.append sub t.
Proof.
  revert s. induction sub as [|c sub IH]; intros s H.
  - exists s. reflexivity.
  - destruct s as [|d s]; [discriminate H|]. cbn [String.prefix] in H.
    destruct (ascii_dec c d) as [->|]; [|discriminate H].
    destruct (IH s H) as (t & ->). exists t. reflexivity.
Qed.

(** [includes] finds the text exactly where it occurs. *)
Lemma includes_mentions (sub s : string) :
  includes sub s = true <-> mentions s sub.
Proof.
  unfold mentions. split.
  - induction s as [|d s IH].
    + cbn [includes]. rewrite orb_false_r. intros H.
      destruct (prefix_split _ _ H) as (t & Ht).
      exists EmptyString, t. exact Ht.
    + cbn [includes]. intros H. apply orb_true_iff in H.
      destruct H as [H|H].
      * destruct (prefix_split _ _ H) as (t & Ht).
        exists EmptyString, t. exact Ht.
      * destruct (IH H) as (before & after & ->).
        exists (String d before), after. reflexivity.
  - intros (before & after & ->).
    induction before as [|d before IH].
    + cbv [String.append]. fold String.append.
      destruct (String.append sub after) eqn:E; cbn [includes];
        rewrite <- E, prefix_append; reflexivity.
    + rewrite append_String. cbn [includes]. rewrite IH.
      apply orb_true_r.
Qed.

Lemma includes_not_mentions (sub s : string) :
  includes sub s = false <-> ~ mentions s sub.
Proof.
  rewrite <- includes_mentions. destruct (includes sub s); split; intros H.
  - discriminate H.
  - exfalso. now apply H.
  - discriminate.
  - reflexivity.
Qed.

End ExtractorFacts.

(** X22: the audio file extracted from [stem.ext] is named [stem] followed
    by a dot and the extension of the chosen format, so that only the last
    extension of the video name is replaced, and the fallback file is
    [stem_audio.mp4]; a name without a dot only gets the new extension
    appended.  The format is audio/webm when the type of the video file
    mentions "webm", audio/ogg when it mentions "ogg" but not "webm", and
    audio/mp4 with the extension m4a when it mentions neither. *)
Theorem audio_file_name_replaces_extension
    (stem ext plain videoType : string) :
  AudioExtractor.is_extension ext = true ->
  forallb (fun c => negb (Ascii.eqb c "."))
          (list_ascii_of_string plain) = true ->
  let format := AudioExtractor.audioFormat videoType in
  AudioExtractor.audioFileName (String.append stem (String "." ext)) videoType
    = String.append stem (String "." (snd format)) /\
  AudioExtractor.fallbackAudioFileName (String.append stem (String "." ext))
    = String.append stem "_audio.mp4" /\
  AudioExtractor.audioFileName plain videoType
    = String.append plain (String "." (snd format)) /\
  (AudioExtractor.mentions videoType "webm" ->
   format = ("audio/webm", "webm")%string) /\
  (~ AudioExtractor.mentions videoType "webm" ->
   AudioExtractor.mentions videoType "ogg" ->
   format = ("audio/ogg", "ogg")%string) /\
  (~ AudioExtractor.mentions videoType "webm" ->
   ~ AudioExtractor.mentions videoType "ogg" ->
   format = ("audio/mp4", "m4a")%string).
Proof.
  intros Hext Hplain. cbv zeta.
  unfold AudioExtractor.audioFileName, AudioExtractor.fallbackAudioFileName.
  rewrite (stripExtension_stem stem ext Hext).
  rewrite (stripExtension_no_dot plain Hplain).
  split; [reflexivity|]. split; [reflexivity|]. split; [reflexivity|].
  unfold AudioExtractor.audioFormat. split; [|split].
  - intros Hw. apply includes_mentions in Hw. rewrite Hw. reflexivity.
  - intros Hw Ho. apply includes_not_mentions in Hw.
    apply includes_mentions in Ho. rewrite Hw, Ho. reflexivity.
  - intros Hw Ho. apply includes_not_mentions in Hw.
    apply includes_not_mentions in Ho. rewrite Hw, Ho. reflexivity.
Qed.

Lemma audio_file_name_replaces_extension_witness :
  AudioExtractor.audioFileName "my.holiday.mp4" "video/webm"
    = "my.holiday.webm"%string /\
  AudioExtractor.fallbackAudioFileName "my.holiday.mp4"
    = "my.holiday_audio.mp4"%string /\
  AudioExtractor.audioFileName "holiday" "video/webm"
    = "holiday.webm"%string /\
  AudioExtractor.audioFormat "video/webm" = ("audio/webm", "webm")%string.
Proof.
  destruct (audio_file_name_replaces_extension
              "my.holiday" "mp4" "holiday" "video/webm"
              eq_refl eq_refl)
    as (Hname & Hfallback & Hplain & Hwebm & _).
  assert (Hm : AudioExtractor.mentions "video/webm" "webm").
  { exists "video/"%string, ""%string. reflexivity. }
  cbv zeta in *. rewrite (Hwebm Hm) in Hname, Hplain.
  split; [exact Hname|]. split; [exact Hfallback|].
  split; [exact Hplain | exact (Hwebm Hm)].
Defined.

(** ** Settings *)

Section SettingsFacts.
Import SettingsStore AdjustmentView.

Lemma act_resolution (s : ProjectSettings) (a : Action) :
  resolution (act s a) = resolution s.
Proof. destruct a; reflexivity. Qed.

Lemma selectedQualityInfo_resolution (s : ProjectSettings) :
  option_map preset_resolution (selectedQualityInfo s)
  = Some (getResolutionString (quality s)).
Proof. unfold selectedQualityInfo. destruct (quality s); reflexivity. Qed.

Lemma getResolutionString_canvas (q : Quality) :
  getResolutionString q = canvasResolution (Layout.qualityPresets q).
Proof. destruct q; vm_compute; reflexivity. Qed.

End SettingsFacts.

(** X23: whatever is clicked in the adjustment panel, the resolution it
    shows and writes to the settings file is the size of the canvas the
    export uses for the selected quality, and is what [getResolutionString]
    reports for it; the store's own [resolution] field is never updated by
    the panel, so it keeps its value when the quality changes. *)
Theorem panel_resolution_is_export_canvas
    (actions : list AdjustmentView.Action) (s : ProjectSettings) :
  let s' := fold_left AdjustmentView.act actions s in
  AdjustmentView.exported_resolution (AdjustmentView.handleExportSettings s')
    = Some (AdjustmentView.canvasResolution
              (Layout.qualityPresets (quality s'))) /\
  AdjustmentView.getResolutionString (quality s')
    = AdjustmentView.canvasResolution (Layout.qualityPresets (quality s')) /\
  AdjustmentView.exported_quality (AdjustmentView.handleExportSettings s')
    = quality s' /\
  resolution s' = resolution s.
Proof.
  cbv zeta. split; [|split; [|split]].
  - unfold AdjustmentView.handleExportSettings.
    cbn [AdjustmentView.exported_resolution].
    rewrite selectedQualityInfo_resolution, getResolutionString_canvas.
    reflexivity.
  - apply getResolutionString_canvas.
  - reflexivity.
  - revert s. induction actions as [|a actions IH]; intros s; [reflexivity|].
    simpl. rewrite IH. apply act_resolution.
Qed.

(** ** The progress bar *)

(** X24: the progress bar of [drawTimelineOverlay] is centred on the
    canvas, the label is centred over it, the backdrop surrounds the bar
    with a margin of 10 on every side, and for a time between 0 and the
    duration the red fill starts where the bar starts and is never wider
    than the bar, which it fills entirely at the end. *)
Theorem overlay_fill_within_bar (canvas : Canvas)
    (currentTime maxDuration : Q) :
  0 < maxDuration -> 0 <= currentTime -> currentTime <= maxDuration ->
  0 <= width canvas ->
  let o := Overlay.drawTimelineOverlay canvas currentTime maxDuration in
  Overlay.rect_x (Overlay.bar o) + Overlay.rect_width (Overlay.bar o) / 2
    == width canvas / 2 /\
  Overlay.label_x o == width canvas / 2 /\
  Overlay.rect_x (Overlay.fill o) == Overlay.rect_x (Overlay.bar o) /\
  0 <= Overlay.rect_width (Overlay.fill o) /\
  Overlay.rect_width (Overlay.fill o) <= Overlay.rect_width (Overlay.bar o) /\
  (currentTime == maxDuration ->
   Overlay.rect_width (Overlay.fill o) == Overlay.rect_width (Overlay.bar o)) /\
  Overlay.rect_x (Overlay.backdrop o) == Overlay.rect_x (Overlay.bar o) - 10 /\
  Overlay.rect_y (Overlay.backdrop o) == Overlay.rect_y (Overlay.bar o) - 10 /\
  Overlay.rect_width (Overlay.backdrop o)
    == Overlay.rect_width (Overlay.bar o) + 20 /\
  Overlay.rect_height (Overlay.backdrop o)
    == Overlay.rect_height (Overlay.bar o) + 20.
Proof.
  intros Hd H0 H1 Hw. cbv zeta. unfold Overlay.drawTimelineOverlay. simpl.
  assert (Hd' : ~ maxDuration == 0) by lra.
  assert (Hfill : width canvas * (8 # 10) * currentTime / maxDuration
                  == width canvas * (8 # 10) * (currentTime / maxDuration))
    by (field; exact Hd').
  assert (Hr0 : 0 <= currentTime / maxDuration).
  { apply Qle_shift_div_l; [exact Hd|]. lra. }
  assert (Hr1 : currentTime / maxDuration <= 1).
  { apply Qle_shift_div_r; [exact Hd|]. lra. }
  repeat split; try reflexivity.
  - field.
  - rewrite Hfill. nra.
  - rewrite Hfill. nra.
  - intros E. rewrite Hfill, E.
    assert (R : maxDuration / maxDuration == 1) by (field; exact Hd').
    rewrite R. ring.
Qed.

Lemma overlay_fill_within_bar_witness :
  let o := Overlay.drawTimelineOverlay (Layout.qualityPresets Q720p) 2 5 in
  Overlay.rect_x (Overlay.bar o) + Overlay.rect_width (Overlay.bar o) / 2
    == width (Layout.qualityPresets Q720p) / 2 /\
  Overlay.label_x o == width (Layout.qualityPresets Q720p) / 2 /\
  Overlay.rect_x (Overlay.fill o) == Overlay.rect_x (Overlay.bar o) /\
  0 <= Overlay.rect_width (Overlay.fill o) /\
  Overlay.rect_width (Overlay.fill o) <= Overlay.rect_width (Overlay.bar o) /\
  (2 == 5 ->
   Overlay.rect_width (Overlay.fill o) == Overlay.rect_width (Overlay.bar o)) /\
  Overlay.rect_x (Overlay.backdrop o) == Overlay.rect_x (Overlay.bar o) - 10 /\
  Overlay.rect_y (Overlay.backdrop o) == Overlay.rect_y (Overlay.bar o) - 10 /\
  Overlay.rect_width (Overlay.backdrop o)
    == Overlay.rect_width (Overlay.bar o) + 20 /\
  Overlay.rect_height (Overlay.backdrop o)
    == Overlay.rect_height (Overlay.bar o) + 20.
Proof.
  apply (overlay_fill_within_bar (Layout.qualityPresets Q720p) 2 5).
  - reflexivity.
  - unfold Qle. simpl. lia.
  - unfold Qle. simpl. lia.
  - unfold Qle. simpl. lia.
Defined.
